(** * QuarterTreeMesh: the mesh quadtree of [MeshQuadTree.cpp]

    A shallow embedding of [FMeshQuadTree] and [FMeshQuadTree::FNode]:
    the node arena is a list addressed by index, the build phase and the
    lock pass thread the arena explicitly, the queries and the LOD
    traversal read it.

    Numbers.  [int32] and [uint32] values are integers in [Z] with the
    wrap-around of the machine type written out where the source does
    arithmetic on them; arena and render-data indices are [nat].  World
    coordinates, sizes and heights ([float] and [double] in the source)
    are exact rationals [Q]: their rounding is not part of this model.
    The one [float] whose rounding decides an integer, the reserve of
    the arena, is rounded as the source rounds it ([InitCapacity]).

    Array reads.  [TArray::operator[]] stops the program on an index
    outside the array; the reads [node_at] and [render_at] are total
    and yield a default element there, so the two agree on every index
    inside the array.  [RegionsInTable], [WellIndexed] and
    [ChildrenWithin] say of a build or an arena that the indices read
    are inside. *)

From Stdlib Require Import ZArith QArith Qround Lqa Lia List Bool.
From stdpp Require Import base list gmap.

(** ** Geometry *)

Module FVector2D.
Record t : Type := mk { X : Q; Y : Q }.

Definition add (a b : t) : t := mk (X a + X b) (Y a + Y b).
Definition sub (a b : t) : t := mk (X a - X b) (Y a - Y b).
Definition mul (a b : t) : t := mk (X a * X b) (Y a * Y b).
Definition scale (a : t) (s : Q) : t := mk (X a * s) (Y a * s).
Definition div (a : t) (s : Q) : t := mk (X a / s) (Y a / s).
(** [FVector2D(float)] : both components set to the scalar. *)
Definition splat (s : Q) : t := mk s s.
End FVector2D.

Module FVector.
Record t : Type := mk { X : Q; Y : Q; Z : Q }.

Definition add (a b : t) : t := mk (X a + X b) (Y a + Y b) (Z a + Z b).
Definition sub (a b : t) : t := mk (X a - X b) (Y a - Y b) (Z a - Z b).
Definition mul (a b : t) : t := mk (X a * X b) (Y a * Y b) (Z a * Z b).
Definition scale (a : t) (s : Q) : t := mk (X a * s) (Y a * s) (Z a * s).
(** [FVector(FVector2D, Z)] and [FVector2D(FVector)]. *)
Definition of2D (v : FVector2D.t) (z : Q) : t :=
  mk (FVector2D.X v) (FVector2D.Y v) z.
Definition to2D (v : t) : FVector2D.t := FVector2D.mk (X v) (Y v).
End FVector.

Definition Qlt_bool (a b : Q) : bool := negb (Qle_bool b a).

Module FBox2D.
Record t : Type := mk { Min : FVector2D.t; Max : FVector2D.t }.

(** [TBox2::ComputeSquaredDistanceToPoint]: per axis, the squared
    distance to the nearer face when the point is outside the slab. *)
Definition axisSq (p lo hi : Q) : Q :=
  if Qlt_bool p lo then (p - lo) * (p - lo)
  else if Qlt_bool hi p then (p - hi) * (p - hi)
  else 0.
Definition ComputeSquaredDistanceToPoint (b : t) (p : FVector2D.t) : Q :=
  axisSq (FVector2D.X p) (FVector2D.X (Min b)) (FVector2D.X (Max b))
  + axisSq (FVector2D.Y p) (FVector2D.Y (Min b)) (FVector2D.Y (Max b)).

(** [TBox2::IsInsideOrOn]. *)
Definition IsInsideOrOn (b : t) (p : FVector2D.t) : bool :=
  Qle_bool (FVector2D.X (Min b)) (FVector2D.X p)
  && Qle_bool (FVector2D.X p) (FVector2D.X (Max b))
  && Qle_bool (FVector2D.Y (Min b)) (FVector2D.Y p)
  && Qle_bool (FVector2D.Y p) (FVector2D.Y (Max b)).
End FBox2D.

Module FBox.
Record t : Type := mk { Min : FVector.t; Max : FVector.t; IsValid : bool }.

(** [FBox(Min, Max)] marks the box valid; [FBox(ForceInit)] is the zero,
    invalid box. *)
Definition make (lo hi : FVector.t) : t := mk lo hi true.
Definition ForceInit : t :=
  mk (FVector.mk 0 0 0) (FVector.mk 0 0 0) false.

Definition GetSize (b : t) : FVector.t := FVector.sub (Max b) (Min b).
Definition GetExtent (b : t) : FVector.t :=
  FVector.scale (FVector.sub (Max b) (Min b)) (1 # 2).
Definition GetCenter (b : t) : FVector.t :=
  FVector.scale (FVector.add (Min b) (Max b)) (1 # 2).

(** [TBox::IntersectXY]: closed boxes, touching edges intersect. *)
Definition IntersectXY (a b : t) : bool :=
  negb (Qlt_bool (FVector.X (Max b)) (FVector.X (Min a))
        || Qlt_bool (FVector.X (Max a)) (FVector.X (Min b)))
  && negb (Qlt_bool (FVector.Y (Max b)) (FVector.Y (Min a))
           || Qlt_bool (FVector.Y (Max a)) (FVector.Y (Min b))).

Definition setMinZ (b : t) (z : Q) : t :=
  mk (FVector.mk (FVector.X (Min b)) (FVector.Y (Min b)) z) (Max b) (IsValid b).
Definition setMaxZ (b : t) (z : Q) : t :=
  mk (Min b) (FVector.mk (FVector.X (Max b)) (FVector.Y (Max b)) z) (IsValid b).
End FBox.

(** The test both point queries apply to a child box: inside, or on the
    Min edges ([>= Min], [< Max]) in X and Y. *)
Definition InsideOrOnMin (p : FVector2D.t) (b : FBox.t) : bool :=
  Qle_bool (FVector.X (FBox.Min b)) (FVector2D.X p)
  && Qlt_bool (FVector2D.X p) (FVector.X (FBox.Max b))
  && Qle_bool (FVector.Y (FBox.Min b)) (FVector2D.Y p)
  && Qlt_bool (FVector2D.Y p) (FVector.Y (FBox.Max b)).

(** ** Machine integers *)

Definition wrap_int32 (z : Z) : Z := ((z + 2 ^ 31) mod 2 ^ 32 - 2 ^ 31)%Z.
Definition to_uint32 (z : Z) : Z := (z mod 2 ^ 32)%Z.

(** [FMath::CeilLogTwo] and [FMath::RoundUpToPowerOfTwo] of the engine, on
    [uint32]: [32 - CountLeadingZeros(Arg - 1)] with 0 treated as 1, and
    [1 << CeilLogTwo(Arg)].  The number of significant bits of [a - 1] is
    [Z.log2 (a - 1) + 1] when [a - 1] is positive and 0 otherwise.  The
    32-bit shift takes its count modulo 32, as the shift instruction
    does; the count reaches 32 only for arguments above [2 ^ 31]. *)
Definition CeilLogTwo (arg : Z) : Z :=
  let a := if (arg =? 0)%Z then 1%Z else arg in
  if (a - 1 =? 0)%Z then 0%Z else (Z.log2 (a - 1) + 1)%Z.

Definition RoundUpToPowerOfTwo (arg : Z) : Z :=
  to_uint32 (Z.shiftl 1 (CeilLogTwo arg mod 32)).

(** ** Node store *)

(** [FQuadMeshRenderData]: a null [Material] pointer is [None];
    [MaterialIndex] is an [int32], [INDEX_NONE] being -1. *)
Record FQuadMeshRenderData : Type := mkRenderData {
  Material : option nat;
  SurfaceBaseHeight : Q;
  MaterialIndex : Z
}.

Definition INDEX_NONE : Z := (-1)%Z.

(** [AddDefaulted()] entry of the render-data table: no material. *)
Definition DefaultRenderData : FQuadMeshRenderData :=
  mkRenderData None 0 0.

(** [FNode].  [ParentIndex = None] stands for the [INVALID_PARENT]
    sentinel; a child slot holding 0 means there is no child. *)
Record FNode : Type := mkNode {
  Bounds : FBox.t;
  QuadMeshIndex : nat;
  ParentIndex : option nat;
  Children : list nat;
  TransitionQuadMeshIndex : nat;
  HasCompleteSubtree : bool;
  IsSubtreeSameQuadMesh : bool;
  HasMaterial : bool
}.

(** Modelled from the spec: the header [MeshQuadTree.h], which declares
    [FNode] with its member initialisers, is not among the sources.  A
    newly created node points at render data 0 (the null entry), has no
    parent ([INVALID_PARENT], which [AddNodes] tests on a copy of the
    root), no children, and the flags of a leaf, which "default to
    homogeneous/complete". *)
Definition DefaultNode : FNode :=
  {| Bounds := FBox.make (FVector.mk (-1) (-1) (-1)) (FVector.mk 1 1 1);
     QuadMeshIndex := 0;
     ParentIndex := None;
     Children := [0; 0; 0; 0];
     TransitionQuadMeshIndex := 0;
     HasCompleteSubtree := true;
     IsSubtreeSameQuadMesh := true;
     HasMaterial := false |}.

Definition setBounds (b : FBox.t) (n : FNode) : FNode :=
  mkNode b (QuadMeshIndex n) (ParentIndex n) (Children n)
         (TransitionQuadMeshIndex n) (HasCompleteSubtree n)
         (IsSubtreeSameQuadMesh n) (HasMaterial n).
Definition setQuadMeshIndex (q : nat) (n : FNode) : FNode :=
  mkNode (Bounds n) q (ParentIndex n) (Children n)
         (TransitionQuadMeshIndex n) (HasCompleteSubtree n)
         (IsSubtreeSameQuadMesh n) (HasMaterial n).
Definition setParentIndex (p : option nat) (n : FNode) : FNode :=
  mkNode (Bounds n) (QuadMeshIndex n) p (Children n)
         (TransitionQuadMeshIndex n) (HasCompleteSubtree n)
         (IsSubtreeSameQuadMesh n) (HasMaterial n).
Definition setChildren (c : list nat) (n : FNode) : FNode :=
  mkNode (Bounds n) (QuadMeshIndex n) (ParentIndex n) c
         (TransitionQuadMeshIndex n) (HasCompleteSubtree n)
         (IsSubtreeSameQuadMesh n) (HasMaterial n).
Definition setTransitionQuadMeshIndex (q : nat) (n : FNode) : FNode :=
  mkNode (Bounds n) (QuadMeshIndex n) (ParentIndex n) (Children n)
         q (HasCompleteSubtree n)
         (IsSubtreeSameQuadMesh n) (HasMaterial n).
Definition setHasCompleteSubtree (f : bool) (n : FNode) : FNode :=
  mkNode (Bounds n) (QuadMeshIndex n) (ParentIndex n) (Children n)
         (TransitionQuadMeshIndex n) f
         (IsSubtreeSameQuadMesh n) (HasMaterial n).
Definition setIsSubtreeSameQuadMesh (f : bool) (n : FNode) : FNode :=
  mkNode (Bounds n) (QuadMeshIndex n) (ParentIndex n) (Children n)
         (TransitionQuadMeshIndex n) (HasCompleteSubtree n)
         f (HasMaterial n).
Definition setHasMaterial (f : bool) (n : FNode) : FNode :=
  mkNode (Bounds n) (QuadMeshIndex n) (ParentIndex n) (Children n)
         (TransitionQuadMeshIndex n) (HasCompleteSubtree n)
         (IsSubtreeSameQuadMesh n) f.

(** The i-th child slot; a slot that does not exist reads as "no child". *)
Definition child (n : FNode) (i : nat) : nat := nth i (Children n) 0.
Definition setChild (i c : nat) (n : FNode) : FNode :=
  setChildren (<[i := c]> (Children n)) n.

(** [FNodeData]: the arena [Nodes] with its allocated capacity
    ([TArray::Max]) and the render-data table. *)
Record FNodeData : Type := mkNodeData {
  Nodes : list FNode;
  NodesMax : Z;
  QuadMeshRenderData : list FQuadMeshRenderData
}.

Definition setNodes (l : list FNode) (d : FNodeData) : FNodeData :=
  mkNodeData l (NodesMax d) (QuadMeshRenderData d).

(** [Nodes[i]] and [QuadMeshRenderData[i]].  [TArray::operator[]] is
    range-checked: with an index outside the array the source stops,
    where the read here yields the default element.  The two agree on
    every index inside the array.  The indices a build stores in the
    arena are inside it ([TreeInv]); [RegionsInTable] states that the
    render-data indices handed to the insertions are inside the table,
    and [AddQuadMeshTilesInsideBounds] reads [Nodes[0]], which exists
    once [InitTree] ran. *)
Definition node_at (l : list FNode) (i : nat) : FNode := nth i l DefaultNode.
Definition render_at (r : list FQuadMeshRenderData) (i : nat)
  : FQuadMeshRenderData := nth i r DefaultRenderData.

Record FMeshQuadTree : Type := mkTree {
  NodeData : FNodeData;
  QuadMeshMaterials : list nat;
  TileRegion : FBox2D.t;
  LeafSize : Q;
  ExtentInTiles : Z * Z;
  MaxLeafCount : Z;
  TreeDepth : Z;
  bIsReadOnly : bool
}.

Definition GetNodeCount (t : FMeshQuadTree) : nat := length (Nodes (NodeData t)).

(** A tree object on which [InitTree] never ran. *)
Definition EmptyTree : FMeshQuadTree :=
  {| NodeData := mkNodeData [] 0 [];
     QuadMeshMaterials := [];
     TileRegion := FBox2D.mk (FVector2D.mk 0 0) (FVector2D.mk 0 0);
     LeafSize := 0;
     ExtentInTiles := (0, 0)%Z;
     MaxLeafCount := 0;
     TreeDepth := 0;
     bIsReadOnly := false |}.

(** ** [FMeshQuadTree::InitTree] *)

(** [TNumericLimits<float>::Max()] and [Lowest()], the inverted Z range
    the root starts with. *)
Definition FLT_MAX : Q := inject_Z (2 ^ 128 - 2 ^ 104).
Definition FLT_LOWEST : Q := - FLT_MAX.

(** [MaxDim]: both products are [int32]. *)
Definition MaxDim (InExtentInTiles : Z * Z) : Z :=
  Z.max (wrap_int32 (fst InExtentInTiles * 2)) (wrap_int32 (snd InExtentInTiles * 2)).

(** [RootDim], an integer held in a [float]. *)
Definition RootDim (InExtentInTiles : Z * Z) : Z :=
  RoundUpToPowerOfTwo (to_uint32 (MaxDim InExtentInTiles)).

(** A value of at least 1 rounded to the nearest [float]: 24 significant
    bits, ties to the even significand.  The exponent range of [float]
    is not reached by the values this is used on. *)
Definition RoundToFloat (x : Q) : Q :=
  if Qle_bool 1 x then
    let e := Z.log2 (Qfloor x) in
    let ulp := (2 ^ (e - 23))%Q in
    let m := (x / ulp)%Q in
    let n := Qfloor m in
    let up :=
      match (m - inject_Z n ?= 1 # 2)%Q with
      | Lt => false
      | Gt => true
      | Eq => Z.odd n
      end in
    (inject_Z (if up then n + 1 else n) * ulp)%Q
  else x.

(** The slack handed to [Nodes.Empty]: [Square(RootDim) * 4 / 3.0f].
    [RootDim] is a power of two, so the square and its product with 4
    are exact and the quotient is rounded once, to [float]; the array
    takes it as [int32], which drops the fraction.  From depth 12 on the
    rounding goes up and the reserve is larger than the node count of
    the full tree.  The conversion to [int32] is defined while the
    quotient is below [2 ^ 31], that is for [RootDim] up to 32768
    ([ReserveFits]); for a larger [RootDim] the source's conversion has
    no defined value, and the quotient's integer part stands here for
    the reserve that was asked for. *)
Definition InitCapacity (rootDim : Z) : Z :=
  Qfloor (RoundToFloat (inject_Z rootDim * inject_Z rootDim * 4 / 3)).

(** The reserve of [InitTree] is a value of [int32]. *)
Definition ReserveFits (InExtentInTiles : Z * Z) : Prop :=
  (InitCapacity (RootDim InExtentInTiles) < 2 ^ 31)%Z.

Definition InitTree (this : FMeshQuadTree) (InBounds : FBox2D.t)
    (InTileSize : Q) (InExtentInTiles : Z * Z) : FMeshQuadTree :=
  let maxLeafCount := wrap_int32 (wrap_int32 (fst InExtentInTiles * snd InExtentInTiles) * 4) in
  let rootDim := RootDim InExtentInTiles in
  let RootWorldSize := (inject_Z rootDim * InTileSize)%Q in
  (* static_cast<int32>(FMath::Log2(RootDim)): the integer part of the
     base-2 logarithm.  FMath::Log2 is engine code outside the sources;
     it is taken to be exact on a power of two. *)
  let treeDepth := Z.log2 rootDim in
  let root :=
    setBounds
      (FBox.make
         (FVector.of2D (FBox2D.Min InBounds) FLT_MAX)
         (FVector.of2D
            (FVector2D.add (FBox2D.Min InBounds)
                           (FVector2D.mk RootWorldSize RootWorldSize))
            FLT_LOWEST))
      DefaultNode in
  {| NodeData := mkNodeData [root] (InitCapacity rootDim) [DefaultRenderData];
     QuadMeshMaterials := QuadMeshMaterials this;
     TileRegion := InBounds;
     LeafSize := InTileSize;
     ExtentInTiles := InExtentInTiles;
     MaxLeafCount := maxLeafCount;
     TreeDepth := treeDepth;
     bIsReadOnly := false |}.

(** ** [FMeshQuadTree::FNode::CanRender] *)

Definition CanRender (this : FNode) (InDensityLevel InForceCollapseDensityLevel : Z)
    (InQuadMeshRenderData : FQuadMeshRenderData) : bool :=
  match Material InQuadMeshRenderData with Some _ => true | None => false end
  && IsSubtreeSameQuadMesh this
  && ((InForceCollapseDensityLevel <? InDensityLevel)%Z || HasCompleteSubtree this).

(** ** Results of checked, possibly unbounded computations

    [check(...)] aborts; the recursive traversals follow child indices
    through the arena and are given fuel, which a well-formed tree never
    exhausts. *)

Inductive Res (A : Type) : Type :=
| Ret (a : A)
| Check_failed
| Out_of_fuel.
Arguments Ret {A} a.
Arguments Check_failed {A}.
Arguments Out_of_fuel {A}.

#[global] Instance Res_ret : MRet Res := @Ret.
#[global] Instance Res_bind : MBind Res := fun A B f m =>
  match m with
  | Ret a => f a
  | Check_failed => Check_failed
  | Out_of_fuel => Out_of_fuel
  end.

(** [for (int32 ChildIndex : Children) if (ChildIndex > 0) body]. *)
Fixpoint for_children {S : Type} (body : nat -> S -> Res S) (cs : list nat)
    (s : S) : Res S :=
  match cs with
  | [] => Ret s
  | c :: cs' =>
      if (0 <? c)%nat then s' ← body c s; for_children body cs' s'
      else for_children body cs' s
  end.

(** [for (int32 i = 0; i < 4; i++) body]. *)
Fixpoint for_slots {S : Type} (body : nat -> S -> Res S) (slots : list nat)
    (s : S) : Res S :=
  match slots with
  | [] => Ret s
  | i :: rest => s' ← body i s; for_slots body rest s'
  end.

Definition four_slots : list nat := [0; 1; 2; 3]%nat.

(** ** Point queries *)

(** [FNode::QueryBaseHeightAtLocation]; the result pairs the returned
    flag with the value left in [OutHeight]. *)
Fixpoint QueryBaseHeight_children (rec : FNode -> Res (bool * Q))
    (nodes : list FNode) (p : FVector2D.t) (fallback : Q) (cs : list nat)
  : Res (bool * Q) :=
  match cs with
  | [] => Ret (false, fallback)
  | ChildIndex :: cs' =>
      if (0 <? ChildIndex)%nat then
        let ChildNode := node_at nodes ChildIndex in
        if InsideOrOnMin p (Bounds ChildNode) then rec ChildNode
        else QueryBaseHeight_children rec nodes p fallback cs'
      else QueryBaseHeight_children rec nodes p fallback cs'
  end.

Fixpoint QueryBaseHeightAtLocation (fuel : nat) (InNodeData : FNodeData)
    (this : FNode) (InWorldLocationXY : FVector2D.t) : Res (bool * Q) :=
  match fuel with
  | O => Out_of_fuel
  | S fuel' =>
      let height :=
        SurfaceBaseHeight
          (render_at (QuadMeshRenderData InNodeData) (QuadMeshIndex this)) in
      if HasCompleteSubtree this && IsSubtreeSameQuadMesh this then
        Ret (true, height)
      else
        QueryBaseHeight_children
          (fun c => QueryBaseHeightAtLocation fuel' InNodeData c InWorldLocationXY)
          (Nodes InNodeData) InWorldLocationXY height (Children this)
  end.

(** [FNode::QueryBoundsAtLocation]; [OutBounds] is assigned on entry of
    every call, so the value left is the box of the last node visited. *)
Fixpoint QueryBounds_children (rec : FNode -> Res (bool * FBox.t))
    (nodes : list FNode) (p : FVector2D.t) (OutBounds : FBox.t)
    (cs : list nat) (ChildCount : nat) : Res (bool * FBox.t) :=
  match cs with
  | [] => Ret ((ChildCount =? 0)%nat, OutBounds)
  | ChildIndex :: cs' =>
      if (0 <? ChildIndex)%nat then
        let ChildNode := node_at nodes ChildIndex in
        if InsideOrOnMin p (Bounds ChildNode) then rec ChildNode
        else QueryBounds_children rec nodes p OutBounds cs' (S ChildCount)
      else QueryBounds_children rec nodes p OutBounds cs' ChildCount
  end.

Fixpoint QueryBoundsAtLocation (fuel : nat) (InNodeData : FNodeData)
    (this : FNode) (InWorldLocationXY : FVector2D.t) : Res (bool * FBox.t) :=
  match fuel with
  | O => Out_of_fuel
  | S fuel' =>
      QueryBounds_children
        (fun c => QueryBoundsAtLocation fuel' InNodeData c InWorldLocationXY)
        (Nodes InNodeData) InWorldLocationXY (Bounds this) (Children this) 0
  end.

(** [FMeshQuadTree::QueryTileBaseHeightAtLocation] and
    [QueryTileBoundsAtLocation].  A descent goes one level down per call
    and the tree has [TreeDepth] levels below the root, which bounds the
    fuel. *)
Definition QueryFuel (this : FMeshQuadTree) : nat :=
  S (Z.to_nat (TreeDepth this)).
Definition QueryTileBaseHeightAtLocation (this : FMeshQuadTree)
    (InWorldLocationXY : FVector2D.t) : Res (bool * Q) :=
  if (0 <? GetNodeCount this)%nat then
    if bIsReadOnly this then
      QueryBaseHeightAtLocation (QueryFuel this) (NodeData this)
        (node_at (Nodes (NodeData this)) 0) InWorldLocationXY
    else Check_failed
  else Ret (false, 0%Q).

Definition QueryTileBoundsAtLocation (this : FMeshQuadTree)
    (InWorldLocationXY : FVector2D.t) : Res (bool * FBox.t) :=
  if (0 <? GetNodeCount this)%nat then
    if bIsReadOnly this then
      QueryBoundsAtLocation (QueryFuel this) (NodeData this)
        (node_at (Nodes (NodeData this)) 0) InWorldLocationXY
    else Check_failed
  else Ret (false, FBox.ForceInit).

(** [FMath::Floor], [FMath::Frac], [FMath::Lerp] and [FMath::BiLerp]. *)
Definition Floor (x : Q) : Q := inject_Z (Qfloor x).
Definition Frac (x : Q) : Q := x - Floor x.
Definition Lerp (A B Alpha : Q) : Q := A + Alpha * (B - A).
Definition BiLerp (P00 P10 P01 P11 FracX FracY : Q) : Q :=
  Lerp (Lerp P00 P10 FracX) (Lerp P01 P11 FracX) FracY.

(** The sample grid of [QueryInterpolatedTileBaseHeightAtLocation]. *)
Definition SampleGridWorldPosition (this : FMeshQuadTree) : FVector2D.t :=
  FVector2D.sub (FBox2D.Min (TileRegion this))
                (FVector2D.splat (LeafSize this * (1 # 2))).
Definition NormalizedGridPosition (this : FMeshQuadTree)
    (InWorldLocationXY : FVector2D.t) : FVector2D.t :=
  FVector2D.div (FVector2D.sub InWorldLocationXY (SampleGridWorldPosition this))
                (LeafSize this).
Definition CornerSampleWorldPosition00 (this : FMeshQuadTree)
    (InWorldLocationXY : FVector2D.t) : FVector2D.t :=
  let n := NormalizedGridPosition this InWorldLocationXY in
  FVector2D.add
    (FVector2D.scale (FVector2D.mk (Floor (FVector2D.X n)) (Floor (FVector2D.Y n)))
                     (LeafSize this))
    (SampleGridWorldPosition this).
Definition CornerSampleWorldPositions (this : FMeshQuadTree)
    (InWorldLocationXY : FVector2D.t) : list FVector2D.t :=
  let c := CornerSampleWorldPosition00 this InWorldLocationXY in
  [ FVector2D.add c (FVector2D.mk 0 0);
    FVector2D.add c (FVector2D.mk (LeafSize this) 0);
    FVector2D.add c (FVector2D.mk 0 (LeafSize this));
    FVector2D.add c (FVector2D.mk (LeafSize this) (LeafSize this)) ].

(** The sampling loop: [HeightSamples[i]] receives what the query leaves
    in its out-parameter, [NumValidSamples] counts the hits. *)
Fixpoint SampleCorners (this : FMeshQuadTree) (ps : list FVector2D.t)
    (NumValidSamples : nat) : Res (list Q * nat) :=
  match ps with
  | [] => Ret ([], NumValidSamples)
  | p :: ps' =>
      r ← QueryTileBaseHeightAtLocation this p;
      let '(found, height) := (r : bool * Q) in
      rest ← SampleCorners this ps'
               (if found then S NumValidSamples else NumValidSamples);
      Ret (height :: fst rest, snd rest)
  end.

Definition QueryInterpolatedTileBaseHeightAtLocation (this : FMeshQuadTree)
    (InWorldLocationXY : FVector2D.t) : Res (bool * Q) :=
  let n := NormalizedGridPosition this InWorldLocationXY in
  s ← SampleCorners this (CornerSampleWorldPositions this InWorldLocationXY) 0;
  let '(HeightSamples, NumValidSamples) := (s : list Q * nat) in
  Ret ((NumValidSamples =? 4)%nat,
       BiLerp (nth 0 HeightSamples 0%Q) (nth 1 HeightSamples 0%Q)
              (nth 2 HeightSamples 0%Q) (nth 3 HeightSamples 0%Q)
              (Frac (FVector2D.X n)) (Frac (FVector2D.Y n))).

(** ** Build phase: [FNode::AddNodes] *)

(** [static_cast<uint16>] of a [uint32]. *)
Definition to_uint16 (n : nat) : nat := N.to_nat (N.of_nat n mod 65536).

(** Modelled from the spec: [FNode::CanMerge] is declared in the missing
    header.  It is the "can-merge" comparison "limited to the
    identity-defining attributes -- primarily the render-data index and
    material-bearing status"; the index compared is the transition
    identity, which is the one "used to detect homogeneity across insert
    order". *)
Definition CanMerge (this Other : FNode) : bool :=
  (TransitionQuadMeshIndex Other =? TransitionQuadMeshIndex this)%nat
  && eqb (HasMaterial Other) (HasMaterial this).

Definition HalfOffsets : list FVector2D.t :=
  [ FVector2D.mk 0 0; FVector2D.mk 1 0; FVector2D.mk 0 1; FVector2D.mk 1 1 ].

Definition HalfOffset (i : nat) : FVector2D.t :=
  nth i HalfOffsets (FVector2D.mk 0 0).

(** The box [AddNodes] gives the child in slot [i]: a quadrant of the
    parent in X and Y, the Z range of the inserted region. *)
Definition ChildBoundsOf (ParentBounds : FBox.t) (HalfBoundSize : FVector2D.t)
    (InQuadMeshBounds : FBox.t) (i : nat) : FBox.t :=
  let ChildMin :=
    FVector.of2D
      (FVector2D.add (FVector.to2D (FBox.Min ParentBounds))
                     (FVector2D.mul HalfBoundSize (HalfOffset i)))
      (FVector.Z (FBox.Min InQuadMeshBounds)) in
  let ChildMax :=
    FVector.of2D (FVector2D.add (FVector.to2D ChildMin) HalfBoundSize)
                 (FVector.Z (FBox.Max InQuadMeshBounds)) in
  FBox.make ChildMin ChildMax.

(** The half size [AddNodes] computes before its loop. *)
Definition HalfBoundSizeOf (b : FBox.t) : FVector2D.t :=
  FVector2D.scale (FVector.to2D (FBox.GetSize b)) (1 # 2).

Definition Qmax (a b : Q) : Q := if Qle_bool a b then b else a.
Definition Qmin (a b : Q) : Q := if Qle_bool a b then a else b.

Section Build.
(** What stays fixed during one insertion: the render-data table, the
    arena capacity, the mesh bounds, the inserted box and its index. *)
Variable rdata : list FQuadMeshRenderData.
Variable capacity : Z.
Variable InMeshBounds InQuadMeshBounds : FBox.t.
Variable InQuadMeshIndex : nat.

(** The part of [AddNodes] before the children loop, on the receiver. *)
Definition AddNodes_visit (this : FNode) : FNode :=
  {| Bounds :=
       FBox.setMinZ
         (FBox.setMaxZ (Bounds this)
            (Qmax (FVector.Z (FBox.Max (Bounds this)))
                  (FVector.Z (FBox.Max InQuadMeshBounds))))
         (Qmin (FVector.Z (FBox.Min (Bounds this)))
               (FVector.Z (FBox.Min InQuadMeshBounds)));
     QuadMeshIndex := InQuadMeshIndex;
     ParentIndex := ParentIndex this;
     Children := Children this;
     TransitionQuadMeshIndex := to_uint16 InQuadMeshIndex;
     HasCompleteSubtree := true;
     IsSubtreeSameQuadMesh := true;
     HasMaterial :=
       match Material (render_at rdata InQuadMeshIndex) with
       | Some _ => true
       | None => false
       end |}.

(** One round of the loop over the four slots, in the two halves the
    source has.  The receiver is [Nodes[self]]; the loop state is the
    arena and [PrevChildNode].  [rec] is the recursive call one level
    down.

    First half: recurse into the child of slot [i], creating it first
    when the slot is empty and the quadrant meets the inserted box and
    the mesh bounds. *)
Definition AddNodes_descend (rec : nat -> list FNode -> Res (list FNode))
    (self : nat) (HalfBoundSize : FVector2D.t) (i : nat)
    (nodes : list FNode) : Res (list FNode) :=
  let this := node_at nodes self in
  if (0 <? child this i)%nat then
    if FBox.IntersectXY (Bounds (node_at nodes (child this i))) InQuadMeshBounds
    then rec (child this i) nodes
    else Ret nodes
  else
    let ChildBounds :=
      ChildBoundsOf (Bounds this) HalfBoundSize InQuadMeshBounds i in
    if FBox.IntersectXY ChildBounds InQuadMeshBounds
       && FBox.IntersectXY ChildBounds InMeshBounds
    then
      if (Z.of_nat (length nodes) <? capacity)%Z then
        let c := length nodes in
        let nodes := nodes ++ [DefaultNode] in
        let nodes := alter (setChild i c) self nodes in
        let nodes := alter (setBounds ChildBounds) c nodes in
        let nodes := alter (setParentIndex (Some self)) c nodes in
        rec c nodes
      else Check_failed
    else Ret nodes.

(** Second half: fold the child's flags into the receiver's. *)
Definition AddNodes_merge (self : nat) (i : nat) (nodes1 : list FNode)
    (PrevChildNode : FNode) : list FNode * FNode :=
  let c := child (node_at nodes1 self) i in
  if (0 <? c)%nat then
    let ChildNode := node_at nodes1 c in
    let Prev :=
      match ParentIndex PrevChildNode with
      | None => ChildNode
      | Some _ => PrevChildNode
      end in
    let nodes2 :=
      if negb (IsSubtreeSameQuadMesh ChildNode) || negb (CanMerge ChildNode Prev)
      then alter (setIsSubtreeSameQuadMesh false) self nodes1
      else nodes1 in
    let PrevChildNode' := node_at nodes2 c in
    let nodes3 :=
      if negb (HasCompleteSubtree (node_at nodes2 c))
      then alter (setHasCompleteSubtree false) self nodes2
      else nodes2 in
    (nodes3, PrevChildNode')
  else
    (alter (setHasCompleteSubtree false) self nodes1, PrevChildNode).

Definition AddNodes_slot (rec : nat -> list FNode -> Res (list FNode))
    (self : nat) (HalfBoundSize : FVector2D.t) (i : nat)
    (st : list FNode * FNode) : Res (list FNode * FNode) :=
  nodes1 ← AddNodes_descend rec self HalfBoundSize i (fst st);
  Ret (AddNodes_merge self i nodes1 (snd st)).

(** [FNode::AddNodes].  At both call sites the receiver is
    [Nodes[InParentIndex]] (the root with 0, a child with its own
    index), so the receiver is named by that index.  [InLODLevel]
    starts at the tree depth and counts down to 0. *)
Fixpoint AddNodes (InLODLevel : nat) (InParentIndex : nat)
    (nodes : list FNode) {struct InLODLevel} : Res (list FNode) :=
  let nodes := alter AddNodes_visit InParentIndex nodes in
  match InLODLevel with
  | O => Ret nodes
  | S lower =>
      let HalfBoundSize :=
        HalfBoundSizeOf (Bounds (node_at nodes InParentIndex)) in
      let PrevChildNode := node_at nodes 0 in
      st ← for_slots (AddNodes_slot (AddNodes lower) InParentIndex HalfBoundSize)
             four_slots (nodes, PrevChildNode);
      Ret (fst st)
  end.
End Build.

Definition setNodeData (d : FNodeData) (t : FMeshQuadTree) : FMeshQuadTree :=
  mkTree d (QuadMeshMaterials t) (TileRegion t) (LeafSize t) (ExtentInTiles t)
         (MaxLeafCount t) (TreeDepth t) (bIsReadOnly t).
Definition setReadOnly (b : bool) (t : FMeshQuadTree) : FMeshQuadTree :=
  mkTree (NodeData t) (QuadMeshMaterials t) (TileRegion t) (LeafSize t)
         (ExtentInTiles t) (MaxLeafCount t) (TreeDepth t) b.
Definition setQuadMeshMaterials (m : list nat) (t : FMeshQuadTree) : FMeshQuadTree :=
  mkTree (NodeData t) m (TileRegion t) (LeafSize t)
         (ExtentInTiles t) (MaxLeafCount t) (TreeDepth t) (bIsReadOnly t).

(** [FMeshQuadTree::AddQuadMeshTilesInsideBounds]. *)
Definition AddQuadMeshTilesInsideBounds (this : FMeshQuadTree)
    (InBounds : FBox.t) (InWaterBodyIndex : nat) : Res FMeshQuadTree :=
  if bIsReadOnly this then Check_failed
  else
    let d := NodeData this in
    nodes ← AddNodes (QuadMeshRenderData d) (NodesMax d)
              (FBox.make (FVector.of2D (FBox2D.Min (TileRegion this)) 0)
                         (FVector.of2D (FBox2D.Max (TileRegion this)) 0))
              InBounds InWaterBodyIndex
              (Z.to_nat (TreeDepth this)) 0 (Nodes d);
    Ret (setNodeData (setNodes nodes d) this).

(** Modelled from the spec: [AddQuadMeshRenderData] is declared in the
    missing header; the render-data table is "append-only during build"
    and each insertion produces "a render-data index used for subsequent
    region insertion". *)
Definition AddQuadMeshRenderData (this : FMeshQuadTree)
    (r : FQuadMeshRenderData) : FMeshQuadTree * nat :=
  let d := NodeData this in
  (setNodeData
     (mkNodeData (Nodes d) (NodesMax d) (QuadMeshRenderData d ++ [r])) this,
   length (QuadMeshRenderData d)).

(** A build: render-data records and regions, in the order the host
    submits them. *)
Inductive BuildOp : Type :=
| AddRenderData (r : FQuadMeshRenderData)
| AddRegion (InBounds : FBox.t) (InQuadMeshIndex : nat).

Fixpoint RunBuild (this : FMeshQuadTree) (ops : list BuildOp)
  : Res FMeshQuadTree :=
  match ops with
  | [] => Ret this
  | AddRenderData r :: rest =>
      RunBuild (fst (AddQuadMeshRenderData this r)) rest
  | AddRegion b i :: rest =>
      t ← AddQuadMeshTilesInsideBounds this b i; RunBuild t rest
  end.

(** ** Lock: [FMeshQuadTree::Unlock] *)

(** The [SwapRemove] lambda.  [MovedNode] and [MovedNodeParent] are
    references bound once, after the swap.  A moved node is never the
    root, so it has a parent; with [INVALID_PARENT] the source would
    index outside the arena, and nothing is patched here. *)
Definition SwapRemove_patch (NodeIndex EndIndex : nat) (parent : option nat)
    (nodes : list FNode) (i : nat) : list FNode :=
  let MovedNode := node_at nodes NodeIndex in
  let nodes :=
    if (0 <? child MovedNode i)%nat
    then alter (setParentIndex (Some NodeIndex)) (child MovedNode i) nodes
    else nodes in
  match parent with
  | Some p =>
      if (child (node_at nodes p) i =? EndIndex)%nat
      then alter (setChild i NodeIndex) p nodes
      else nodes
  | None => nodes
  end.

Definition SwapRemove (NodeIndex EndIndex : nat) (nodes : list FNode)
  : list FNode :=
  if (NodeIndex =? EndIndex)%nat then nodes
  else
    let a := node_at nodes NodeIndex in
    let b := node_at nodes EndIndex in
    let nodes := <[NodeIndex := b]> (<[EndIndex := a]> nodes) in
    let parent := ParentIndex (node_at nodes NodeIndex) in
    fold_left (SwapRemove_patch NodeIndex EndIndex parent) four_slots nodes.

Definition clearChildrenEqual (NodeIndex : nat) (n : FNode) : FNode :=
  setChildren (map (fun c => if (c =? NodeIndex)%nat then 0%nat else c) (Children n)) n.

(** One iteration of the removal loop at [NodeIndex]; the state is the
    arena and [EndIndex].  The second test names the uniformity flag
    [IsSubtreeSameWaterBody]; the node has one such flag, assigned as
    [IsSubtreeSameQuadMesh] by [AddNodes], and that flag is read here. *)
Definition Unlock_step (NodeIndex : nat) (st : list FNode * nat)
  : list FNode * nat :=
  let nodes := fst st in
  let EndIndex := snd st in
  match ParentIndex (node_at nodes NodeIndex) with
  | None => st
  | Some p =>
      let ParentNode := node_at nodes p in
      let Node := node_at nodes NodeIndex in
      if HasCompleteSubtree ParentNode && IsSubtreeSameQuadMesh ParentNode then
        let nodes := alter (setChildren [0; 0; 0; 0]%nat) p nodes in
        (SwapRemove NodeIndex EndIndex nodes, pred EndIndex)
      else if negb (HasMaterial Node) && HasCompleteSubtree Node
              && IsSubtreeSameQuadMesh Node then
        let nodes := alter (clearChildrenEqual NodeIndex) p nodes in
        (SwapRemove NodeIndex EndIndex nodes, pred EndIndex)
      else st
  end.

(** [for (NodeIndex = EndIndex; NodeIndex > 0; NodeIndex--)]. *)
Fixpoint Unlock_loop (NodeIndex : nat) (st : list FNode * nat)
  : list FNode * nat :=
  match NodeIndex with
  | O => st
  | S below => Unlock_loop below (Unlock_step NodeIndex st)
  end.

(** The pruning pass on the arena.  With an empty arena [EndIndex] is -1,
    the loop does not run and [SetNum(0)] leaves the arena empty. *)
Definition PruneNodes (nodes : list FNode) : list FNode :=
  match length nodes with
  | O => nodes
  | S EndIndex =>
      let st := Unlock_loop EndIndex (nodes, EndIndex) in
      take (S (snd st)) (fst st)
  end.

Definition Unlock (this : FMeshQuadTree) (bPruneRedundantNodes : bool)
  : FMeshQuadTree :=
  let d := NodeData this in
  let nodes := if bPruneRedundantNodes then PruneNodes (Nodes d) else Nodes d in
  setReadOnly true (setNodeData (setNodes nodes d) this).

(** ** [FMeshQuadTree::BuildMaterialIndices] *)

Definition setMaterialIndex (m : Z) (r : FQuadMeshRenderData)
  : FQuadMeshRenderData :=
  mkRenderData (Material r) (SurfaceBaseHeight r) m.

(** The [GetMatIdx] lambda with its captured state [NextIdx] and
    [MatToIdxMap].  A material is identified with its render proxy. *)
Definition GetMatIdx (st : Z * gmap nat Z) (Mat : option nat)
  : Z * (Z * gmap nat Z) :=
  match Mat with
  | None => (INDEX_NONE, st)
  | Some proxy =>
      match snd st !! proxy with
      | Some found => (found, st)
      | None => (fst st, ((fst st + 1)%Z, <[proxy := fst st]> (snd st)))
      end
  end.

Fixpoint AssignMaterialIndices (st : Z * gmap nat Z)
    (rd : list FQuadMeshRenderData) : list FQuadMeshRenderData * (Z * gmap nat Z) :=
  match rd with
  | [] => ([], st)
  | Data :: rest =>
      let r := GetMatIdx st (Material Data) in
      let out := AssignMaterialIndices (snd r) rest in
      (setMaterialIndex (fst r) Data :: fst out, snd out)
  end.

Definition BuildMaterialIndices (this : FMeshQuadTree) : FMeshQuadTree :=
  let d := NodeData this in
  let r := AssignMaterialIndices (0%Z, ∅) (QuadMeshRenderData d) in
  let MatToIdxMap := snd (snd r) in
  let table :=
    fold_left (fun acc kv => <[Z.to_nat (snd kv) := fst kv]> acc)
              (map_to_list MatToIdxMap)
              (replicate (size MatToIdxMap) 0%nat) in
  setQuadMeshMaterials table
    (setNodeData (mkNodeData (Nodes d) (NodesMax d) (fst r)) this).

(** ** LOD selection *)

(** [FTraversalDesc].  [Frustum] is the test
    [Frustum.IntersectBox(Center, Extent)] of the view volume. *)
Record FTraversalDesc : Type := mkTraversalDesc {
  LowestLOD : Z;
  LODCount : Z;
  DensityCount : Z;
  ForceCollapseDensityLevel : Z;
  HeightMorph : Q;
  LODScale : Q;
  PreViewTranslation : FVector.t;
  ObserverPosition : FVector.t;
  Frustum : FVector.t -> FVector.t -> bool;
  bLODMorphingEnabled : bool;
  TessellatedQuadMeshBounds : FBox2D.t;
  TessellatedQuadMeshBoundsValid : bool
}.

(** [FStagingInstanceData]: the bucket and the two packed vectors.  The
    two [W]/[X] channels that receive a bit-cast [uint32] hold that
    integer. *)
Record FStagingInstanceData : Type := mkStaging {
  BucketIndex : Z;
  Data0_X : Q; Data0_Y : Q; Data0_Z : Q; Data0_W_bits : Z;
  Data1_X_bits : Z; Data1_Y : Q; Data1_Z : Q; Data1_W : Q
}.

Record FTraversalOutput : Type := mkOutput {
  BucketInstanceCounts : list Z;
  StagingInstanceData : list FStagingInstanceData;
  InstanceCount : Z
}.

(** [FNode::AddNodeForRender].  Indexing [BucketInstanceCounts] outside
    its range trips the array's range check. *)
Definition AddNodeForRender (this : FNode) (InNodeData : FNodeData)
    (InQuadMeshRenderData : FQuadMeshRenderData)
    (InDensityLevel InLODLevel : Z) (InTraversalDesc : FTraversalDesc)
    (Output : FTraversalOutput) : Res FTraversalOutput :=
  let MaterialIndex := 0%Z in
  let NodeQuadMeshIndex := 2%Z in
  let BaseHeight := SurfaceBaseHeight InQuadMeshRenderData in
  let BaseHeightTWS := (BaseHeight + FVector.Z (PreViewTranslation InTraversalDesc))%Q in
  let DensityIndex := Z.min InDensityLevel (DensityCount InTraversalDesc - 1) in
  let BucketIndex := (MaterialIndex * DensityCount InTraversalDesc + DensityIndex)%Z in
  if ((0 <=? BucketIndex)
      && (BucketIndex <? Z.of_nat (length (BucketInstanceCounts Output))))%Z
  then
    let counts :=
      alter Z.succ (Z.to_nat BucketIndex) (BucketInstanceCounts Output) in
    let TranslatedWorldPosition :=
      FVector.add (FBox.GetCenter (Bounds this)) (PreViewTranslation InTraversalDesc) in
    let Scale := FVector.to2D (FBox.GetSize (Bounds this)) in
    let bIsLowestLOD := (InLODLevel =? LowestLOD InTraversalDesc)%Z in
    let bShouldMorph :=
      if bLODMorphingEnabled InTraversalDesc
         && negb (DensityIndex =? DensityCount InTraversalDesc - 1)%Z
      then 1%Z else 0%Z in
    let bCanMorphTwice :=
      if (DensityIndex <? DensityCount InTraversalDesc - 2)%Z then 1%Z else 0%Z in
    let BitPackedChannel :=
      Z.lor (Z.lor (Z.land (to_uint32 InLODLevel) 255) (Z.shiftl bShouldMorph 8))
            (Z.shiftl bCanMorphTwice 9) in
    let StagingData :=
      {| BucketIndex := BucketIndex;
         Data0_X := FVector.X TranslatedWorldPosition;
         Data0_Y := FVector.Y TranslatedWorldPosition;
         Data0_Z := BaseHeightTWS;
         Data0_W_bits := NodeQuadMeshIndex;
         Data1_X_bits := BitPackedChannel;
         Data1_Y := if bIsLowestLOD then HeightMorph InTraversalDesc else 0%Q;
         Data1_Z := FVector2D.X Scale;
         Data1_W := FVector2D.Y Scale |} in
    Ret {| BucketInstanceCounts := counts;
           StagingInstanceData := StagingInstanceData Output ++ [StagingData];
           InstanceCount := (InstanceCount Output + 1)%Z |}
  else Check_failed.

(** The temporary node [SelectLOD] and [SelectLODWithinBounds] build for
    quadrant [i] of a node whose children are implicit: a
    default-constructed [FNode] with five members assigned. *)
Definition VirtualChild (this : FNode) (i : nat) : FNode :=
  let Extent := FBox.GetExtent (Bounds this) in
  let HalfBoundSize :=
    FVector.mk (FVector.X Extent) (FVector.Y Extent) (FVector.Z Extent * 2)%Q in
  let HalfOffset3 := FVector.of2D (HalfOffset i) 0 in
  let ChildMin :=
    FVector.add (FBox.Min (Bounds this)) (FVector.mul HalfBoundSize HalfOffset3) in
  let ChildMax := FVector.add ChildMin HalfBoundSize in
  let ChildBounds := FBox.make ChildMin ChildMax in
  setBounds ChildBounds
    (setQuadMeshIndex (QuadMeshIndex this)
       (setTransitionQuadMeshIndex (TransitionQuadMeshIndex this)
          (setIsSubtreeSameQuadMesh true
             (setHasCompleteSubtree true DefaultNode)))).

Definition VirtualChildren (this : FNode) : list FNode :=
  map (VirtualChild this) four_slots.

(** [for (i = 0; i < 4; i++)] over the temporaries. *)
Fixpoint for_nodes {S : Type} (body : FNode -> S -> Res S) (ns : list FNode)
    (s : S) : Res S :=
  match ns with
  | [] => Ret s
  | n :: rest => s' ← body n s; for_nodes body rest s'
  end.

Section Traversal.
(** [GetLODDistance(LODLevel, LODScale)], a static helper declared in
    the missing header, is a parameter of the traversal. *)
Variable GetLODDistance : Z -> Q -> Q.

(** [FMath::Sqrt(SquaredDistance) > Distance], decided on the squares. *)
Definition DistanceExceeds (SquaredDistance Distance : Q) : bool :=
  Qlt_bool Distance 0 || Qlt_bool (Distance * Distance) SquaredDistance.

Definition SquaredDistanceToTile (this : FNode) (d : FTraversalDesc) : Q :=
  FBox2D.ComputeSquaredDistanceToPoint
    (FBox2D.mk (FVector.to2D (FBox.Min (Bounds this)))
               (FVector.to2D (FBox.Max (Bounds this))))
    (FVector.to2D (ObserverPosition d)).

Fixpoint SelectLODRefinement (fuel : nat) (this : FNode)
    (InNodeData : FNodeData) (InDensityLevel InLODLevel : Z)
    (InTraversalDesc : FTraversalDesc) (Output : FTraversalOutput)
  : Res FTraversalOutput :=
  match fuel with
  | O => Out_of_fuel
  | S fuel' =>
      let rd := render_at (QuadMeshRenderData InNodeData) (QuadMeshIndex this) in
      if Frustum InTraversalDesc (FBox.GetCenter (Bounds this))
                 (FBox.GetExtent (Bounds this))
      then
        if CanRender this InDensityLevel
                     (ForceCollapseDensityLevel InTraversalDesc) rd
        then AddNodeForRender this InNodeData rd InDensityLevel InLODLevel
                              InTraversalDesc Output
        else
          for_children
            (fun ChildIndex out =>
               SelectLODRefinement fuel' (node_at (Nodes InNodeData) ChildIndex)
                 InNodeData (wrap_int32 (InDensityLevel + 1)) InLODLevel
                 InTraversalDesc out)
            (Children this) Output
      else Ret Output
  end.

(** Render the node if it can be, otherwise drill down its children
    with [SelectLODRefinement]: the pattern [SelectLOD] uses three
    times with different levels. *)
Definition RenderOrRefine (fuel : nat) (this : FNode) (InNodeData : FNodeData)
    (rd : FQuadMeshRenderData) (RenderDensity RenderLOD RefineDensity : Z)
    (InTraversalDesc : FTraversalDesc) (Output : FTraversalOutput)
  : Res FTraversalOutput :=
  if CanRender this 0 (ForceCollapseDensityLevel InTraversalDesc) rd
  then AddNodeForRender this InNodeData rd RenderDensity RenderLOD
                        InTraversalDesc Output
  else
    for_children
      (fun ChildIndex out =>
         SelectLODRefinement fuel (node_at (Nodes InNodeData) ChildIndex)
           InNodeData RefineDensity RenderLOD InTraversalDesc out)
      (Children this) Output.

Fixpoint SelectLOD (fuel : nat) (this : FNode) (InNodeData : FNodeData)
    (InLODLevel : Z) (InTraversalDesc : FTraversalDesc)
    (Output : FTraversalOutput) : Res FTraversalOutput :=
  match fuel with
  | O => Out_of_fuel
  | S fuel' =>
      let rd := render_at (QuadMeshRenderData InNodeData) (QuadMeshIndex this) in
      if negb (Frustum InTraversalDesc (FBox.GetCenter (Bounds this))
                       (FBox.GetExtent (Bounds this)))
      then Ret Output
      else
        let d2 := SquaredDistanceToTile this InTraversalDesc in
        if DistanceExceeds d2
             (GetLODDistance InLODLevel (LODScale InTraversalDesc))
        then
          RenderOrRefine fuel' this InNodeData rd 1 (wrap_int32 (InLODLevel + 1)) 2
                         InTraversalDesc Output
        else if (InLODLevel =? 0)%Z then
          if CanRender this 0 (ForceCollapseDensityLevel InTraversalDesc) rd
          then AddNodeForRender this InNodeData rd 0 InLODLevel
                                InTraversalDesc Output
          else Ret Output
        else if DistanceExceeds d2
                  (GetLODDistance (wrap_int32 (InLODLevel - 1))
                                  (LODScale InTraversalDesc))
                || (InLODLevel =? LowestLOD InTraversalDesc)%Z
        then
          RenderOrRefine fuel' this InNodeData rd 0 InLODLevel 1
                         InTraversalDesc Output
        else if HasCompleteSubtree this && IsSubtreeSameQuadMesh this then
          for_nodes
            (fun ChildNode out =>
               SelectLOD fuel' ChildNode InNodeData (wrap_int32 (InLODLevel - 1))
                         InTraversalDesc out)
            (VirtualChildren this) Output
        else
          for_children
            (fun ChildIndex out =>
               SelectLOD fuel' (node_at (Nodes InNodeData) ChildIndex) InNodeData
                         (wrap_int32 (InLODLevel - 1)) InTraversalDesc out)
            (Children this) Output
  end.

Fixpoint SelectLODWithinBounds (fuel : nat) (this : FNode)
    (InNodeData : FNodeData) (InLODLevel : Z)
    (InTraversalDesc : FTraversalDesc) (Output : FTraversalOutput)
  : Res FTraversalOutput :=
  match fuel with
  | O => Out_of_fuel
  | S fuel' =>
      let rd := render_at (QuadMeshRenderData InNodeData) (QuadMeshIndex this) in
      if negb (Frustum InTraversalDesc (FBox.GetCenter (Bounds this))
                       (FBox.GetExtent (Bounds this)))
      then Ret Output
      else if negb (TessellatedQuadMeshBoundsValid InTraversalDesc)
      then Check_failed
      else if (InLODLevel =? 0)%Z then
        if FBox2D.IsInsideOrOn (TessellatedQuadMeshBounds InTraversalDesc)
                               (FVector.to2D (FBox.Min (Bounds this)))
           && FBox2D.IsInsideOrOn (TessellatedQuadMeshBounds InTraversalDesc)
                                  (FVector.to2D (FBox.Max (Bounds this)))
           && CanRender this 0 (ForceCollapseDensityLevel InTraversalDesc) rd
        then AddNodeForRender this InNodeData rd 0 InLODLevel
                              InTraversalDesc Output
        else Ret Output
      else if HasCompleteSubtree this && IsSubtreeSameQuadMesh this then
        for_nodes
          (fun ChildNode out =>
             SelectLODWithinBounds fuel' ChildNode InNodeData
               (wrap_int32 (InLODLevel - 1)) InTraversalDesc out)
          (VirtualChildren this) Output
      else
        for_children
          (fun ChildIndex out =>
             SelectLODWithinBounds fuel' (node_at (Nodes InNodeData) ChildIndex)
               InNodeData (wrap_int32 (InLODLevel - 1)) InTraversalDesc out)
          (Children this) Output
  end.
End Traversal.

(** ** Specification-side notions *)

(** The smallest power of two that is at least [n] (for [n >= 1]):
    [Z.log2_up n] is the least exponent [k] with [n <= 2 ^ k]. *)
Definition NextPowerOfTwo (n : Z) : Z := (2 ^ Z.log2_up n)%Z.

(** Extents for which both [int32] products [X * 2] and [Y * 2] of
    [InitTree] are exact. *)
Definition ExtentInRange (e : Z * Z) : Prop :=
  (0 < fst e < 2 ^ 30)%Z /\ (0 < snd e < 2 ^ 30)%Z.

(** [FBox2D::GetArea]. *)
Definition GetArea (b : FBox2D.t) : Q :=
  (FVector2D.X (FBox2D.Max b) - FVector2D.X (FBox2D.Min b))
  * (FVector2D.Y (FBox2D.Max b) - FVector2D.Y (FBox2D.Min b)).

(** The preconditions [InitTree] states with [ensure]. *)
Definition ValidInit (InBounds : FBox2D.t) (InTileSize : Q) (e : Z * Z) : Prop :=
  (0 < GetArea InBounds)%Q /\ (0 < InTileSize)%Q /\ (0 < fst e)%Z /\ (0 < snd e)%Z.

(** Two points with equal coordinates. *)
Definition SameXY (a b : FVector2D.t) : Prop :=
  (FVector2D.X a == FVector2D.X b)%Q /\ (FVector2D.Y a == FVector2D.Y b)%Q.


(** The height query, stated as the descent it is meant to perform.
    A child is live when its slot is not 0; containment is half-open. *)
Definition LiveChildContaining (nodes : list FNode) (p : FVector2D.t)
    (c : nat) : bool :=
  (0 <? c)%nat && InsideOrOnMin p (Bounds (node_at nodes c)).

Definition FirstLiveChildContaining (nodes : list FNode) (this : FNode)
    (p : FVector2D.t) : option nat :=
  List.find (LiveChildContaining nodes p) (Children this).

Definition BaseHeightOf (nd : FNodeData) (this : FNode) : Q :=
  SurfaceBaseHeight (render_at (QuadMeshRenderData nd) (QuadMeshIndex this)).

Inductive QueryHeightSpec (nd : FNodeData) (p : FVector2D.t)
  : FNode -> bool * Q -> Prop :=
| QH_uniform this :
    HasCompleteSubtree this = true ->
    IsSubtreeSameQuadMesh this = true ->
    QueryHeightSpec nd p this (true, BaseHeightOf nd this)
| QH_descend this c r :
    HasCompleteSubtree this && IsSubtreeSameQuadMesh this = false ->
    FirstLiveChildContaining (Nodes nd) this p = Some c ->
    QueryHeightSpec nd p (node_at (Nodes nd) c) r ->
    QueryHeightSpec nd p this r
| QH_fallback this :
    HasCompleteSubtree this && IsSubtreeSameQuadMesh this = false ->
    FirstLiveChildContaining (Nodes nd) this p = None ->
    QueryHeightSpec nd p this (false, BaseHeightOf nd this).

(** Every chain of live child references from [this] ends in fewer than
    [fuel] steps. *)
Fixpoint DepthWithin (fuel : nat) (nodes : list FNode) (this : FNode) : bool :=
  match fuel with
  | O => false
  | S fuel' =>
      forallb (fun c => (c =? 0)%nat || DepthWithin fuel' nodes (node_at nodes c))
              (Children this)
  end.




(** ** Worked configurations *)

(** The tree a failed build leaves is of no interest; [built] reads the
    tree of a build that succeeded. *)
Definition built (r : Res FMeshQuadTree) : FMeshQuadTree :=
  match r with
  | Ret t => t
  | _ => EmptyTree
  end.

Definition Region (x0 y0 x1 y1 : Q) : FBox.t :=
  FBox.make (FVector.mk x0 y0 0) (FVector.mk x1 y1 10).

(** The configuration of the specification's scenario: bounds
    [0,256] x [0,256], tile size 32, extent (4, 4), one render-data
    record (index 1) with a material and base height 5. *)
Definition Bounds256 : FBox2D.t :=
  FBox2D.mk (FVector2D.mk 0 0) (FVector2D.mk 256 256).

Definition Tree256 : FMeshQuadTree := InitTree EmptyTree Bounds256 32 (4, 4)%Z.

Definition Material7 : FQuadMeshRenderData := mkRenderData (Some 7%nat) 5 0.

(** One region over the full bounds. *)
Definition Build256_full : list BuildOp :=
  [AddRenderData Material7; AddRegion (Region 0 0 256 256) 1%nat].
Definition Tree256_full : FMeshQuadTree := built (RunBuild Tree256 Build256_full).

(** One region in a corner of the bounds. *)
Definition Build256_corner : list BuildOp :=
  [AddRenderData Material7; AddRegion (Region 0 0 10 10) 1%nat].
Definition Tree256_corner : FMeshQuadTree := built (RunBuild Tree256 Build256_corner).


(** A depth-1 tree over [0,2] x [0,2] with two materials; the region
    covering it carries the second one. *)
Definition Bounds2 : FBox2D.t :=
  FBox2D.mk (FVector2D.mk 0 0) (FVector2D.mk 2 2).

Definition TwoMaterialTree : FMeshQuadTree :=
  let t0 := InitTree EmptyTree Bounds2 1 (1, 1)%Z in
  let t1 :=
    built (RunBuild t0 [ AddRenderData (mkRenderData (Some 10%nat) 1 0);
                         AddRenderData (mkRenderData (Some 20%nat) 2 0);
                         AddRegion (Region 0 0 2 2) 2%nat ]) in
  Unlock (BuildMaterialIndices t1) true.

(** A distance formula to run the traversal with: [2^(L+1) * LODScale]. *)
Definition PowLODDistance (L : Z) (LODScale : Q) : Q :=
  (inject_Z (2 ^ (L + 1)) * LODScale)%Q.

Definition AlwaysVisible (Center Extent : FVector.t) : bool := true.

(** A viewer far from the tile, two density buckets per material. *)
Definition FarDesc : FTraversalDesc :=
  {| LowestLOD := 0;
     LODCount := 2;
     DensityCount := 2;
     ForceCollapseDensityLevel := -1;
     HeightMorph := 0;
     LODScale := 1;
     PreViewTranslation := FVector.mk 0 0 0;
     ObserverPosition := FVector.mk 1000 1000 0;
     Frustum := AlwaysVisible;
     bLODMorphingEnabled := false;
     TessellatedQuadMeshBounds := Bounds2;
     TessellatedQuadMeshBoundsValid := true |}.

(** A viewer standing on the tile. *)
Definition NearDesc : FTraversalDesc :=
  {| LowestLOD := 0;
     LODCount := 2;
     DensityCount := 2;
     ForceCollapseDensityLevel := -1;
     HeightMorph := 0;
     LODScale := 1;
     PreViewTranslation := FVector.mk 0 0 0;
     ObserverPosition := FVector.mk 1 1 0;
     Frustum := AlwaysVisible;
     bLODMorphingEnabled := false;
     TessellatedQuadMeshBounds := Bounds2;
     TessellatedQuadMeshBoundsValid := true |}.

(** Two materials times two densities: four empty buckets. *)
Definition EmptyOutput4 : FTraversalOutput :=
  {| BucketInstanceCounts := [0; 0; 0; 0]%Z;
     StagingInstanceData := [];
     InstanceCount := 0 |}.

(** ** Notions for the build and lock proofs *)

(** The condition under which a subtree is collapsed, and under which the
    height query stops. *)
Definition CompleteAndUniform (n : FNode) : bool :=
  HasCompleteSubtree n && IsSubtreeSameQuadMesh n.

(** Number of nodes of the full quadtree with [lod] levels below its
    root: [1 + 4 + ... + 4 ^ lod]. *)
Fixpoint FullCount (lod : nat) : nat :=
  match lod with
  | O => 1
  | S lower => 1 + 4 * FullCount lower
  end.

Definition NonEmptyXY (b : FBox.t) : Prop :=
  (FVector.X (FBox.Min b) <= FVector.X (FBox.Max b))%Q
  /\ (FVector.Y (FBox.Min b) <= FVector.Y (FBox.Max b))%Q.

(** [outer] contains [b] in X and Y. *)
Definition CoversXY (outer b : FBox.t) : Prop :=
  (FVector.X (FBox.Min outer) <= FVector.X (FBox.Min b))%Q
  /\ (FVector.X (FBox.Max b) <= FVector.X (FBox.Max outer))%Q
  /\ (FVector.Y (FBox.Min outer) <= FVector.Y (FBox.Min b))%Q
  /\ (FVector.Y (FBox.Max b) <= FVector.Y (FBox.Max outer))%Q.

(** The mesh bounds [AddQuadMeshTilesInsideBounds] passes down. *)
Definition MeshBoundsOf (this : FMeshQuadTree) : FBox.t :=
  FBox.make (FVector.of2D (FBox2D.Min (TileRegion this)) 0)
            (FVector.of2D (FBox2D.Max (TileRegion this)) 0).

Definition HasMaterialAt (rd : list FQuadMeshRenderData) (i : nat) : bool :=
  match Material (render_at rd i) with
  | Some _ => true
  | None => false
  end.




(** The tree after a run of render-data submissions. *)
Definition AddRenderDatas (this : FMeshQuadTree) (rs : list FQuadMeshRenderData)
  : FMeshQuadTree :=
  fold_left (fun t r => fst (AddQuadMeshRenderData t r)) rs this.

(** The root box [InitTree] sets up, in X and Y. *)
Definition RootBoxOf (InBounds : FBox2D.t) (InTileSize : Q) (e : Z * Z) : FBox.t :=
  Bounds (node_at (Nodes (NodeData (InitTree EmptyTree InBounds InTileSize e))) 0).

(** ** The arena as a quadtree

    Each arena node is named by its path from the root: the list of slot
    numbers followed to reach it.  [paths] lists the path of every node,
    by arena index. *)
Definition ValidPath (d : nat) (q : list nat) : Prop :=
  (length q <= d)%nat /\ Forall (fun i => (i < 4)%nat) q.

Record TreeInv (d : nat) (nodes : list FNode) (paths : list (list nat))
  : Prop := mkTreeInv {
  inv_len : length paths = length nodes;
  inv_root : paths !! 0%nat = Some [];
  inv_root_parent : ParentIndex (node_at nodes 0) = None;
  inv_nodup : NoDup paths;
  inv_valid : forall k q, paths !! k = Some q -> ValidPath d q;
  inv_children_len :
    forall k, (k < length nodes)%nat -> length (Children (node_at nodes k)) = 4%nat;
  inv_child :
    forall k q i,
      paths !! k = Some q -> (0 < child (node_at nodes k) i)%nat ->
      paths !! (child (node_at nodes k) i) = Some (q ++ [i]);
  inv_parent :
    forall c qc,
      (0 < c)%nat -> paths !! c = Some qc ->
      exists k q i,
        qc = q ++ [i] /\ paths !! k = Some q
        /\ child (node_at nodes k) i = c
        /\ ParentIndex (node_at nodes c) = Some k /\ (k < c)%nat
}.

(** Two arenas with the same links. *)
Definition SameShape (nodes nodes' : list FNode) : Prop :=
  length nodes' = length nodes
  /\ forall k, Children (node_at nodes' k) = Children (node_at nodes k)
               /\ ParentIndex (node_at nodes' k) = ParentIndex (node_at nodes k).

(** All paths of a given length, and of at most a given length. *)
Fixpoint PathsOfLength (n : nat) : list (list nat) :=
  match n with
  | O => [[]]
  | S m => flat_map (fun q => map (fun i => i :: q) four_slots) (PathsOfLength m)
  end.

Fixpoint PathsUpTo (d : nat) : list (list nat) :=
  match d with
  | O => PathsOfLength 0
  | S m => PathsUpTo m ++ PathsOfLength (S m)
  end.

(** The arena after [AddNodes] created the child of slot [i] of [self]
    with box [cb], before it recurses into it. *)
Definition WithNewChild (self i : nat) (cb : FBox.t) (nodes : list FNode)
  : list FNode :=
  alter (setParentIndex (Some self)) (length nodes)
    (alter (setBounds cb) (length nodes)
       (alter (setChild i (length nodes)) self (nodes ++ [DefaultNode]))).

(** [q] is a proper ancestor of [ps]. *)
Definition StrictPrefix (q ps : list nat) : Prop := q `prefix_of` ps /\ q <> ps.

(** The flags of node [k] agree with its children: a node marked
    complete and uniform has only such children. *)
Definition FlagsOKAt (nodes : list FNode) (k : nat) : Prop :=
  CompleteAndUniform (node_at nodes k) = true ->
  forall i, (0 < child (node_at nodes k) i)%nat ->
            CompleteAndUniform (node_at nodes (child (node_at nodes k) i)) = true.

(** What [AddNodes] at node [self], of path [ps], guarantees on return:
    the links still form a tree, only the subtree of [self] was touched,
    flags agree everywhere but at the proper ancestors of [self] (whose
    loops are still running), and, when the inserted identity has a
    material, every node but the root has one. *)
Record BuildPost (d : nat) (M : bool) (ps : list nat)
    (nodes : list FNode) (paths : list (list nat))
    (nodes' : list FNode) (paths' : list (list nat)) : Prop := mkBuildPost {
  bp_inv : TreeInv d nodes' paths';
  bp_new : exists new, paths' = paths ++ new /\ Forall (fun q => ps `prefix_of` q) new;
  bp_frame :
    forall k q, paths !! k = Some q -> ~ ps `prefix_of` q ->
                node_at nodes' k = node_at nodes k;
  bp_flags :
    forall k q, paths' !! k = Some q -> ~ StrictPrefix q ps -> FlagsOKAt nodes' k;
  bp_mat :
    M = true ->
    forall k, (0 < k < length nodes')%nat -> HasMaterial (node_at nodes' k) = true
}.

(** The precondition of [AddNodes] at [self]. *)
Record BuildPre (d : nat) (M : bool) (lod self : nat) (ps : list nat)
    (nodes : list FNode) (paths : list (list nat)) : Prop := mkBuildPre {
  pre_inv : TreeInv d nodes paths;
  pre_self : paths !! self = Some ps;
  pre_level : (length ps + lod = d)%nat;
  pre_flags :
    forall k q, paths !! k = Some q -> ~ q `prefix_of` ps -> FlagsOKAt nodes k;
  pre_mat :
    M = true ->
    forall k, (0 < k < length nodes)%nat -> k <> self ->
              HasMaterial (node_at nodes k) = true
}.

(** The loop of [AddNodes] at [self] before slot [i]; [nodes1] is the
    arena after the receiver was visited. *)
Record BuildLoop (d : nat) (M : bool) (self : nat) (ps : list nat)
    (nodes1 : list FNode) (paths : list (list nat)) (i : nat)
    (cur : list FNode) (pcur : list (list nat)) : Prop := mkBuildLoop {
  bl_inv : TreeInv d cur pcur;
  bl_new : exists new, pcur = paths ++ new /\ Forall (fun q => ps `prefix_of` q) new;
  bl_frame :
    forall k q, paths !! k = Some q -> ~ ps `prefix_of` q ->
                node_at cur k = node_at nodes1 k;
  bl_flags :
    forall k q, pcur !! k = Some q -> ~ q `prefix_of` ps -> FlagsOKAt cur k;
  bl_mat :
    M = true ->
    forall k, (0 < k < length cur)%nat -> HasMaterial (node_at cur k) = true;
  bl_self :
    CompleteAndUniform (node_at cur self) = true ->
    forall j, (j < i)%nat -> (0 < child (node_at cur self) j)%nat ->
              CompleteAndUniform (node_at cur (child (node_at cur self) j)) = true
}.

(** The first half of a slot: what holds after the descent into slot
    [i], relative to the arena [cur] before it. *)
Record DescendPost (d : nat) (M : bool) (self : nat) (ps : list nat) (i : nat)
    (cur : list FNode) (pcur : list (list nat))
    (cur2 : list FNode) (p2 : list (list nat)) : Prop := mkDescendPost {
  dp_inv : TreeInv d cur2 p2;
  dp_new : exists new, p2 = pcur ++ new /\ Forall (fun q => ps `prefix_of` q) new;
  dp_frame :
    forall k q, pcur !! k = Some q -> ~ ps ++ [i] `prefix_of` q -> k <> self ->
                node_at cur2 k = node_at cur k;
  dp_self_flags :
    CompleteAndUniform (node_at cur2 self) = CompleteAndUniform (node_at cur self);
  dp_self_children :
    forall j, j <> i ->
              child (node_at cur2 self) j = child (node_at cur self) j;
  dp_flags :
    forall k q, p2 !! k = Some q -> ~ q `prefix_of` ps -> FlagsOKAt cur2 k;
  dp_mat :
    M = true ->
    forall k, (0 < k < length cur2)%nat -> HasMaterial (node_at cur2 k) = true
}.

(** A tree in its build phase: its arena is a quadtree of depth at most
    [TreeDepth], sized for the full tree, with flags that agree; [W]
    says whether every node but the root is known to have a material. *)
Definition Built (W : bool) (d : nat) (t : FMeshQuadTree) : Prop :=
  TreeDepth t = Z.of_nat d
  /\ (Z.of_nat (FullCount d) <= NodesMax (NodeData t))%Z
  /\ bIsReadOnly t = false
  /\ exists paths,
       TreeInv d (Nodes (NodeData t)) paths
       /\ (forall k q, paths !! k = Some q -> FlagsOKAt (Nodes (NodeData t)) k)
       /\ (W = true ->
           forall k, (0 < k < length (Nodes (NodeData t)))%nat ->
                     HasMaterial (node_at (Nodes (NodeData t)) k) = true).

(** Every region of the build is inserted with a render-data index whose
    record, at that moment, has a material. *)
Fixpoint RegionsHaveMaterial (rd : list FQuadMeshRenderData)
    (ops : list BuildOp) : Prop :=
  match ops with
  | [] => True
  | AddRenderData r :: rest => RegionsHaveMaterial (rd ++ [r]) rest
  | AddRegion _ i :: rest =>
      HasMaterialAt rd i = true /\ RegionsHaveMaterial rd rest
  end.

(** ** Notions for the lock proof *)

(** [cur'] shows the height query the same tree as [cur], up to the
    renaming [sigma] of arena indices, on the nodes [V] the query can
    reach: same identity, flags and box, and, below a node at which the
    query does not stop, the same children. *)
Definition Simulates (sigma : nat -> nat) (V : nat -> Prop)
    (cur cur' : list FNode) : Prop :=
  forall k, V k ->
    QuadMeshIndex (node_at cur' (sigma k)) = QuadMeshIndex (node_at cur k)
    /\ HasCompleteSubtree (node_at cur' (sigma k)) = HasCompleteSubtree (node_at cur k)
    /\ IsSubtreeSameQuadMesh (node_at cur' (sigma k))
       = IsSubtreeSameQuadMesh (node_at cur k)
    /\ Bounds (node_at cur' (sigma k)) = Bounds (node_at cur k)
    /\ (CompleteAndUniform (node_at cur k) = false ->
        Children (node_at cur' (sigma k)) = map sigma (Children (node_at cur k))
        /\ forall c, In c (Children (node_at cur k)) -> (0 < c)%nat -> V c).

(** The two arenas answer every height query from the root alike. *)
Definition SameHeights (rd : list FQuadMeshRenderData)
    (cur cur' : list FNode) : Prop :=
  forall fuel p cap cap',
    QueryBaseHeightAtLocation fuel (mkNodeData cur' cap' rd) (node_at cur' 0) p
    = QueryBaseHeightAtLocation fuel (mkNodeData cur cap rd) (node_at cur 0) p.

(** Two node records that differ in their links at most. *)
Definition SameData (n n' : FNode) : Prop :=
  Bounds n = Bounds n'
  /\ QuadMeshIndex n = QuadMeshIndex n'
  /\ TransitionQuadMeshIndex n = TransitionQuadMeshIndex n'
  /\ HasCompleteSubtree n = HasCompleteSubtree n'
  /\ IsSubtreeSameQuadMesh n = IsSubtreeSameQuadMesh n'
  /\ HasMaterial n = HasMaterial n'.

(** [k] is a live child of [Mn] in one of the slots below [i]. *)
Definition LiveChildOf (Mn : FNode) (i k : nat) : Prop :=
  exists i', (i' < i)%nat /\ (0 < child Mn i')%nat /\ child Mn i' = k.

(** The patch loop of [SwapRemove] before slot [i]: [S] is the arena
    after the swap, [Mn] the node moved to [j], [pm] its parent. *)
Record PatchInv (j e pm : nat) (Mn : FNode) (S : list FNode) (i : nat)
    (N : list FNode) : Prop := mkPatchInv {
  pf_len : length N = length S;
  pf_moved : node_at N j = Mn;
  pf_data : forall k, SameData (node_at N k) (node_at S k);
  pf_parent_new :
    forall k, LiveChildOf Mn i k -> ParentIndex (node_at N k) = Some j;
  pf_parent_old :
    forall k, ~ LiveChildOf Mn i k ->
              ParentIndex (node_at N k) = ParentIndex (node_at S k);
  pf_children :
    forall k, k <> pm -> Children (node_at N k) = Children (node_at S k);
  pf_pm_len : length (Children (node_at N pm)) = 4%nat;
  pf_pm :
    forall i', child (node_at N pm) i'
               = if (i' <? i)%nat && (child (node_at S pm) i' =? e)%nat
                 then j else child (node_at S pm) i'
}.

(** The index renaming of one [SwapRemove]: the end node moves to the
    freed index, every other index stays. *)
Definition MoveIndex (j e : nat) (k : nat) : nat :=
  if (k =? e)%nat then j else k.

(** What [SwapRemove j e] makes of the arena [cur] when the end node has
    parent [pm]: the end node sits at [j], its live children point back
    at [j], and its parent's slot names [j]. *)
Record SwapRemovePost (j e pm : nat) (cur R : list FNode) : Prop := mkSwapRemovePost {
  sr_len : length R = length cur;
  sr_moved : node_at R j = node_at cur e;
  sr_data : forall k, k <> j -> k <> e -> SameData (node_at R k) (node_at cur k);
  sr_parent_new :
    forall k, k <> j -> k <> e -> LiveChildOf (node_at cur e) 4 k ->
              ParentIndex (node_at R k) = Some j;
  sr_parent_old :
    forall k, k <> j -> k <> e -> ~ LiveChildOf (node_at cur e) 4 k ->
              ParentIndex (node_at R k) = ParentIndex (node_at cur k);
  sr_children :
    forall k, k <> j -> k <> e -> k <> pm ->
              Children (node_at R k) = Children (node_at cur k);
  sr_pm :
    Children (node_at R pm) = map (MoveIndex j e) (Children (node_at cur pm))
}.

(** The state of the removal loop of [Unlock]: the loop is about to visit
    index [j] and the live part of the arena [cur] ends at [e].  Every
    live node but the root has a live parent; below [j] parents come
    first; a complete and uniform parent has only such children; a
    parent that is not complete and uniform names its children in its
    slots, and the nodes the loop has kept have such a parent; a
    non-zero slot names a live node whose parent is the slot's owner;
    and every node but the root has a material. *)
Record UInv (cur : list FNode) (j e : nat) : Prop := mkUInv {
  u_bound : (j <= e < length cur)%nat;
  u_len : forall k, (k <= e)%nat -> length (Children (node_at cur k)) = 4%nat;
  u_par :
    forall k, (1 <= k <= e)%nat ->
      exists p,
        ParentIndex (node_at cur k) = Some p
        /\ (p <= e)%nat /\ p <> k
        /\ ((k <= j)%nat -> (p < k)%nat)
        /\ (CompleteAndUniform (node_at cur p) = true ->
            CompleteAndUniform (node_at cur k) = true)
        /\ (CompleteAndUniform (node_at cur p) = false ->
            exists i, child (node_at cur p) i = k)
        /\ ((j < k)%nat -> CompleteAndUniform (node_at cur p) = false);
  u_child :
    forall q i, (q <= e)%nat -> (0 < child (node_at cur q) i)%nat ->
      (child (node_at cur q) i <= e)%nat
      /\ ParentIndex (node_at cur (child (node_at cur q) i)) = Some q;
  u_mat : forall k, (1 <= k <= e)%nat -> HasMaterial (node_at cur k) = true
}.

(** ** Notions for the material table *)

(** The captured state of [GetMatIdx]: [NextIdx] counts the entries of
    [MatToIdxMap], whose values are the indices below [NextIdx], each
    taken by exactly one render proxy. *)
Record MatInv (st : Z * gmap nat Z) : Prop := mkMatInv {
  mi_size : Z.of_nat (size (snd st)) = fst st;
  mi_range : forall k v, snd st !! k = Some v -> (0 <= v < fst st)%Z;
  mi_inj : forall k k' v, snd st !! k = Some v -> snd st !! k' = Some v -> k = k';
  mi_surj : forall v, (0 <= v < fst st)%Z -> exists k, snd st !! k = Some v
}.

(** The index [GetMatIdx] answers for a material once the map is [m]. *)
Definition IndexIn (m : gmap nat Z) (Mat : option nat) : Z :=
  match Mat with
  | None => INDEX_NONE
  | Some proxy => default INDEX_NONE (m !! proxy)
  end.

(** The loop that fills [QuadMeshMaterials] from the map. *)
Definition MaterialTable (m : gmap nat Z) : list nat :=
  fold_left (fun acc kv => <[Z.to_nat (snd kv) := fst kv]> acc)
            (map_to_list m) (replicate (size m) 0%nat).

(** Three render-data records after the default one, the first and the
    third with the same material. *)
Definition RepeatedMaterialTree : FMeshQuadTree :=
  built (RunBuild (InitTree EmptyTree Bounds2 1 (1, 1)%Z)
           [ AddRenderData (mkRenderData (Some 10%nat) 1 0);
             AddRenderData (mkRenderData (Some 20%nat) 2 0);
             AddRenderData (mkRenderData (Some 10%nat) 3 0) ]).

(** ** Notions for the traversal output *)

(** Number of staged instances of bucket [b]. *)
Definition CountBucket (b : nat) (l : list FStagingInstanceData) : Z :=
  Z.of_nat (length (List.filter (fun s => (BucketIndex s =? Z.of_nat b)%Z) l)).

(** [out'] is [out] with the instances [news] staged after the ones it
    had, and every counter advanced by what was staged. *)
Record Staged (news : list FStagingInstanceData)
    (out out' : FTraversalOutput) : Prop := mkStaged {
  st_data : StagingInstanceData out' = StagingInstanceData out ++ news;
  st_count : InstanceCount out' = (InstanceCount out + Z.of_nat (length news))%Z;
  st_len : length (BucketInstanceCounts out') = length (BucketInstanceCounts out);
  st_bucket :
    forall b, nth b (BucketInstanceCounts out') 0%Z
              = (nth b (BucketInstanceCounts out) 0 + CountBucket b news)%Z
}.

Definition Emits (P : FStagingInstanceData -> Prop)
    (out out' : FTraversalOutput) : Prop :=
  exists news, Staged news out out' /\ Forall P news.

(** The instance [s] is the tile of node [n]: its translated centre,
    its base height and its size. *)
Definition InstanceOf (desc : FTraversalDesc) (rd : list FQuadMeshRenderData)
    (n : FNode) (s : FStagingInstanceData) : Prop :=
  let c := FVector.add (FBox.GetCenter (Bounds n)) (PreViewTranslation desc) in
  Data0_X s = FVector.X c
  /\ Data0_Y s = FVector.Y c
  /\ Data0_Z s = (SurfaceBaseHeight (render_at rd (QuadMeshIndex n))
                  + FVector.Z (PreViewTranslation desc))%Q
  /\ Data1_Z s = FVector.X (FBox.GetSize (Bounds n))
  /\ Data1_W s = FVector.Y (FBox.GetSize (Bounds n)).

(** The child slots of [n] that are in use point inside the arena. *)
Definition ChildrenWithin (nodes : list FNode) (n : FNode) : bool :=
  forallb (fun c => (c =? 0)%nat || (c <? length nodes)%nat) (Children n).

(** The reads a traversal makes for [n] are in range: its render-data
    index is inside the table and its live child slots inside the
    arena. *)
Definition IndexedWithin (nd : FNodeData) (n : FNode) : bool :=
  (QuadMeshIndex n <? length (QuadMeshRenderData nd))%nat
  && ChildrenWithin (Nodes nd) n.

Definition WellIndexed (nd : FNodeData) : bool :=
  forallb (IndexedWithin nd) (Nodes nd).

(** The nodes a traversal that starts at [this] can come to: [this], the
    arena node in a live child slot of such a node, and each of the four
    quadrants synthesized for such a node when its subtree is complete
    and uniform. *)
Inductive TraversalNode (nodes : list FNode) (this : FNode) : FNode -> Prop :=
| tn_self : TraversalNode nodes this this
| tn_child (m : FNode) (c : nat) :
    TraversalNode nodes this m ->
    In c (Children m) -> (0 < c < length nodes)%nat ->
    TraversalNode nodes this (node_at nodes c)
| tn_virtual (m : FNode) (i : nat) :
    TraversalNode nodes this m ->
    HasCompleteSubtree m = true -> IsSubtreeSameQuadMesh m = true ->
    (i < 4)%nat ->
    TraversalNode nodes this (VirtualChild m i).

(** The instance is the tile of a node among [N] that the frustum
    accepts, whose render data has a material and whose subtree is
    uniform; it sits in one of the density buckets of material 0. *)
Definition VisibleTile (desc : FTraversalDesc) (rd : list FQuadMeshRenderData)
    (N : FNode -> Prop) (s : FStagingInstanceData) : Prop :=
  (exists n,
     N n
     /\ Frustum desc (FBox.GetCenter (Bounds n)) (FBox.GetExtent (Bounds n)) = true
     /\ Material (render_at rd (QuadMeshIndex n)) <> None
     /\ IsSubtreeSameQuadMesh n = true
     /\ InstanceOf desc rd n s)
  /\ (0 <= BucketIndex s < DensityCount desc)%Z.

(** The instance is the tile of such a node at LOD level 0 whose box has
    both corners inside the tessellated bounds. *)
Definition TileWithinBounds (desc : FTraversalDesc)
    (rd : list FQuadMeshRenderData) (N : FNode -> Prop)
    (s : FStagingInstanceData) : Prop :=
  (exists n,
     N n
     /\ Frustum desc (FBox.GetCenter (Bounds n)) (FBox.GetExtent (Bounds n)) = true
     /\ Material (render_at rd (QuadMeshIndex n)) <> None
     /\ IsSubtreeSameQuadMesh n = true
     /\ FBox2D.IsInsideOrOn (TessellatedQuadMeshBounds desc)
                            (FVector.to2D (FBox.Min (Bounds n))) = true
     /\ FBox2D.IsInsideOrOn (TessellatedQuadMeshBounds desc)
                            (FVector.to2D (FBox.Max (Bounds n))) = true
     /\ InstanceOf desc rd n s)
  /\ BucketIndex s = 0%Z
  /\ Z.land (Data1_X_bits s) 255 = 0%Z.

(** ** Notions for the bounds query *)

(** All four child slots of [n] are empty. *)
Definition HasNoChild (n : FNode) : bool :=
  forallb (fun c => (c =? 0)%nat) (Children n).

(** The nodes the descent of a query for [p] goes through from [this]:
    at each node it moves to the arena node in the first live child slot
    whose half-open box holds [p]. *)
Inductive DescentTo (nodes : list FNode) (p : FVector2D.t) (this : FNode)
  : FNode -> Prop :=
| dt_here : DescentTo nodes p this this
| dt_down (m : FNode) (c : nat) :
    DescentTo nodes p this m ->
    FirstLiveChildContaining nodes m p = Some c ->
    (c < length nodes)%nat ->
    DescentTo nodes p this (node_at nodes c).

(** ** Notions for what an insertion keeps *)

(** [b'] has the footprint of [b] in X and Y and a Z range that holds
    the Z range of [b]. *)
Definition Widens (b b' : FBox.t) : Prop :=
  FVector.X (FBox.Min b') = FVector.X (FBox.Min b)
  /\ FVector.Y (FBox.Min b') = FVector.Y (FBox.Min b)
  /\ FVector.X (FBox.Max b') = FVector.X (FBox.Max b)
  /\ FVector.Y (FBox.Max b') = FVector.Y (FBox.Max b)
  /\ (FVector.Z (FBox.Min b') <= FVector.Z (FBox.Min b))%Q
  /\ (FVector.Z (FBox.Max b) <= FVector.Z (FBox.Max b'))%Q.

(** The arena [nodes'] holds every node of [nodes] at the index it had,
    with the parent it had, the footprint it had and every child it
    had. *)
Definition Grows (nodes nodes' : list FNode) : Prop :=
  (length nodes <= length nodes')%nat
  /\ forall k, (k < length nodes)%nat ->
       ParentIndex (node_at nodes' k) = ParentIndex (node_at nodes k)
       /\ Widens (Bounds (node_at nodes k)) (Bounds (node_at nodes' k))
       /\ forall i, (0 < child (node_at nodes k) i)%nat ->
                    child (node_at nodes' k) i = child (node_at nodes k) i.

(** What a node is, apart from its flags and its children. *)
Definition SameIdentity (n n' : FNode) : Prop :=
  Bounds n' = Bounds n
  /\ QuadMeshIndex n' = QuadMeshIndex n
  /\ TransitionQuadMeshIndex n' = TransitionQuadMeshIndex n
  /\ HasMaterial n' = HasMaterial n
  /\ ParentIndex n' = ParentIndex n.

(** ** [FMeshQuadTree::AddQuadMesh] *)

(** The ocean box is shrunk by a quarter of a leaf on each side in X
    and Y and keeps its Z range; [InPoly] is not read. *)
Definition AddQuadMesh (this : FMeshQuadTree) (InPoly : list FVector2D.t)
    (InOceanBounds : FBox.t) (InQuadMeshIndex : nat) : Res FMeshQuadTree :=
  if bIsReadOnly this then Check_failed
  else
    let OceanBounds :=
      FBox2D.mk (FVector.to2D (FBox.Min InOceanBounds))
                (FVector.to2D (FBox.Max InOceanBounds)) in
    let ZBound :=
      FVector2D.mk (FVector.Z (FBox.Min InOceanBounds))
                   (FVector.Z (FBox.Max InOceanBounds)) in
    let LeafSizeShrink :=
      FVector2D.mk (LeafSize this * (1 # 4)) (LeafSize this * (1 # 4)) in
    let TileBounds :=
      FBox.make
        (FVector.of2D (FVector2D.add (FBox2D.Min OceanBounds) LeafSizeShrink)
                      (FVector2D.X ZBound))
        (FVector.of2D (FVector2D.sub (FBox2D.Max OceanBounds) LeafSizeShrink)
                      (FVector2D.Y ZBound)) in
    AddQuadMeshTilesInsideBounds this TileBounds InQuadMeshIndex.

(** ** The component: [QuadtreeMeshComponent.cpp] *)

(** [UQuadtreeMeshComponent::CalcBounds] on the box
    [MeshQuadTree.GetBounds()] returns; [GetBounds] is declared in the
    missing header and its result is the argument here.  The transform
    is not read. *)
Definition CalcBounds (NewBounds : FBox.t) : FBox.t :=
  if Qle_bool (FVector.Z (FBox.Max NewBounds)) (FVector.Z (FBox.Min NewBounds))
  then FBox.setMaxZ (FBox.setMinZ NewBounds 0) 100
  else NewBounds.

(** [MeshWorldBox] of [RebuildQuadtreeMesh]: the box of half size
    [InTileSize * InExtentInTiles] around the grid position. *)
Definition MeshWorldBox (GridPosition : FVector2D.t) (InTileSize : Q)
    (InExtentInTiles : Z * Z) : FBox2D.t :=
  let WorldExtent :=
    FVector2D.mk (InTileSize * inject_Z (fst InExtentInTiles))
                 (InTileSize * inject_Z (snd InExtentInTiles)) in
  FBox2D.mk
    (FVector2D.add (FVector2D.mk (- FVector2D.X WorldExtent) (- FVector2D.Y WorldExtent))
                   GridPosition)
    (FVector2D.add WorldExtent GridPosition).

(** [UQuadtreeMeshComponent::RebuildQuadtreeMesh].  What the engine
    supplies is an argument: the component location snapped to the grid,
    the answer of [ShouldRender()], the first override material, the
    height of the surface and the bounding box of the owner.  The tree
    operations are spelled [AddQuadtreeMeshRenderData] and
    [AddQuadtreeMeshTilesInsideBounds] in this file; they are taken to
    be [AddQuadMeshRenderData] and [AddQuadMeshTilesInsideBounds]. *)
Definition RebuildQuadtreeMesh (MeshQuadTree : FMeshQuadTree)
    (GridPosition : FVector2D.t) (InTileSize : Q) (InExtentInTiles : Z * Z)
    (ShouldRender : bool) (Material0 : option nat) (QuadtreeMeshHeight : Q)
    (OceanBounds : FBox.t) : Res FMeshQuadTree :=
  let t :=
    InitTree MeshQuadTree (MeshWorldBox GridPosition InTileSize InExtentInTiles)
             InTileSize InExtentInTiles in
  if negb ShouldRender then Ret t
  else
    let RenderData := mkRenderData Material0 QuadtreeMeshHeight 0 in
    let added := AddQuadMeshRenderData t RenderData in
    t' ← AddQuadMeshTilesInsideBounds (fst added) OceanBounds (snd added);
    Ret (Unlock t' true).

(** Every node of the arena carries the render-data index [idx]. *)
Definition AllStamped (idx : nat) (nodes : list FNode) : Prop :=
  forall k, (k < length nodes)%nat -> QuadMeshIndex (node_at nodes k) = idx.

(** ** The reserve and the render-data table *)

(** The reserve for each of the 32 values [RootDim] can take, paired with
    the depth. *)
Definition ReserveTable : list (Z * Z) :=
  map (fun d => (d, InitCapacity (2 ^ d))) (map Z.of_nat (seq 0 32)).

(** Extents for which [InitTree] runs to its end as written: both
    components are positive and at most 16384, so the [int32] products
    are exact, [RootDim] is at most 32768 and the reserve is a value of
    [int32]. *)
Definition ExtentWithinReserve (e : Z * Z) : Prop :=
  (0 < fst e <= 2 ^ 14)%Z /\ (0 < snd e <= 2 ^ 14)%Z.

(** Every region of the build is inserted with a render-data index that
    is, at that moment, inside the table: the read
    [QuadMeshRenderData[QuadMeshIndex]] of [AddNodes] is in range. *)
Fixpoint RegionsInTable (rd : list FQuadMeshRenderData)
    (ops : list BuildOp) : Prop :=
  match ops with
  | [] => True
  | AddRenderData r :: rest => RegionsInTable (rd ++ [r]) rest
  | AddRegion _ i :: rest => (i < length rd)%nat /\ RegionsInTable rd rest
  end.

(** ** The implicit subtree of a complete and uniform node *)




(** * Properties *)

Lemma Qlt_bool_iff (a b : Q) : Qlt_bool a b = true <-> (a < b)%Q.
Proof.
  unfold Qlt_bool. rewrite negb_true_iff.
  split.
  - intros H. apply Qnot_le_lt. intros Hle.
    apply Qle_bool_iff in Hle. congruence.
  - intros H. destruct (Qle_bool b a) eqn:E; [|reflexivity].
    apply Qle_bool_iff in E. lra.
Qed.


Lemma Qle_bool_false_iff (a b : Q) : Qle_bool a b = false <-> (b < a)%Q.
Proof.
  split.
  - intros H. apply Qnot_le_lt. intros Hle.
    apply Qle_bool_iff in Hle. congruence.
  - intros H. destruct (Qle_bool a b) eqn:E; [|reflexivity].
    apply Qle_bool_iff in E. lra.
Qed.

(** ** The render gate *)

(** C3. A node can render as one instance exactly when the render data
    handed to it has a material, the node's subtree is identity-uniform,
    and the density level exceeds the force-collapse threshold or the
    subtree is complete. *)
Theorem CanRender_iff (this : FNode) (InDensityLevel InForceCollapseDensityLevel : Z)
    (rd : FQuadMeshRenderData) :
  CanRender this InDensityLevel InForceCollapseDensityLevel rd = true <->
  Material rd <> None
  /\ IsSubtreeSameQuadMesh this = true
  /\ ((InDensityLevel > InForceCollapseDensityLevel)%Z
      \/ HasCompleteSubtree this = true).
Proof.
  unfold CanRender.
  rewrite !andb_true_iff, orb_true_iff, Z.ltb_lt.
  destruct (Material rd) as [m|]; split.
  - intros [[_ Hs] Hd]. repeat split; [discriminate | exact Hs |].
    destruct Hd as [Hd | Hd]; [left; lia | right; exact Hd].
  - intros (_ & Hs & Hd). repeat split; [exact Hs |].
    destruct Hd as [Hd | Hd]; [left; lia | right; exact Hd].
  - intros [[Hm _] _]. discriminate Hm.
  - intros (Hm & _). contradiction Hm. reflexivity.
Qed.

(** Every traversal hands [CanRender] the record the node itself points
    at, so "the render data" of the gate is the node's assigned one. *)
Lemma SelectLODRefinement_gate fuel this nd dl ll desc out :
  Frustum desc (FBox.GetCenter (Bounds this)) (FBox.GetExtent (Bounds this)) = true ->
  CanRender this dl (ForceCollapseDensityLevel desc)
            (render_at (QuadMeshRenderData nd) (QuadMeshIndex this)) = true ->
  SelectLODRefinement (S fuel) this nd dl ll desc out =
  AddNodeForRender this nd (render_at (QuadMeshRenderData nd) (QuadMeshIndex this))
                   dl ll desc out.
Proof.
  intros Hf Hc. simpl. rewrite Hf, Hc. reflexivity.
Qed.

(** ** Queries on an empty arena *)

(** C10. With no node in the arena, the height query answers "not found"
    with height 0 and the bounds query answers "not found" with the
    force-initialised box; neither asserts nor reads a node. *)
Theorem Query_empty_arena (this : FMeshQuadTree) (p : FVector2D.t) :
  GetNodeCount this = 0%nat ->
  QueryTileBaseHeightAtLocation this p = Ret (false, 0%Q)
  /\ QueryTileBoundsAtLocation this p = Ret (false, FBox.ForceInit)
  /\ FBox.IsValid FBox.ForceInit = false.
Proof.
  intros H.
  unfold QueryTileBaseHeightAtLocation, QueryTileBoundsAtLocation.
  rewrite H. simpl. repeat split.
Qed.

Lemma Query_empty_arena_witness :
  GetNodeCount EmptyTree = 0%nat
  /\ QueryTileBaseHeightAtLocation EmptyTree (FVector2D.mk 3 4) = Ret (false, 0%Q)
  /\ QueryTileBoundsAtLocation EmptyTree (FVector2D.mk 3 4) = Ret (false, FBox.ForceInit).
Proof.
  split; [reflexivity |].
  pose proof (Query_empty_arena EmptyTree (FVector2D.mk 3 4) eq_refl) as (H1 & H2 & _).
  split; [exact H1 | exact H2].
Defined.

(** ** Initialisation *)

Lemma NextPowerOfTwo_least (n : Z) :
  (1 <= n)%Z ->
  (n <= NextPowerOfTwo n)%Z
  /\ (exists k, (0 <= k)%Z /\ NextPowerOfTwo n = (2 ^ k)%Z)
  /\ (forall k, (0 <= k)%Z -> (n <= 2 ^ k)%Z -> (NextPowerOfTwo n <= 2 ^ k)%Z).
Proof.
  intros Hn. unfold NextPowerOfTwo.
  assert (Hup : (0 <= Z.log2_up n)%Z) by apply Z.log2_up_nonneg.
  repeat split.
  - destruct (Z.eq_dec n 1%Z) as [-> | Hne]; [simpl; lia |].
    apply Z.log2_up_spec. lia.
  - exists (Z.log2_up n). split; [exact Hup | reflexivity].
  - intros k Hk Hle. apply Z.pow_le_mono_r; [lia |].
    rewrite <- (Z.log2_up_pow2 k) by exact Hk.
    apply Z.log2_up_le_mono. exact Hle.
Qed.

Lemma CeilLogTwo_log2_up (m : Z) : (1 <= m)%Z -> CeilLogTwo m = Z.log2_up m.
Proof.
  intros Hm. unfold CeilLogTwo.
  destruct (Z.eqb_spec m 0%Z) as [E | _]; [lia |].
  destruct (Z.eqb_spec (m - 1)%Z 0%Z) as [E | Hne].
  - replace m with 1%Z by lia. reflexivity.
  - unfold Z.log2_up. replace (1 ?= m)%Z with Lt by (symmetry; apply Z.compare_lt_iff; lia).
    unfold Z.succ, Z.pred. reflexivity.
Qed.

Lemma RoundUpToPowerOfTwo_exact (m : Z) :
  (1 <= m <= 2 ^ 31)%Z -> RoundUpToPowerOfTwo (to_uint32 m) = NextPowerOfTwo m.
Proof.
  intros Hm. unfold RoundUpToPowerOfTwo, to_uint32, NextPowerOfTwo.
  rewrite (Z.mod_small m) by lia.
  rewrite CeilLogTwo_log2_up by lia.
  assert (Hup : (0 <= Z.log2_up m)%Z) by apply Z.log2_up_nonneg.
  assert (Hle : (Z.log2_up m <= 31)%Z).
  { rewrite <- (Z.log2_up_pow2 31%Z) by lia. apply Z.log2_up_le_mono. lia. }
  rewrite (Z.mod_small (Z.log2_up m)) by lia.
  rewrite Z.shiftl_1_l.
  apply Z.mod_small.
  split; [apply Z.pow_nonneg; lia |].
  apply Z.le_lt_trans with (2 ^ 31)%Z; [apply Z.pow_le_mono_r; lia | reflexivity].
Qed.

Lemma RoundUpToPowerOfTwo_pow2_le (arg : Z) :
  exists k : nat, (k <= 31)%nat /\ RoundUpToPowerOfTwo arg = (2 ^ Z.of_nat k)%Z.
Proof.
  unfold RoundUpToPowerOfTwo, to_uint32.
  pose proof (Z.mod_pos_bound (CeilLogTwo arg) 32 ltac:(lia)) as Hk.
  set (k := (CeilLogTwo arg mod 32)%Z) in *.
  exists (Z.to_nat k). split; [lia |]. rewrite Z2Nat.id by lia.
  rewrite Z.shiftl_1_l. apply Z.mod_small.
  split; [apply Z.pow_nonneg; lia |].
  apply Z.le_lt_trans with (2 ^ 31)%Z; [apply Z.pow_le_mono_r; lia | reflexivity].
Qed.

Lemma RoundUpToPowerOfTwo_pow2 (arg : Z) :
  exists k : nat, RoundUpToPowerOfTwo arg = (2 ^ Z.of_nat k)%Z.
Proof.
  destruct (RoundUpToPowerOfTwo_pow2_le arg) as (k & _ & Hk).
  exists k. exact Hk.
Qed.

Lemma wrap_int32_small (z : Z) : (- 2 ^ 31 <= z < 2 ^ 31)%Z -> wrap_int32 z = z.
Proof.
  intros H. unfold wrap_int32. rewrite Z.mod_small; lia.
Qed.

Lemma MaxDim_exact (e : Z * Z) :
  ExtentInRange e -> MaxDim e = (2 * Z.max (fst e) (snd e))%Z.
Proof.
  intros [Hx Hy]. unfold MaxDim.
  rewrite !wrap_int32_small by lia. lia.
Qed.

Lemma RootDim_exact (e : Z * Z) :
  ExtentInRange e -> RootDim e = NextPowerOfTwo (2 * Z.max (fst e) (snd e)).
Proof.
  intros He. unfold RootDim. rewrite MaxDim_exact by exact He.
  destruct He as [Hx Hy]. apply RoundUpToPowerOfTwo_exact. lia.
Qed.

(** The reserve against the node count of the full tree, checked depth by
    depth for the 32 values [RootDim] can take: [4 ^ (d + 1)] is
    [3 * FullCount d + 1]. *)
Lemma ReserveTable_holds :
  forallb (fun dc => (4 ^ (fst dc + 1) <=? 3 * snd dc + 1)%Z
                     && ((11 <? fst dc)%Z || (3 * snd dc + 1 =? 4 ^ (fst dc + 1))%Z)
                     && ((15 <? fst dc)%Z || (snd dc <? 2 ^ 31)%Z)
                     && (0 <? snd dc)%Z)
          ReserveTable = true.
Proof. vm_compute. reflexivity. Qed.

Lemma ReserveTable_at (d : nat) :
  (d <= 31)%nat ->
  let c := InitCapacity (2 ^ Z.of_nat d) in
  (4 ^ (Z.of_nat d + 1) <= 3 * c + 1)%Z
  /\ ((d <= 11)%nat -> (3 * c + 1 = 4 ^ (Z.of_nat d + 1))%Z)
  /\ ((d <= 15)%nat -> (c < 2 ^ 31)%Z)
  /\ (0 < c)%Z.
Proof.
  intros Hd c.
  pose proof ReserveTable_holds as H.
  rewrite forallb_forall in H.
  specialize (H (Z.of_nat d, c)).
  cbn [fst snd] in H.
  assert (Hin : In (Z.of_nat d, c) ReserveTable).
  { unfold ReserveTable.
    apply (in_map (fun d => (d, InitCapacity (2 ^ d)))).
    apply in_map. apply in_seq. lia. }
  specialize (H Hin).
  set (P := (4 ^ (Z.of_nat d + 1))%Z) in *.
  rewrite !andb_true_iff, !orb_true_iff in H.
  destruct H as (((H1 & H2) & H3) & H4).
  apply Z.leb_le in H1. apply Z.ltb_lt in H4.
  split; [exact H1 |]. split; [| split; [| exact H4]].
  - intros Hle. destruct H2 as [H2 | H2]; [apply Z.ltb_lt in H2; lia |].
    apply Z.eqb_eq in H2. exact H2.
  - intros Hle. destruct H3 as [H3 | H3]; [apply Z.ltb_lt in H3; lia |].
    apply Z.ltb_lt in H3. exact H3.
Qed.

Lemma ExtentWithinReserve_in_range (e : Z * Z) :
  ExtentWithinReserve e -> ExtentInRange e.
Proof. intros [Hx Hy]. split; lia. Qed.

(** Within [ExtentWithinReserve] the root dimension is a power of two of
    exponent at most 15. *)
Lemma RootDim_within_reserve (e : Z * Z) :
  ExtentWithinReserve e ->
  exists k : nat,
    (k <= 15)%nat
    /\ RootDim e = (2 ^ Z.of_nat k)%Z
    /\ RootDim e = NextPowerOfTwo (2 * Z.max (fst e) (snd e)).
Proof.
  intros He.
  pose proof (RootDim_exact e (ExtentWithinReserve_in_range e He)) as Hr.
  destruct He as [Hx Hy].
  assert (Hn : (1 <= 2 * Z.max (fst e) (snd e))%Z) by lia.
  destruct (NextPowerOfTwo_least _ Hn) as (_ & [k [Hk HP]] & Hleast).
  specialize (Hleast 15%Z ltac:(lia) ltac:(lia)).
  rewrite HP in Hleast.
  assert (Hk15 : (k <= 15)%Z).
  { destruct (Z.le_gt_cases k 15) as [H | H]; [exact H |].
    assert (2 ^ 15 < 2 ^ k)%Z by (apply Z.pow_lt_mono_r; lia). lia. }
  exists (Z.to_nat k). split; [lia |].
  rewrite Z2Nat.id by exact Hk. split; [congruence | exact Hr].
Qed.

Lemma ExtentWithinReserve_fits (e : Z * Z) :
  ExtentWithinReserve e ->
  (0 < InitCapacity (RootDim e) < 2 ^ 31)%Z.
Proof.
  intros He. destruct (RootDim_within_reserve e He) as (k & Hk & Hr & _).
  rewrite Hr.
  destruct (ReserveTable_at k ltac:(lia)) as (_ & _ & H3 & H4).
  split; [exact H4 | apply H3; exact Hk].
Qed.

(** The bound of [ExtentWithinReserve] is the largest there is: with
    16385 tiles along one axis [RootDim] is 65536 and the reserve,
    5726623232, is no value of [int32]. *)
Lemma Reserve_leaves_int32 :
  RootDim (16385, 1)%Z = 65536%Z
  /\ InitCapacity (RootDim (16385, 1)%Z) = 5726623232%Z
  /\ ~ ReserveFits (16385, 1)%Z.
Proof.
  split; [vm_compute; reflexivity |].
  split; [vm_compute; reflexivity |].
  unfold ReserveFits. vm_compute. discriminate.
Qed.

(** C2, as the code has it.  For a valid input whose extent components
    are at most 16384, the reserve [InitTree] asks for is a value of
    [int32], the depth after [InitTree] is the base-2 logarithm of the
    smallest power of two that is at least twice the larger extent
    component, and the arena holds the root alone, its XY box anchored at
    the minimum of the bounds with that power of two times the tile size
    as side length. *)
Theorem InitTree_depth_and_root (this : FMeshQuadTree) (InBounds : FBox2D.t)
    (InTileSize : Q) (e : Z * Z) :
  ValidInit InBounds InTileSize e ->
  ExtentWithinReserve e ->
  let t := InitTree this InBounds InTileSize e in
  let P := NextPowerOfTwo (2 * Z.max (fst e) (snd e)) in
  (0 < NodesMax (NodeData t) < 2 ^ 31)%Z
  /\ TreeDepth t = Z.log2 P
  /\ (2 ^ TreeDepth t = P)%Z
  /\ (2 * Z.max (fst e) (snd e) <= P)%Z
  /\ (forall k, (0 <= k)%Z -> (2 * Z.max (fst e) (snd e) <= 2 ^ k)%Z -> (P <= 2 ^ k)%Z)
  /\ exists root,
       Nodes (NodeData t) = [root]
       /\ FVector.to2D (FBox.Min (Bounds root)) = FBox2D.Min InBounds
       /\ (FVector.X (FBox.Max (Bounds root)) - FVector.X (FBox.Min (Bounds root))
           == inject_Z P * InTileSize)%Q
       /\ (FVector.Y (FBox.Max (Bounds root)) - FVector.Y (FBox.Min (Bounds root))
           == inject_Z P * InTileSize)%Q.
Proof.
  intros Hv Hw t P.
  pose proof (ExtentWithinReserve_in_range e Hw) as He.
  assert (Hn : (1 <= 2 * Z.max (fst e) (snd e))%Z) by (destruct He; lia).
  destruct (NextPowerOfTwo_least _ Hn) as (Hge & [k [Hk HP]] & Hleast).
  fold P in Hge, HP, Hleast.
  assert (Hd : TreeDepth t = Z.log2 P).
  { subst t. unfold InitTree. simpl. rewrite RootDim_exact by exact He. reflexivity. }
  split; [exact (ExtentWithinReserve_fits e Hw) |].
  split; [exact Hd |].
  split.
  { rewrite Hd, HP, Z.log2_pow2 by exact Hk. reflexivity. }
  split; [exact Hge |].
  split; [exact Hleast |].
  eexists. split; [reflexivity |].
  destruct InBounds as [[x0 y0] hi]. cbn.
  rewrite RootDim_exact by exact He. fold P.
  repeat split; ring.
Qed.

Lemma InitTree_depth_and_root_witness :
  let B := FBox2D.mk (FVector2D.mk 0 0) (FVector2D.mk 256 256) in
  let t := InitTree EmptyTree B 32 (4, 4)%Z in
  TreeDepth t = 3%Z /\ (2 ^ TreeDepth t = NextPowerOfTwo (2 * Z.max 4 4))%Z.
Proof.
  intros B t.
  assert (Hv : ValidInit B 32 (4, 4)%Z).
  { unfold ValidInit. repeat split; first [reflexivity | cbn; lia]. }
  assert (He : ExtentWithinReserve (4, 4)%Z).
  { unfold ExtentWithinReserve. cbn. lia. }
  pose proof (InitTree_depth_and_root EmptyTree B 32 (4, 4)%Z Hv He)
    as (_ & Hd & Hp & _).
  split; [exact Hd | exact Hp].
Defined.

(** C2 as stated fails where the [int32] product [X * 2] wraps: the
    extent (2^30, 1) is positive in both components, twice its larger
    component is 2^31, yet [InitTree] computes depth 1, from
    [Max(INT_MIN, 2) = 2]. *)
Lemma InitTree_depth_wraps :
  let B := FBox2D.mk (FVector2D.mk 0 0) (FVector2D.mk 1 1) in
  let e := (2 ^ 30, 1)%Z in
  ValidInit B 1 e
  /\ TreeDepth (InitTree EmptyTree B 1 e) = 1%Z
  /\ Z.log2 (NextPowerOfTwo (2 * Z.max (fst e) (snd e))) = 31%Z
  /\ TreeDepth (InitTree EmptyTree B 1 e)
     <> Z.log2 (NextPowerOfTwo (2 * Z.max (fst e) (snd e))).
Proof.
  intros B e. split.
  - unfold ValidInit. repeat split; first [reflexivity | cbn; lia].
  - repeat split; try (vm_compute; reflexivity).
    vm_compute. discriminate.
Qed.

(** ** Interpolated height *)

Lemma Floor_cell (x g L : Q) :
  (0 < L)%Q ->
  (Floor ((x - g) / L) * L + g <= x)%Q
  /\ (x < Floor ((x - g) / L) * L + g + L)%Q.
Proof.
  intros HL. unfold Floor.
  set (n := ((x - g) / L)%Q).
  assert (Hn : (n * L == x - g)%Q) by (subst n; field; lra).
  pose proof (Qfloor_le n) as Hlo.
  pose proof (Qlt_floor n) as Hhi.
  rewrite inject_Z_plus in Hhi.
  split.
  - assert (H : (inject_Z (Qfloor n) * L <= n * L)%Q)
      by (apply Qmult_le_compat_r; lra).
    lra.
  - assert (H : (n * L < (inject_Z (Qfloor n) + inject_Z 1) * L)%Q)
      by (apply Qmult_lt_compat_r; lra).
    assert (E : (inject_Z 1 == 1)%Q) by reflexivity.
    nra.
Qed.

Lemma Frac_in_cell (x g L : Q) :
  (0 < L)%Q ->
  (Frac ((x - g) / L) == (x - (Floor ((x - g) / L) * L + g)) / L)%Q.
Proof.
  intros HL. unfold Frac. field. lra.
Qed.

Lemma BiLerp_weights (P00 P10 P01 P11 fx fy : Q) :
  (BiLerp P00 P10 P01 P11 fx fy ==
   (1 - fx) * (1 - fy) * P00 + fx * (1 - fy) * P10
   + (1 - fx) * fy * P01 + fx * fy * P11)%Q.
Proof. unfold BiLerp, Lerp. ring. Qed.

(** C8. With a positive leaf size, the interpolated query samples the
    four corners of the leaf-size cell of the grid through
    [TileRegion.Min - LeafSize / 2] that contains the point, weights the
    four heights bilinearly by the point's position in the cell, and
    succeeds exactly when all four samples were hits. *)
Theorem QueryInterpolated_bilinear (this : FMeshQuadTree) (p : FVector2D.t)
    (r0 r1 r2 r3 : bool * Q) :
  (0 < LeafSize this)%Q ->
  Forall2 (fun q r => QueryTileBaseHeightAtLocation this q = Ret r)
          (CornerSampleWorldPositions this p) [r0; r1; r2; r3] ->
  let L := LeafSize this in
  let gx := (FVector2D.X (FBox2D.Min (TileRegion this)) - L / 2)%Q in
  let gy := (FVector2D.Y (FBox2D.Min (TileRegion this)) - L / 2)%Q in
  exists (kx ky : Z) (h : Q),
    let cx := (gx + inject_Z kx * L)%Q in
    let cy := (gy + inject_Z ky * L)%Q in
    let fx := ((FVector2D.X p - cx) / L)%Q in
    let fy := ((FVector2D.Y p - cy) / L)%Q in
    Forall2 SameXY (CornerSampleWorldPositions this p)
            [ FVector2D.mk cx cy; FVector2D.mk (cx + L) cy;
              FVector2D.mk cx (cy + L); FVector2D.mk (cx + L) (cy + L) ]
    /\ (cx <= FVector2D.X p < cx + L)%Q
    /\ (cy <= FVector2D.Y p < cy + L)%Q
    /\ QueryInterpolatedTileBaseHeightAtLocation this p
       = Ret (fst r0 && fst r1 && fst r2 && fst r3, h)
    /\ (h == (1 - fx) * (1 - fy) * snd r0 + fx * (1 - fy) * snd r1
             + (1 - fx) * fy * snd r2 + fx * fy * snd r3)%Q.
Proof.
  intros HL Hq L gx gy.
  set (n := NormalizedGridPosition this p).
  exists (Qfloor (FVector2D.X n)), (Qfloor (FVector2D.Y n)).
  unfold CornerSampleWorldPositions in Hq.
  inversion Hq as [| q0 s0 l0 l0' H0 Hq1]; subst; clear Hq.
  inversion Hq1 as [| q1 s1 l1 l1' H1 Hq2]; subst; clear Hq1.
  inversion Hq2 as [| q2 s2 l2 l2' H2 Hq3]; subst; clear Hq2.
  inversion Hq3 as [| q3 s3 l3 l3' H3 _]; subst; clear Hq3.
  exists (BiLerp (snd r0) (snd r1) (snd r2) (snd r3)
                 (Frac (FVector2D.X n)) (Frac (FVector2D.Y n))).
  assert (Hgx : (FVector2D.X (SampleGridWorldPosition this) == gx)%Q).
  { unfold SampleGridWorldPosition, gx, L.
    cbn [FVector2D.X FVector2D.Y FVector2D.sub FVector2D.splat]. field. }
  assert (Hgy : (FVector2D.Y (SampleGridWorldPosition this) == gy)%Q).
  { unfold SampleGridWorldPosition, gy, L.
    cbn [FVector2D.X FVector2D.Y FVector2D.sub FVector2D.splat]. field. }
  assert (Hnx : FVector2D.X n
                = ((FVector2D.X p - FVector2D.X (SampleGridWorldPosition this)) / L)%Q)
    by reflexivity.
  assert (Hny : FVector2D.Y n
                = ((FVector2D.Y p - FVector2D.Y (SampleGridWorldPosition this)) / L)%Q)
    by reflexivity.
  pose proof (Floor_cell (FVector2D.X p) (FVector2D.X (SampleGridWorldPosition this)) L HL)
    as [Hxlo Hxhi].
  pose proof (Floor_cell (FVector2D.Y p) (FVector2D.Y (SampleGridWorldPosition this)) L HL)
    as [Hylo Hyhi].
  pose proof (Frac_in_cell (FVector2D.X p) (FVector2D.X (SampleGridWorldPosition this)) L HL)
    as Hfx.
  pose proof (Frac_in_cell (FVector2D.Y p) (FVector2D.Y (SampleGridWorldPosition this)) L HL)
    as Hfy.
  rewrite <- Hnx in Hxlo, Hxhi, Hfx. rewrite <- Hny in Hylo, Hyhi, Hfy.
  unfold Floor in Hxlo, Hxhi, Hylo, Hyhi, Hfx, Hfy.
  split.
  { unfold CornerSampleWorldPositions, CornerSampleWorldPosition00, SameXY.
    fold n. unfold Floor. fold L.
    repeat (apply List.Forall2_cons;
            [cbn [FVector2D.X FVector2D.Y FVector2D.add FVector2D.scale];
             split; lra |]).
    apply List.Forall2_nil. }
  split; [lra |]. split; [lra |].
  split.
  { unfold QueryInterpolatedTileBaseHeightAtLocation, CornerSampleWorldPositions.
    cbn [SampleCorners]. rewrite H0, H1, H2, H3.
    destruct r0 as [b0 h0], r1 as [b1 h1], r2 as [b2 h2], r3 as [b3 h3].
    cbn [mbind Res_bind mret Res_ret fst snd nth].
    destruct b0, b1, b2, b3; reflexivity. }
  rewrite BiLerp_weights. fold n.
  destruct r0 as [b0 h0], r1 as [b1 h1], r2 as [b2 h2], r3 as [b3 h3].
  cbn [fst snd].
  assert (Ex : (Frac (FVector2D.X n)
                == (FVector2D.X p - (gx + inject_Z (Qfloor (FVector2D.X n)) * L)) / L)%Q).
  { rewrite Hfx. apply Qeq_sym. field_simplify_eq; [lra | lra]. }
  assert (Ey : (Frac (FVector2D.Y n)
                == (FVector2D.Y p - (gy + inject_Z (Qfloor (FVector2D.Y n)) * L)) / L)%Q).
  { rewrite Hfy. apply Qeq_sym. field_simplify_eq; [lra | lra]. }
  rewrite Ex, Ey. reflexivity.
Qed.

(** ** The height query *)

Lemma QueryBaseHeight_children_find rec nodes p fallback cs :
  QueryBaseHeight_children rec nodes p fallback cs =
  match List.find (LiveChildContaining nodes p) cs with
  | Some c => rec (node_at nodes c)
  | None => Ret (false, fallback)
  end.
Proof.
  induction cs as [| c cs IH]; [reflexivity |].
  cbn [QueryBaseHeight_children List.find]. unfold LiveChildContaining at 1.
  destruct (0 <? c)%nat; cbn [andb]; [| exact IH].
  destruct (InsideOrOnMin p (Bounds (node_at nodes c))); [reflexivity | exact IH].
Qed.

Lemma find_some_in {A} (f : A -> bool) (l : list A) (x : A) :
  List.find f l = Some x -> In x l /\ f x = true.
Proof. apply List.find_some. Qed.

Lemma QueryBaseHeight_refines (fuel : nat) (nd : FNodeData) (p : FVector2D.t) :
  forall this,
    DepthWithin fuel (Nodes nd) this = true ->
    exists r, QueryBaseHeightAtLocation fuel nd this p = Ret r
              /\ QueryHeightSpec nd p this r.
Proof.
  induction fuel as [| fuel IH]; intros this Hd; [discriminate Hd |].
  cbn [QueryBaseHeightAtLocation].
  destruct (HasCompleteSubtree this && IsSubtreeSameQuadMesh this) eqn:Hflags.
  - apply andb_true_iff in Hflags as [Hc Hs].
    eexists. split; [reflexivity |]. apply QH_uniform; assumption.
  - rewrite QueryBaseHeight_children_find.
    destruct (List.find (LiveChildContaining (Nodes nd) p) (Children this))
      as [c |] eqn:Hfind.
    + destruct (find_some_in _ _ _ Hfind) as [Hin Hlive].
      cbn [DepthWithin] in Hd. rewrite forallb_forall in Hd.
      specialize (Hd c Hin).
      unfold LiveChildContaining in Hlive.
      apply andb_true_iff in Hlive as [Hpos _].
      apply Nat.ltb_lt in Hpos.
      destruct (Nat.eqb_spec c 0) as [E | _]; [lia |].
      cbn [orb] in Hd.
      destruct (IH _ Hd) as (r & Hr & Hspec).
      exists r. split; [exact Hr |].
      eapply QH_descend; eauto.
    + eexists. split; [reflexivity |]. apply QH_fallback; assumption.
Qed.

(** C7. On a locked tree whose child references end within the tree
    depth, the height query returns, and what it returns is the descent:
    the base height of the first node met whose subtree is complete and
    identity-uniform, with found; at any other node the answer of the
    first live child whose box contains the point half-openly; and, when
    no child does, that node's own base height with not-found. *)
Theorem QueryHeight_descent (this : FMeshQuadTree) (p : FVector2D.t) :
  bIsReadOnly this = true ->
  (0 < GetNodeCount this)%nat ->
  DepthWithin (QueryFuel this) (Nodes (NodeData this))
              (node_at (Nodes (NodeData this)) 0) = true ->
  exists r,
    QueryTileBaseHeightAtLocation this p = Ret r
    /\ QueryHeightSpec (NodeData this) p (node_at (Nodes (NodeData this)) 0) r.
Proof.
  intros Hro Hn Hd. unfold QueryTileBaseHeightAtLocation.
  apply Nat.ltb_lt in Hn. rewrite Hn, Hro.
  apply QueryBaseHeight_refines. exact Hd.
Qed.

(** The three cases of the descent are exclusive: the specification
    determines the answer. *)
Lemma QueryHeightSpec_functional nd p this r1 r2 :
  QueryHeightSpec nd p this r1 -> QueryHeightSpec nd p this r2 -> r1 = r2.
Proof.
  intros H1. revert r2.
  induction H1 as [this Hc Hs | this c r Hf Hfind _ IH | this Hf Hfind];
    intros r2 H2.
  - inversion H2 as [? _ _ | ? ? ? Hf' _ _ | ? Hf' _]; subst;
      [reflexivity | |]; rewrite Hc, Hs in Hf'; discriminate.
  - inversion H2 as [? Hc Hs | ? c' ? _ Hfind' Hsub | ? _ Hfind']; subst.
    + rewrite Hc, Hs in Hf. discriminate.
    + apply IH. rewrite Hfind in Hfind'. injection Hfind' as ->. exact Hsub.
    + congruence.
  - inversion H2 as [? Hc Hs | ? c' ? _ Hfind' _ | ? _ _]; subst.
    + rewrite Hc, Hs in Hf. discriminate.
    + congruence.
    + reflexivity.
Qed.

(** ** Implicit children of a collapsed node *)


Ltac four_cases i Hi :=
  destruct i as [| [| [| [| i]]]]; [| | | | exfalso; lia].





(** ** Bucket of an emitted instance *)

(** What [AddNodeForRender] stores: the clamped density index alone,
    whatever [MaterialIndex] the render data carries. *)
Lemma AddNodeForRender_bucket this nd rd dl ll desc out out' :
  AddNodeForRender this nd rd dl ll desc out = Ret out' ->
  exists s,
    StagingInstanceData out' = StagingInstanceData out ++ [s]
    /\ BucketIndex s = Z.min dl (DensityCount desc - 1)
    /\ BucketInstanceCounts out'
       = alter Z.succ (Z.to_nat (Z.min dl (DensityCount desc - 1)))
               (BucketInstanceCounts out).
Proof.
  unfold AddNodeForRender. intros H.
  rewrite Z.mul_0_l, Z.add_0_l in H.
  destruct ((0 <=? Z.min dl (DensityCount desc - 1))%Z
            && (Z.min dl (DensityCount desc - 1)
                <? Z.of_nat (length (BucketInstanceCounts out)))%Z);
    [| discriminate H].
  injection H as <-. eexists. cbn. repeat split.
Qed.

(** C1 fails on the code.  In a tree with two materials the root points
    at render data whose material bucket is 1; with two density buckets
    the instance emitted for it at density 1 belongs in bucket
    [1 * 2 + 1 = 3], and the traversal stores and counts it in bucket 1. *)
Lemma Bucket_ignores_material :
  let t := TwoMaterialTree in
  let root := node_at (Nodes (NodeData t)) 0 in
  let rd := render_at (QuadMeshRenderData (NodeData t)) (QuadMeshIndex root) in
  MaterialIndex rd = 1%Z
  /\ (MaterialIndex rd * DensityCount FarDesc
      + Z.min 1 (DensityCount FarDesc - 1) = 3)%Z
  /\ exists s out,
       SelectLOD PowLODDistance 2 root (NodeData t) (TreeDepth t) FarDesc EmptyOutput4
       = Ret out
       /\ StagingInstanceData out = [s]
       /\ BucketIndex s = 1%Z
       /\ BucketInstanceCounts out = [0; 1; 0; 0]%Z.
Proof.
  intros t root rd. split; [vm_compute; reflexivity |].
  split; [vm_compute; reflexivity |].
  eexists. eexists. split; [vm_compute; reflexivity |].
  repeat split.
Qed.

(** ** Arena bookkeeping *)

Lemma node_at_lookup (l : list FNode) (k : nat) (n : FNode) :
  l !! k = Some n -> node_at l k = n.
Proof. intros H. unfold node_at. apply nth_lookup_Some. exact H. Qed.

Lemma lookup_node_at (l : list FNode) (k : nat) :
  (k < length l)%nat -> l !! k = Some (node_at l k).
Proof.
  intros H. unfold node_at.
  destruct (nth_lookup_or_length l k DefaultNode) as [E | E]; [exact E | lia].
Qed.

Lemma node_at_alter_eq (f : FNode -> FNode) (l : list FNode) (k : nat) :
  (k < length l)%nat -> node_at (alter f k l) k = f (node_at l k).
Proof.
  intros H. apply node_at_lookup.
  rewrite list_lookup_alter_eq, (lookup_node_at l k H). reflexivity.
Qed.

Lemma node_at_alter_ne (f : FNode -> FNode) (l : list FNode) (k j : nat) :
  k <> j -> node_at (alter f k l) j = node_at l j.
Proof.
  intros H. unfold node_at. rewrite !nth_lookup.
  rewrite list_lookup_alter_ne by exact H. reflexivity.
Qed.

Lemma node_at_app_l (l l' : list FNode) (k : nat) :
  (k < length l)%nat -> node_at (l ++ l') k = node_at l k.
Proof. intros H. unfold node_at. apply app_nth1. exact H. Qed.

Lemma node_at_app_new (l : list FNode) (n : FNode) :
  node_at (l ++ [n]) (length l) = n.
Proof. unfold node_at. rewrite app_nth2, Nat.sub_diag by lia. reflexivity. Qed.

Lemma child_setChild_eq (n : FNode) (i c : nat) :
  (i < length (Children n))%nat -> child (setChild i c n) i = c.
Proof.
  intros H. unfold child, setChild. cbn [Children setChildren].
  rewrite nth_lookup, list_lookup_insert_eq by exact H. reflexivity.
Qed.

Lemma child_setChild_ne (n : FNode) (i j c : nat) :
  i <> j -> child (setChild i c n) j = child n j.
Proof.
  intros H. unfold child, setChild. cbn [Children setChildren].
  rewrite !nth_lookup, list_lookup_insert_ne by exact H. reflexivity.
Qed.



Lemma FullCount_pow (lod : nat) : (3 * FullCount lod + 1 = 4 ^ (S lod))%nat.
Proof.
  induction lod as [| lod IH]; [reflexivity |].
  cbn [FullCount]. rewrite (Nat.pow_succ_r' 4 (S lod)). lia.
Qed.

(** ** Geometry of the quadrants *)


Lemma ChildBoundsOf_coords (b region : FBox.t) (i : nat) :
  let cb := ChildBoundsOf b (HalfBoundSizeOf b) region i in
  let hx := ((FVector.X (FBox.Max b) - FVector.X (FBox.Min b)) * (1 # 2))%Q in
  let hy := ((FVector.Y (FBox.Max b) - FVector.Y (FBox.Min b)) * (1 # 2))%Q in
  FVector.X (FBox.Min cb) = (FVector.X (FBox.Min b) + hx * FVector2D.X (HalfOffset i))%Q
  /\ FVector.X (FBox.Max cb)
     = (FVector.X (FBox.Min b) + hx * FVector2D.X (HalfOffset i) + hx)%Q
  /\ FVector.Y (FBox.Min cb) = (FVector.Y (FBox.Min b) + hy * FVector2D.Y (HalfOffset i))%Q
  /\ FVector.Y (FBox.Max cb)
     = (FVector.Y (FBox.Min b) + hy * FVector2D.Y (HalfOffset i) + hy)%Q.
Proof. repeat split. Qed.

Lemma ChildBoundsOf_inside (b region outer : FBox.t) (i : nat) :
  (i < 4)%nat -> NonEmptyXY b -> CoversXY outer b ->
  NonEmptyXY (ChildBoundsOf b (HalfBoundSizeOf b) region i)
  /\ CoversXY outer (ChildBoundsOf b (HalfBoundSizeOf b) region i).
Proof.
  intros Hi [Hx Hy] (H1 & H2 & H3 & H4).
  destruct (ChildBoundsOf_coords b region i) as (E1 & E2 & E3 & E4).
  unfold NonEmptyXY, CoversXY. rewrite E1, E2, E3, E4.
  four_cases i Hi;
    cbn [HalfOffset HalfOffsets nth FVector2D.X FVector2D.Y];
    repeat split; lra.
Qed.

(** ** Inserting a region that covers a node without children *)


Section FreshBuild.
Variable rd : list FQuadMeshRenderData.
Variable cap : Z.
Variable mesh region : FBox.t.
Variable idx : nat.

Let M := HasMaterialAt rd idx.



End FreshBuild.

(** ** Pruning an arena that is uniform throughout *)



(** ** Capacity of the arena *)

Lemma FullCount_pow_Z (d : nat) :
  (3 * Z.of_nat (FullCount d) + 1 = 4 ^ (Z.of_nat d + 1))%Z.
Proof.
  pose proof (FullCount_pow d) as H.
  apply (f_equal Z.of_nat) in H.
  rewrite Nat2Z.inj_add, Nat2Z.inj_mul, Nat2Z.inj_pow, Nat2Z.inj_succ in H.
  change (Z.of_nat 3) with 3%Z in H. change (Z.of_nat 1) with 1%Z in H.
  change (Z.of_nat 4) with 4%Z in H. unfold Z.succ in H. lia.
Qed.

Lemma InitCapacity_table (d : nat) :
  (d <= 31)%nat ->
  (Z.of_nat (FullCount d) <= InitCapacity (2 ^ Z.of_nat d))%Z
  /\ ((d <= 11)%nat -> InitCapacity (2 ^ Z.of_nat d) = Z.of_nat (FullCount d))
  /\ ((d <= 15)%nat -> (InitCapacity (2 ^ Z.of_nat d) < 2 ^ 31)%Z).
Proof.
  intros Hd.
  destruct (ReserveTable_at d Hd) as (H1 & H2 & H3 & _).
  pose proof (FullCount_pow_Z d) as HF.
  split; [lia |]. split; [| exact H3].
  intros Hle. specialize (H2 Hle). lia.
Qed.

Lemma InitCapacity_full (d : nat) :
  (d <= 31)%nat ->
  (Z.of_nat (FullCount d) <= InitCapacity (2 ^ Z.of_nat d))%Z.
Proof. intros Hd. exact (proj1 (InitCapacity_table d Hd)). Qed.

(** ** One covering region *)

Lemma InitTree_shape (this : FMeshQuadTree) (InBounds : FBox2D.t)
    (InTileSize : Q) (e : Z * Z) :
  let t := InitTree this InBounds InTileSize e in
  exists d : nat,
    TreeDepth t = Z.of_nat d
    /\ (Z.of_nat (FullCount d) <= NodesMax (NodeData t))%Z
    /\ Nodes (NodeData t) = [setBounds (RootBoxOf InBounds InTileSize e) DefaultNode]
    /\ TileRegion t = InBounds
    /\ bIsReadOnly t = false.
Proof.
  intros t.
  destruct (RoundUpToPowerOfTwo_pow2_le (to_uint32 (MaxDim e))) as (k & Hk31 & Hk).
  exists k.
  assert (Hr : RootDim e = (2 ^ Z.of_nat k)%Z) by exact Hk.
  subst t. unfold InitTree, RootBoxOf. cbn.
  rewrite Hr. split.
  { rewrite Z.log2_pow2 by lia. reflexivity. }
  split; [apply InitCapacity_full; exact Hk31 |].
  repeat split.
Qed.

Lemma RootBox_nonempty (InBounds : FBox2D.t) (InTileSize : Q) (e : Z * Z) :
  (0 < InTileSize)%Q ->
  NonEmptyXY (RootBoxOf InBounds InTileSize e).
Proof.
  intros Ht.
  destruct (RoundUpToPowerOfTwo_pow2 (to_uint32 (MaxDim e))) as [k Hk].
  assert (Hr : RootDim e = (2 ^ Z.of_nat k)%Z) by exact Hk.
  unfold RootBoxOf, InitTree, NonEmptyXY. cbn.
  rewrite Hr.
  set (P := (2 ^ Z.of_nat k)%Z) in *.
  assert (HP0 : (0 <= P)%Z) by (subst P; apply Z.pow_nonneg; lia).
  assert (HP : (0 <= inject_Z P)%Q).
  { change 0%Q with (inject_Z 0). rewrite <- Zle_Qle. exact HP0. }
  assert (HPt : (0 <= inject_Z P * InTileSize)%Q) by (apply Qmult_le_0_compat; lra).
  split; lra.
Qed.

Lemma AddRenderDatas_fields (rs : list FQuadMeshRenderData) :
  forall t,
    Nodes (NodeData (AddRenderDatas t rs)) = Nodes (NodeData t)
    /\ NodesMax (NodeData (AddRenderDatas t rs)) = NodesMax (NodeData t)
    /\ TileRegion (AddRenderDatas t rs) = TileRegion t
    /\ TreeDepth (AddRenderDatas t rs) = TreeDepth t
    /\ bIsReadOnly (AddRenderDatas t rs) = bIsReadOnly t.
Proof.
  induction rs as [| r rs IH]; intros t; [repeat split |].
  cbn [AddRenderDatas fold_left].
  destruct (IH (fst (AddQuadMeshRenderData t r))) as (H1 & H2 & H3 & H4 & H5).
  unfold AddRenderDatas in *. rewrite H1, H2, H3, H4, H5. repeat split.
Qed.






(** ** The queries on the scenario of the specification *)

Lemma QueryHeight_descent_witness :
  let t := Unlock Tree256_full true in
  exists r,
    QueryTileBaseHeightAtLocation t (FVector2D.mk 10 10) = Ret r
    /\ QueryHeightSpec (NodeData t) (FVector2D.mk 10 10)
                       (node_at (Nodes (NodeData t)) 0) r.
Proof.
  intros t.
  assert (Hro : bIsReadOnly t = true) by reflexivity.
  assert (Hn : (0 < GetNodeCount t)%nat) by (apply Nat.ltb_lt; vm_compute; reflexivity).
  assert (Hd : DepthWithin (QueryFuel t) (Nodes (NodeData t))
                           (node_at (Nodes (NodeData t)) 0) = true)
    by (vm_compute; reflexivity).
  exact (QueryHeight_descent t (FVector2D.mk 10 10) Hro Hn Hd).
Defined.

Lemma QueryInterpolated_bilinear_witness :
  let t := Unlock Tree256_full true in
  (0 < LeafSize t)%Q
  /\ exists h,
       QueryInterpolatedTileBaseHeightAtLocation t (FVector2D.mk 100 100)
       = Ret (true, h).
Proof.
  intros t.
  assert (HL : (0 < LeafSize t)%Q) by reflexivity.
  assert (Hq : Forall2 (fun q r => QueryTileBaseHeightAtLocation t q = Ret r)
                 (CornerSampleWorldPositions t (FVector2D.mk 100 100))
                 [(true, 5%Q); (true, 5%Q); (true, 5%Q); (true, 5%Q)]).
  { unfold CornerSampleWorldPositions.
    repeat (apply List.Forall2_cons; [vm_compute; reflexivity |]).
    apply List.Forall2_nil. }
  split; [exact HL |].
  destruct (QueryInterpolated_bilinear t (FVector2D.mk 100 100)
              (true, 5%Q) (true, 5%Q) (true, 5%Q) (true, 5%Q) HL Hq)
    as (kx & ky & h & _ & _ & _ & Hres & _).
  exists h. exact Hres.
Defined.

(** ** Counting the nodes of a quadtree *)

Lemma PathsOfLength_length (n : nat) : length (PathsOfLength n) = (4 ^ n)%nat.
Proof.
  induction n as [| n IH]; [reflexivity |].
  cbn [PathsOfLength]. rewrite Nat.pow_succ_r', <- IH.
  generalize (PathsOfLength n). intros l.
  induction l as [| q l IHl]; [reflexivity |].
  cbn [flat_map]. rewrite length_app, IHl. cbn [four_slots map length]. lia.
Qed.

Lemma PathsUpTo_length (d : nat) : length (PathsUpTo d) = FullCount d.
Proof.
  induction d as [| d IH]; [reflexivity |].
  cbn [PathsUpTo FullCount]. rewrite length_app, IH, PathsOfLength_length.
  pose proof (FullCount_pow d). lia.
Qed.

Lemma PathsOfLength_complete (q : list nat) :
  Forall (fun i => (i < 4)%nat) q -> In q (PathsOfLength (length q)).
Proof.
  induction q as [| i q IH]; intros Hq; [left; reflexivity |].
  apply Forall_cons_1 in Hq as [Hi Hq].
  cbn [length PathsOfLength]. apply in_flat_map.
  exists q. split; [apply IH; exact Hq |].
  apply in_map_iff. exists i. split; [reflexivity |].
  unfold four_slots. destruct i as [| [| [| [| i]]]]; cbn; try tauto. lia.
Qed.

Lemma PathsUpTo_complete (d : nat) (q : list nat) :
  ValidPath d q -> In q (PathsUpTo d).
Proof.
  intros [Hlen Hq]. induction d as [| d IH].
  - assert (E : length q = 0%nat) by lia.
    change (PathsUpTo 0) with (PathsOfLength 0). rewrite <- E.
    apply PathsOfLength_complete. exact Hq.
  - cbn [PathsUpTo]. apply in_or_app.
    destruct (Nat.eq_dec (length q) (S d)) as [E | Hne].
    + right. rewrite <- E. apply PathsOfLength_complete. exact Hq.
    + left. apply IH. lia.
Qed.

Lemma TreeInv_count (d : nat) (nodes : list FNode) (paths : list (list nat)) :
  TreeInv d nodes paths -> (length nodes <= FullCount d)%nat.
Proof.
  intros I. rewrite <- (inv_len _ _ _ I), <- PathsUpTo_length.
  apply submseteq_length, NoDup_submseteq; [exact (inv_nodup _ _ _ I) |].
  intros q Hq. apply list_elem_of_In, PathsUpTo_complete.
  apply list_elem_of_lookup in Hq as [k Hk].
  exact (inv_valid _ _ _ I k q Hk).
Qed.

(** ** Paths *)

Lemma prefix_snoc_r {A} (ps q : list A) (i : A) :
  q `prefix_of` ps -> q `prefix_of` ps ++ [i].
Proof. intros H. apply prefix_app_r. exact H. Qed.

Lemma prefix_snoc_l {A} (ps q : list A) (i : A) :
  ps ++ [i] `prefix_of` q -> ps `prefix_of` q.
Proof. intros H. eapply prefix_app_l. exact H. Qed.

Lemma prefix_of_snoc {A} (ps q : list A) (i : A) :
  q `prefix_of` ps ++ [i] -> q `prefix_of` ps \/ q = ps ++ [i].
Proof.
  intros [k Hk]. induction k as [| x k' _] using rev_ind.
  - right. rewrite app_nil_r in Hk. symmetry. exact Hk.
  - left. rewrite app_assoc in Hk. apply app_inj_tail in Hk as [-> _].
    exists k'. reflexivity.
Qed.

Lemma prefix_siblings {A} (ps rest : list A) (i j : A) :
  i <> j -> ~ ps ++ [i] `prefix_of` ps ++ [j] ++ rest.
Proof.
  intros Hij [k Hk]. rewrite <- app_assoc in Hk.
  apply app_inv_head in Hk. cbn in Hk. congruence.
Qed.

Lemma prefix_length {A} (p q : list A) :
  p `prefix_of` q -> (length p <= length q)%nat.
Proof. intros [k ->]. rewrite length_app. lia. Qed.

Lemma snoc_not_prefix {A} (ps : list A) (i : A) : ~ ps ++ [i] `prefix_of` ps.
Proof. apply prefix_snoc_not. Qed.

(** ** The tree invariant under the steps of [AddNodes] *)

Lemma child_same_children (n n' : FNode) (i : nat) :
  Children n' = Children n -> child n' i = child n i.
Proof. intros H. unfold child. rewrite H. reflexivity. Qed.

Lemma TreeInv_same_shape (d : nat) (nodes nodes' : list FNode)
    (paths : list (list nat)) :
  SameShape nodes nodes' -> TreeInv d nodes paths -> TreeInv d nodes' paths.
Proof.
  intros [Hl Hs] I.
  assert (Hc : forall k i, child (node_at nodes' k) i = child (node_at nodes k) i).
  { intros k i. apply child_same_children. apply Hs. }
  constructor.
  - rewrite Hl. exact (inv_len _ _ _ I).
  - exact (inv_root _ _ _ I).
  - rewrite (proj2 (Hs 0%nat)). exact (inv_root_parent _ _ _ I).
  - exact (inv_nodup _ _ _ I).
  - exact (inv_valid _ _ _ I).
  - intros k Hk. rewrite (proj1 (Hs k)). apply (inv_children_len _ _ _ I). lia.
  - intros k q i Hq. rewrite Hc. apply (inv_child _ _ _ I). exact Hq.
  - intros c qc Hc0 Hqc.
    destruct (inv_parent _ _ _ I c qc Hc0 Hqc) as (k & q & i & H1 & H2 & H3 & H4 & H5).
    exists k, q, i. rewrite Hc, (proj2 (Hs c)). repeat split; assumption.
Qed.

Lemma SameShape_alter (f : FNode -> FNode) (k : nat) (nodes : list FNode) :
  (forall n, Children (f n) = Children n /\ ParentIndex (f n) = ParentIndex n) ->
  SameShape nodes (alter f k nodes).
Proof.
  intros Hf. split; [apply length_alter |].
  intros j. destruct (Nat.eq_dec k j) as [<- | Hne].
  - destruct (Nat.lt_ge_cases k (length nodes)) as [Hk | Hk].
    + rewrite node_at_alter_eq by exact Hk. apply Hf.
    + unfold node_at. rewrite !nth_overflow by (rewrite ?length_alter; lia).
      split; reflexivity.
  - rewrite node_at_alter_ne by exact Hne. split; reflexivity.
Qed.

Lemma TreeInv_alter (d : nat) (f : FNode -> FNode) (k : nat)
    (nodes : list FNode) (paths : list (list nat)) :
  (forall n, Children (f n) = Children n /\ ParentIndex (f n) = ParentIndex n) ->
  TreeInv d nodes paths -> TreeInv d (alter f k nodes) paths.
Proof.
  intros Hf. apply TreeInv_same_shape, SameShape_alter. exact Hf.
Qed.

Lemma TreeInv_index (d : nat) (nodes : list FNode) (paths : list (list nat))
    (k : nat) (q : list nat) :
  TreeInv d nodes paths -> paths !! k = Some q -> (k < length nodes)%nat.
Proof.
  intros I H. rewrite <- (inv_len _ _ _ I). eapply lookup_lt_Some. exact H.
Qed.

Lemma TreeInv_child_slot (d : nat) (nodes : list FNode) (paths : list (list nat))
    (k i : nat) :
  TreeInv d nodes paths -> (k < length nodes)%nat ->
  (0 < child (node_at nodes k) i)%nat -> (i < 4)%nat.
Proof.
  intros I Hk Hc. pose proof (inv_children_len _ _ _ I k Hk) as Hl.
  destruct (Nat.lt_ge_cases i 4) as [Hi | Hi]; [exact Hi |].
  unfold child in Hc. rewrite nth_overflow in Hc by lia. lia.
Qed.

Lemma TreeInv_injective (d : nat) (nodes : list FNode) (paths : list (list nat))
    (j k : nat) (q : list nat) :
  TreeInv d nodes paths -> paths !! j = Some q -> paths !! k = Some q -> j = k.
Proof. intros I Hj Hk. eapply NoDup_lookup; eauto using inv_nodup. Qed.

Lemma WithNewChild_nodes (self i : nat) (cb : FBox.t) (cur : list FNode) :
  (self < length cur)%nat ->
  let new := WithNewChild self i cb cur in
  length new = S (length cur)
  /\ node_at new (length cur) = setParentIndex (Some self) (setBounds cb DefaultNode)
  /\ node_at new self = setChild i (length cur) (node_at cur self)
  /\ (forall k, k <> self -> k <> length cur -> node_at new k = node_at cur k).
Proof.
  intros Hself new. subst new. unfold WithNewChild.
  assert (Hl : forall f g h,
             length (alter f (length cur)
                       (alter g (length cur) (alter h self (cur ++ [DefaultNode]))))
             = S (length cur)).
  { intros. rewrite !length_alter, length_app. cbn [length]. lia. }
  split; [apply Hl |].
  split.
  { rewrite node_at_alter_eq by (rewrite !length_alter, length_app; cbn; lia).
    rewrite node_at_alter_eq by (rewrite !length_alter, length_app; cbn; lia).
    rewrite node_at_alter_ne by lia.
    rewrite node_at_app_new. reflexivity. }
  split.
  { rewrite !node_at_alter_ne by lia.
    rewrite node_at_alter_eq by (rewrite length_app; cbn; lia).
    rewrite node_at_app_l by exact Hself. reflexivity. }
  intros k Hks Hkc.
  rewrite !node_at_alter_ne by congruence.
  destruct (Nat.lt_ge_cases k (length cur)) as [Hk | Hk].
  - apply node_at_app_l. exact Hk.
  - unfold node_at. rewrite !nth_overflow; [reflexivity | lia |].
    rewrite length_app. cbn [length]. lia.
Qed.

Lemma TreeInv_create (d : nat) (cur : list FNode) (paths : list (list nat))
    (self i : nat) (ps : list nat) (cb : FBox.t) :
  TreeInv d cur paths ->
  paths !! self = Some ps ->
  (length ps < d)%nat ->
  (i < 4)%nat ->
  child (node_at cur self) i = 0%nat ->
  TreeInv d (WithNewChild self i cb cur) (paths ++ [ps ++ [i]]).
Proof.
  intros I Hps Hd Hi Hch.
  pose proof (TreeInv_index _ _ _ _ _ I Hps) as Hself.
  destruct (WithNewChild_nodes self i cb cur Hself) as (Nl & Nc & Ns & No).
  set (new := WithNewChild self i cb cur) in *.
  pose proof (inv_len _ _ _ I) as Hlen.
  assert (Hlast : (paths ++ [ps ++ [i]]) !! length cur = Some (ps ++ [i])).
  { rewrite <- Hlen. apply list_lookup_middle. reflexivity. }
  assert (Hold : forall k, (k < length cur)%nat ->
                           (paths ++ [ps ++ [i]]) !! k = paths !! k).
  { intros k Hk. apply lookup_app_l. lia. }
  assert (Hcases : forall k q, (paths ++ [ps ++ [i]]) !! k = Some q ->
             (k < length cur /\ paths !! k = Some q)%nat
             \/ (k = length cur /\ q = ps ++ [i])).
  { intros k q Hq. destruct (Nat.lt_ge_cases k (length cur)) as [Hk | Hk].
    - left. split; [exact Hk |]. rewrite <- Hold by exact Hk. exact Hq.
    - right. pose proof (lookup_lt_Some _ _ _ Hq) as Hb.
      rewrite length_app in Hb. cbn [length] in Hb.
      assert (k = length cur) by lia. subst k.
      split; [reflexivity |]. rewrite Hlast in Hq. congruence. }
  assert (Hchl : length (Children (node_at cur self)) = 4%nat)
    by (apply (inv_children_len _ _ _ I); exact Hself).
  constructor.
  - rewrite length_app, Nl. cbn [length]. lia.
  - rewrite Hold by lia. exact (inv_root _ _ _ I).
  - destruct (Nat.eq_dec self 0) as [E | E].
    + rewrite <- E, Ns. cbn. rewrite E. exact (inv_root_parent _ _ _ I).
    + rewrite No by lia. exact (inv_root_parent _ _ _ I).
  - apply NoDup_app. split; [exact (inv_nodup _ _ _ I) |].
    split; [| apply NoDup_singleton].
    intros q Hq Hin. apply list_elem_of_singleton in Hin. subst q.
    apply list_elem_of_lookup in Hq as [c' Hc'].
    destruct (Nat.eq_dec c' 0) as [-> | Hc0].
    { rewrite (inv_root _ _ _ I) in Hc'. injection Hc' as Hc'.
      destruct ps; discriminate Hc'. }
    destruct (inv_parent _ _ _ I c' _ ltac:(lia) Hc') as (k & q & i' & E & Hk & Hkc & _).
    apply app_inj_tail in E as [<- <-].
    assert (k = self) by (eapply TreeInv_injective; eauto). subst k.
    lia.
  - intros k q Hq. destruct (Hcases k q Hq) as [[_ Hq'] | [_ ->]].
    + exact (inv_valid _ _ _ I k q Hq').
    + destruct (inv_valid _ _ _ I self ps Hps) as [Hl Hf].
      split; [rewrite length_app; cbn [length]; lia |].
      apply Forall_app. split; [exact Hf |]. apply Forall_singleton. exact Hi.
  - intros k Hk. rewrite Nl in Hk.
    destruct (Nat.eq_dec k (length cur)) as [-> | Hkc]; [rewrite Nc; reflexivity |].
    destruct (Nat.eq_dec k self) as [-> | Hks].
    + rewrite Ns. unfold setChild. cbn [Children setChildren].
      rewrite length_insert. exact Hchl.
    + rewrite No by assumption. apply (inv_children_len _ _ _ I). lia.
  - intros k q i0 Hq Hc0.
    destruct (Hcases k q Hq) as [[Hk Hq'] | [-> ->]].
    + destruct (Nat.eq_dec k self) as [-> | Hks].
      * assert (q = ps) by congruence. subst q.
        rewrite Ns in Hc0 |- *.
        destruct (Nat.eq_dec i i0) as [<- | Hii].
        -- rewrite child_setChild_eq by lia. exact Hlast.
        -- rewrite child_setChild_ne in Hc0 |- * by exact Hii.
           pose proof (inv_child _ _ _ I self ps i0 Hps Hc0) as Hp.
           rewrite Hold; [exact Hp |]. eapply TreeInv_index; eauto.
      * rewrite No in Hc0 |- * by lia.
        pose proof (inv_child _ _ _ I k q i0 Hq' Hc0) as Hp.
        rewrite Hold; [exact Hp |]. eapply TreeInv_index; eauto.
    + rewrite Nc in Hc0. unfold child in Hc0. cbn in Hc0.
      destruct i0 as [| [| [| [| [| i0]]]]]; cbn in Hc0; lia.
  - intros c qc Hc0 Hqc.
    destruct (Hcases c qc Hqc) as [[Hk Hq'] | [-> ->]].
    + destruct (inv_parent _ _ _ I c qc Hc0 Hq') as (k & q & i0 & E & Hkq & Hkc & Hpar & Hlt).
      exists k, q, i0.
      split; [exact E |].
      split; [rewrite Hold by lia; exact Hkq |].
      split.
      { destruct (Nat.eq_dec k self) as [-> | Hks].
        - rewrite Ns. rewrite child_setChild_ne; [exact Hkc |].
          intros ->. lia.
        - rewrite No by lia. exact Hkc. }
      split; [| exact Hlt].
      destruct (Nat.eq_dec c self) as [-> | Hcs].
      * rewrite Ns. exact Hpar.
      * rewrite No by lia. exact Hpar.
    + exists self, ps, i.
      split; [reflexivity |].
      split; [rewrite Hold by exact Hself; exact Hps |].
      split; [rewrite Ns; apply child_setChild_eq; lia |].
      split; [rewrite Nc; reflexivity | exact Hself].
Qed.

(** ** The two halves of a slot *)

Lemma CompleteAndUniform_cleared (n : FNode) :
  CompleteAndUniform (setIsSubtreeSameQuadMesh false n) = false
  /\ CompleteAndUniform (setHasCompleteSubtree false n) = false.
Proof.
  unfold CompleteAndUniform. cbn. split; [apply andb_false_r | reflexivity].
Qed.

Lemma AddNodes_merge_spec (self i : nat) (nodes : list FNode) (prev : FNode) :
  ((0 < child (node_at nodes self) i)%nat -> child (node_at nodes self) i <> self) ->
  exists g,
    fst (AddNodes_merge self i nodes prev) = alter g self nodes
    /\ (forall n, Children (g n) = Children n
                  /\ ParentIndex (g n) = ParentIndex n
                  /\ HasMaterial (g n) = HasMaterial n
                  /\ (CompleteAndUniform (g n) = true -> CompleteAndUniform n = true))
    /\ (CompleteAndUniform (g (node_at nodes self)) = true ->
        (0 < child (node_at nodes self) i)%nat ->
        CompleteAndUniform (node_at nodes (child (node_at nodes self) i)) = true).
Proof.
  intros Hne. unfold AddNodes_merge.
  set (c := child (node_at nodes self) i) in *.
  destruct (0 <? c)%nat eqn:Hlive.
  - apply Nat.ltb_lt in Hlive. specialize (Hne Hlive).
    set (ChildNode := node_at nodes c).
    set (cond1 := negb (IsSubtreeSameQuadMesh ChildNode)
                  || negb (CanMerge ChildNode
                             match ParentIndex prev with
                             | Some _ => prev
                             | None => ChildNode
                             end)).
    assert (Hc2 : forall b : bool,
               node_at (if b then alter (setIsSubtreeSameQuadMesh false) self nodes
                        else nodes) c = ChildNode).
    { intros [|]; [apply node_at_alter_ne; congruence | reflexivity]. }
    cbv zeta. rewrite !Hc2. cbn [fst].
    destruct cond1 eqn:E1; destruct (negb (HasCompleteSubtree ChildNode)) eqn:E2.
    + exists (fun n => setHasCompleteSubtree false (setIsSubtreeSameQuadMesh false n)).
      split; [apply list_alter_alter_eq |].
      split; [intros n; repeat split; intros H; cbn in H; discriminate H |].
      intros H. cbn in H. discriminate H.
    + exists (setIsSubtreeSameQuadMesh false).
      split; [reflexivity |].
      split.
      * intros n. repeat split. intros H.
        rewrite (proj1 (CompleteAndUniform_cleared n)) in H. discriminate H.
      * intros H.
        rewrite (proj1 (CompleteAndUniform_cleared _)) in H. discriminate H.
    + exists (setHasCompleteSubtree false).
      split; [reflexivity |].
      split; [intros n; repeat split; intros H; cbn in H; discriminate H |].
      intros H. cbn in H. discriminate H.
    + exists (fun n => n).
      split; [symmetry; apply list_alter_id; reflexivity |].
      split; [intros n; repeat split; intros H; exact H |].
      intros _ _. fold ChildNode. unfold CompleteAndUniform.
      apply negb_false_iff in E2. rewrite E2. cbn [andb].
      subst cond1. apply orb_false_iff in E1 as [E1 _].
      apply negb_false_iff in E1. exact E1.
  - cbn [fst]. exists (setHasCompleteSubtree false).
    split; [reflexivity |].
    split; [intros n; repeat split; intros H; cbn in H; discriminate H |].
    intros _ H. apply Nat.ltb_ge in Hlive. lia.
Qed.

Lemma FlagsOKAt_transfer (nodes nodes' : list FNode) (k : nat) :
  node_at nodes' k = node_at nodes k ->
  (forall i, (0 < child (node_at nodes k) i)%nat ->
             node_at nodes' (child (node_at nodes k) i)
             = node_at nodes (child (node_at nodes k) i)) ->
  FlagsOKAt nodes k -> FlagsOKAt nodes' k.
Proof.
  intros Hk Hch H. unfold FlagsOKAt in *. rewrite Hk.
  intros Hcu i Hi. rewrite Hch by exact Hi. apply H; assumption.
Qed.

Lemma child_not_ancestor (d : nat) (nodes : list FNode) (paths : list (list nat))
    (k self j : nat) (q ps : list nat) :
  TreeInv d nodes paths ->
  paths !! k = Some q -> paths !! self = Some ps ->
  ~ q `prefix_of` ps ->
  (0 < child (node_at nodes k) j)%nat ->
  child (node_at nodes k) j <> self.
Proof.
  intros I Hq Hps Hn Hc E.
  pose proof (inv_child _ _ _ I k q j Hq Hc) as Hp.
  rewrite E, Hps in Hp. injection Hp as ->.
  apply Hn. exists [j]. reflexivity.
Qed.

Lemma child_in_range (d : nat) (nodes : list FNode) (paths : list (list nat))
    (k j : nat) (q : list nat) :
  TreeInv d nodes paths ->
  paths !! k = Some q ->
  (0 < child (node_at nodes k) j)%nat ->
  (k < child (node_at nodes k) j < length nodes)%nat.
Proof.
  intros I Hq Hc.
  pose proof (inv_child _ _ _ I k q j Hq Hc) as Hp.
  split; [| eapply TreeInv_index; eauto].
  destruct (inv_parent _ _ _ I _ _ Hc Hp) as (k' & q' & j' & E & Hk' & _ & _ & Hlt).
  apply app_inj_tail in E as [<- <-].
  assert (k' = k) by (eapply TreeInv_injective; eauto). subst k'. exact Hlt.
Qed.

Section BuildInvariant.
Variable rd : list FQuadMeshRenderData.
Variable cap : Z.
Variable mesh region : FBox.t.
Variable idx : nat.
Variable d : nat.

(** [M] says whether materials are being tracked: when it holds, the
    inserted identity has one. *)
Variable M : bool.
Hypothesis M_has : M = true -> HasMaterialAt rd idx = true.

Hypothesis cap_full : (Z.of_nat (FullCount d) <= cap)%Z.

Lemma DescendPost_refl (self : nat) (ps : list nat) (i : nat)
    (cur : list FNode) (pcur : list (list nat)) :
  TreeInv d cur pcur ->
  (forall k q, pcur !! k = Some q -> ~ q `prefix_of` ps -> FlagsOKAt cur k) ->
  (M = true -> forall k, (0 < k < length cur)%nat ->
                         HasMaterial (node_at cur k) = true) ->
  DescendPost d M self ps i cur pcur cur pcur.
Proof.
  intros I Hflags Hmat. constructor; try assumption; try reflexivity.
  exists []. rewrite app_nil_r. split; [reflexivity | constructor].
Qed.

Lemma DescendPost_of_rec (self : nat) (ps : list nat) (i : nat)
    (cur : list FNode) (pcur : list (list nat))
    (cur2 : list FNode) (p2 : list (list nat)) :
  BuildPost d M (ps ++ [i]) cur pcur cur2 p2 ->
  pcur !! self = Some ps ->
  DescendPost d M self ps i cur pcur cur2 p2.
Proof.
  intros P Hps.
  assert (Hself : node_at cur2 self = node_at cur self).
  { apply (bp_frame _ _ _ _ _ _ _ P self ps Hps). apply snoc_not_prefix. }
  constructor.
  - exact (bp_inv _ _ _ _ _ _ _ P).
  - destruct (bp_new _ _ _ _ _ _ _ P) as (new & E & Hnew).
    exists new. split; [exact E |].
    eapply Forall_impl; [exact Hnew |].
    intros q Hq. eapply prefix_snoc_l. exact Hq.
  - intros k q Hq Hn _. exact (bp_frame _ _ _ _ _ _ _ P k q Hq Hn).
  - rewrite Hself. reflexivity.
  - intros j _. rewrite Hself. reflexivity.
  - intros k q Hq Hn. apply (bp_flags _ _ _ _ _ _ _ P k q Hq).
    intros [Hpre Hneq]. apply prefix_of_snoc in Hpre as [Hpre | Hpre];
      [exact (Hn Hpre) | exact (Hneq Hpre)].
  - exact (bp_mat _ _ _ _ _ _ _ P).
Qed.

Lemma AddNodes_descend_spec (rec : nat -> list FNode -> Res (list FNode))
    (lower self : nat) (ps : list nat) (i : nat) (hb : FVector2D.t)
    (cur : list FNode) (pcur : list (list nat)) :
  (forall c nodes paths pc,
      BuildPre d M lower c pc nodes paths ->
      exists nodes' paths',
        rec c nodes = Ret nodes' /\ BuildPost d M pc nodes paths nodes' paths') ->
  (i < 4)%nat ->
  (length ps + S lower = d)%nat ->
  pcur !! self = Some ps ->
  TreeInv d cur pcur ->
  (forall k q, pcur !! k = Some q -> ~ q `prefix_of` ps -> FlagsOKAt cur k) ->
  (M = true -> forall k, (0 < k < length cur)%nat ->
                         HasMaterial (node_at cur k) = true) ->
  exists cur2 p2,
    AddNodes_descend cap mesh region rec self hb i cur = Ret cur2
    /\ DescendPost d M self ps i cur pcur cur2 p2.
Proof.
  intros Hrec Hi Hlevel Hps I Hflags Hmat.
  pose proof (TreeInv_index _ _ _ _ _ I Hps) as Hself.
  unfold AddNodes_descend.
  set (c0 := child (node_at cur self) i).
  destruct (0 <? c0)%nat eqn:Hlive.
  - apply Nat.ltb_lt in Hlive.
    destruct (FBox.IntersectXY (Bounds (node_at cur c0)) region).
    + destruct (Hrec c0 cur pcur (ps ++ [i])) as (cur2 & p2 & Hr & P).
      { constructor.
        - exact I.
        - apply (inv_child _ _ _ I); assumption.
        - rewrite length_app. cbn [length]. lia.
        - intros k q Hq Hn. apply (Hflags k q Hq).
          intros Hp. apply Hn. apply prefix_snoc_r. exact Hp.
        - intros HM k Hk _. apply Hmat; assumption. }
      exists cur2, p2. split; [exact Hr |].
      apply DescendPost_of_rec; assumption.
    + exists cur, pcur. split; [reflexivity |].
      apply DescendPost_refl; assumption.
  - apply Nat.ltb_ge in Hlive.
    assert (Hc0 : c0 = 0%nat) by lia.
    set (cb := ChildBoundsOf (Bounds (node_at cur self)) hb region i).
    destruct (FBox.IntersectXY cb region && FBox.IntersectXY cb mesh).
    + pose proof (TreeInv_create d cur pcur self i ps cb I Hps ltac:(lia) Hi Hc0) as I1.
      destruct (WithNewChild_nodes self i cb cur Hself) as (Nl & Nc & Ns & No).
      pose proof (TreeInv_count _ _ _ I1) as Hcount. rewrite Nl in Hcount.
      assert (Hlt : (Z.of_nat (length cur) <? cap)%Z = true) by (apply Z.ltb_lt; lia).
      rewrite Hlt.
      change (alter (setParentIndex (Some self)) (length cur)
                (alter (setBounds cb) (length cur)
                   (alter (setChild i (length cur)) self (cur ++ [DefaultNode]))))
        with (WithNewChild self i cb cur).
      set (cur1 := WithNewChild self i cb cur) in *.
      pose proof (inv_len _ _ _ I) as Hlen.
      assert (Hold : forall k q, pcur !! k = Some q ->
                                 (pcur ++ [ps ++ [i]]) !! k = Some q).
      { intros k q Hq. rewrite lookup_app_l; [exact Hq |].
        eapply lookup_lt_Some. exact Hq. }
      destruct (Hrec (length cur) cur1 (pcur ++ [ps ++ [i]]) (ps ++ [i]))
        as (cur2 & p2 & Hr & P).
      { constructor.
        - exact I1.
        - rewrite <- Hlen. apply list_lookup_middle. reflexivity.
        - rewrite length_app. cbn [length]. lia.
        - intros k q Hq Hn.
          destruct (Nat.lt_ge_cases k (length cur)) as [Hk | Hk].
          + rewrite lookup_app_l in Hq by lia.
            assert (Hnp : ~ q `prefix_of` ps).
            { intros Hp. apply Hn. apply prefix_snoc_r. exact Hp. }
            assert (Hks : k <> self).
            { intros ->. apply Hnp. replace q with ps by congruence. reflexivity. }
            apply (FlagsOKAt_transfer cur).
            * apply No; lia.
            * intros j Hj.
              pose proof (child_not_ancestor _ _ _ _ _ _ _ _ I Hq Hps Hnp Hj).
              pose proof (child_in_range _ _ _ _ _ _ I Hq Hj).
              apply No; lia.
            * exact (Hflags k q Hq Hnp).
          + exfalso. apply Hn.
            pose proof (lookup_lt_Some _ _ _ Hq) as Hb.
            rewrite length_app in Hb. cbn [length] in Hb.
            assert (k = length pcur) by lia. subst k.
            rewrite list_lookup_middle in Hq by reflexivity.
            injection Hq as <-. reflexivity.
        - intros HM k Hk Hkc. rewrite Nl in Hk.
          destruct (Nat.eq_dec k self) as [-> | Hks].
          + rewrite Ns. cbn. apply Hmat; [exact HM | lia].
          + rewrite No by lia. apply Hmat; [exact HM | lia]. }
      exists cur2, p2. split; [exact Hr |].
      pose proof (DescendPost_of_rec self ps i cur1 (pcur ++ [ps ++ [i]]) cur2 p2 P
                    (Hold _ _ Hps)) as D.
      constructor.
      * exact (dp_inv _ _ _ _ _ _ _ _ _ D).
      * destruct (dp_new _ _ _ _ _ _ _ _ _ D) as (new & E & Hnew).
        exists ((ps ++ [i]) :: new). split.
        { rewrite E, <- app_assoc. reflexivity. }
        constructor; [exists [i]; reflexivity | exact Hnew].
      * intros k q Hq Hn Hks.
        rewrite (dp_frame _ _ _ _ _ _ _ _ _ D k q (Hold _ _ Hq) Hn Hks).
        apply No; [exact Hks |].
        pose proof (TreeInv_index _ _ _ _ _ I Hq). lia.
      * rewrite (dp_self_flags _ _ _ _ _ _ _ _ _ D), Ns. reflexivity.
      * intros j Hj. rewrite (dp_self_children _ _ _ _ _ _ _ _ _ D j Hj), Ns.
        apply child_setChild_ne. congruence.
      * exact (dp_flags _ _ _ _ _ _ _ _ _ D).
      * exact (dp_mat _ _ _ _ _ _ _ _ _ D).
    + exists cur, pcur. split; [reflexivity |].
      apply DescendPost_refl; assumption.
Qed.
Lemma node_at_alter_proj {A} (P : FNode -> A) (g : FNode -> FNode) (k j : nat)
    (l : list FNode) :
  (forall n, P (g n) = P n) -> P (node_at (alter g k l) j) = P (node_at l j).
Proof.
  intros Hg. destruct (Nat.eq_dec k j) as [<- | Hne].
  - destruct (Nat.lt_ge_cases k (length l)) as [Hk | Hk].
    + rewrite node_at_alter_eq by exact Hk. apply Hg.
    + unfold node_at. rewrite !nth_overflow by (rewrite ?length_alter; lia).
      reflexivity.
  - rewrite node_at_alter_ne by exact Hne. reflexivity.
Qed.

Lemma AddNodes_slot_spec (rec : nat -> list FNode -> Res (list FNode))
    (lower self : nat) (ps : list nat) (nodes1 : list FNode)
    (paths : list (list nat)) (i : nat) (hb : FVector2D.t)
    (cur : list FNode) (pcur : list (list nat)) (prev : FNode) :
  (forall c nodes paths pc,
      BuildPre d M lower c pc nodes paths ->
      exists nodes' paths',
        rec c nodes = Ret nodes' /\ BuildPost d M pc nodes paths nodes' paths') ->
  (i < 4)%nat ->
  (length ps + S lower = d)%nat ->
  paths !! self = Some ps ->
  BuildLoop d M self ps nodes1 paths i cur pcur ->
  exists cur' pcur' prev',
    AddNodes_slot cap mesh region rec self hb i (cur, prev) = Ret (cur', prev')
    /\ BuildLoop d M self ps nodes1 paths (S i) cur' pcur'.
Proof.
  intros Hrec Hi Hlevel Hps0 [I (new & Enew & Hnew) Hframe Hflags Hmat Hselfi].
  assert (Hps : pcur !! self = Some ps).
  { rewrite Enew. rewrite lookup_app_l; [exact Hps0 |].
    eapply lookup_lt_Some. exact Hps0. }
  destruct (AddNodes_descend_spec rec lower self ps i hb cur pcur
              Hrec Hi Hlevel Hps I Hflags Hmat) as (cur2 & p2 & Hd & D).
  unfold AddNodes_slot. cbn [fst snd]. rewrite Hd. cbn [mbind Res_bind].
  pose proof (dp_inv _ _ _ _ _ _ _ _ _ D) as I2.
  destruct (dp_new _ _ _ _ _ _ _ _ _ D) as (new2 & E2 & Hnew2).
  assert (Hps2 : p2 !! self = Some ps).
  { rewrite E2. rewrite lookup_app_l; [exact Hps |].
    eapply lookup_lt_Some. exact Hps. }
  pose proof (TreeInv_index _ _ _ _ _ I2 Hps2) as Hself2.
  destruct (AddNodes_merge_spec self i cur2 prev) as (g & Hg1 & Hg2 & Hg3).
  { intros Hc. pose proof (child_in_range _ _ _ _ _ _ I2 Hps2 Hc). lia. }
  destruct (AddNodes_merge self i cur2 prev) as [cur3 prev'] eqn:Em.
  cbn [fst] in Hg1. subst cur3.
  exists (alter g self cur2), p2, prev'. split; [reflexivity |].
  assert (Hch : forall k j, child (node_at (alter g self cur2) k) j
                            = child (node_at cur2 k) j).
  { intros k j. apply child_same_children.
    apply (node_at_alter_proj Children). intros n. apply Hg2. }
  constructor.
  - apply TreeInv_alter; [| exact I2]. intros n. split; apply Hg2.
  - exists (new ++ new2). split.
    + rewrite E2, Enew, <- app_assoc. reflexivity.
    + apply Forall_app. split; assumption.
  - intros k q Hq Hn.
    assert (Hks : k <> self).
    { intros ->. apply Hn. replace q with ps by congruence. reflexivity. }
    rewrite node_at_alter_ne by congruence.
    assert (Hq' : pcur !! k = Some q).
    { rewrite Enew. rewrite lookup_app_l; [exact Hq |].
      eapply lookup_lt_Some. exact Hq. }
    rewrite (dp_frame _ _ _ _ _ _ _ _ _ D k q Hq'); [| | exact Hks].
    + apply (Hframe k q Hq Hn).
    + intros Hp. apply Hn. eapply prefix_snoc_l. exact Hp.
  - intros k q Hq Hn.
    assert (Hks : k <> self).
    { intros ->. apply Hn. replace q with ps by congruence. reflexivity. }
    apply (FlagsOKAt_transfer cur2).
    + apply node_at_alter_ne. congruence.
    + intros j Hj.
      pose proof (child_not_ancestor _ _ _ _ _ _ _ _ I2 Hq Hps2 Hn Hj).
      apply node_at_alter_ne. congruence.
    + exact (dp_flags _ _ _ _ _ _ _ _ _ D k q Hq Hn).
  - intros HM k Hk. rewrite length_alter in Hk.
    rewrite (node_at_alter_proj HasMaterial) by (intros n; apply Hg2).
    apply (dp_mat _ _ _ _ _ _ _ _ _ D HM k Hk).
  - intros Hcu j Hj. rewrite !Hch. intros Hc.
    pose proof (child_in_range _ _ _ _ _ _ I2 Hps2 Hc) as Hrange.
    rewrite node_at_alter_ne by lia.
    rewrite node_at_alter_eq in Hcu by exact Hself2.
    destruct (Nat.eq_dec j i) as [-> | Hji].
    + apply Hg3; assumption.
    + assert (Hcu2 : CompleteAndUniform (node_at cur self) = true).
      { rewrite <- (dp_self_flags _ _ _ _ _ _ _ _ _ D). apply Hg2. exact Hcu. }
      pose proof (dp_self_children _ _ _ _ _ _ _ _ _ D j Hji) as Ej.
      rewrite Ej in Hc, Hrange |- *.
      pose proof (inv_child _ _ _ I self ps j Hps Hc) as Hpj.
      rewrite (dp_frame _ _ _ _ _ _ _ _ _ D _ _ Hpj).
      * apply Hselfi; [exact Hcu2 | lia | exact Hc].
      * intros Hp. apply (prefix_siblings ps [] i j); [congruence |].
        rewrite app_nil_r. exact Hp.
      * lia.
Qed.

Lemma visit_shape (n : FNode) :
  Children (AddNodes_visit rd region idx n) = Children n
  /\ ParentIndex (AddNodes_visit rd region idx n) = ParentIndex n.
Proof. split; reflexivity. Qed.

Lemma BuildLoop_start (lower self : nat) (ps : list nat)
    (nodes : list FNode) (paths : list (list nat)) :
  BuildPre d M (S lower) self ps nodes paths ->
  BuildLoop d M self ps (alter (AddNodes_visit rd region idx) self nodes) paths 0
            (alter (AddNodes_visit rd region idx) self nodes) paths.
Proof.
  intros [I Hps Hlevel Hflags Hmat].
  pose proof (TreeInv_index _ _ _ _ _ I Hps) as Hself.
  constructor.
  - apply TreeInv_alter; [apply visit_shape | exact I].
  - exists []. rewrite app_nil_r. split; [reflexivity | constructor].
  - reflexivity.
  - intros k q Hq Hn.
    assert (Hks : k <> self).
    { intros ->. apply Hn. replace q with ps by congruence. reflexivity. }
    apply (FlagsOKAt_transfer nodes).
    + apply node_at_alter_ne. congruence.
    + intros j Hj.
      pose proof (child_not_ancestor _ _ _ _ _ _ _ _ I Hq Hps Hn Hj).
      apply node_at_alter_ne. congruence.
    + exact (Hflags k q Hq Hn).
  - intros HM k Hk. rewrite length_alter in Hk.
    destruct (Nat.eq_dec k self) as [-> | Hks].
    + rewrite node_at_alter_eq by exact Hself. exact (M_has HM).
    + rewrite node_at_alter_ne by congruence. apply Hmat; assumption.
  - intros _ j Hj. lia.
Qed.

Lemma BuildPost_of_loop (self : nat) (ps : list nat)
    (nodes : list FNode) (paths : list (list nat))
    (cur : list FNode) (pcur : list (list nat)) :
  TreeInv d nodes paths ->
  paths !! self = Some ps ->
  BuildLoop d M self ps (alter (AddNodes_visit rd region idx) self nodes) paths 4
            cur pcur ->
  BuildPost d M ps nodes paths cur pcur.
Proof.
  intros I0 Hps0 [I (new & Enew & Hnew) Hframe Hflags Hmat Hselfi].
  assert (Hps : pcur !! self = Some ps).
  { rewrite Enew. rewrite lookup_app_l; [exact Hps0 |].
    eapply lookup_lt_Some. exact Hps0. }
  constructor.
  - exact I.
  - exists new. split; assumption.
  - intros k q Hq Hn. rewrite (Hframe k q Hq Hn).
    apply node_at_alter_ne. intros <-. apply Hn.
    replace q with ps by congruence. reflexivity.
  - intros k q Hq Hn.
    destruct (decide (q = ps)) as [-> | Hne].
    + assert (k = self) by (eapply TreeInv_injective; eauto). subst k.
      intros Hcu j Hc. apply Hselfi; [exact Hcu | | exact Hc].
      eapply TreeInv_child_slot; [exact I | | exact Hc].
      eapply TreeInv_index; eauto.
    + apply (Hflags k q Hq). intros Hp. apply Hn. split; assumption.
  - exact Hmat.
Qed.

(** [AddNodes] keeps the arena a quadtree of depth at most [d], within
    the capacity of a full tree, and touches the subtree of its receiver
    only. *)
Lemma AddNodes_spec (lod : nat) :
  forall self nodes paths ps,
    BuildPre d M lod self ps nodes paths ->
    exists nodes' paths',
      AddNodes rd cap mesh region idx lod self nodes = Ret nodes'
      /\ BuildPost d M ps nodes paths nodes' paths'.
Proof.
  induction lod as [| lower IH]; intros self nodes paths ps Pre.
  - destruct Pre as [I Hps Hlevel Hflags Hmat].
    pose proof (TreeInv_index _ _ _ _ _ I Hps) as Hself.
    cbn [AddNodes]. eexists. exists paths. split; [reflexivity |].
    constructor.
    + apply TreeInv_alter; [apply visit_shape | exact I].
    + exists []. rewrite app_nil_r. split; [reflexivity | constructor].
    + intros k q Hq Hn. apply node_at_alter_ne. intros <-. apply Hn.
      replace q with ps by congruence. reflexivity.
    + intros k q Hq Hn.
      destruct (decide (q = ps)) as [-> | Hne].
      * assert (k = self) by (eapply TreeInv_injective; eauto). subst k.
        intros _ j Hc. exfalso.
        rewrite node_at_alter_eq in Hc by exact Hself.
        change (child (AddNodes_visit rd region idx (node_at nodes self)) j)
          with (child (node_at nodes self) j) in Hc.
        pose proof (inv_child _ _ _ I self ps j Hps Hc) as Hp.
        destruct (inv_valid _ _ _ I _ _ Hp) as [Hl _].
        rewrite length_app in Hl. cbn [length] in Hl. lia.
      * assert (Hnp : ~ q `prefix_of` ps).
        { intros Hp. apply Hn. split; assumption. }
        assert (Hks : k <> self).
        { intros ->. apply Hne. congruence. }
        apply (FlagsOKAt_transfer nodes).
        -- apply node_at_alter_ne. congruence.
        -- intros j Hj.
           pose proof (child_not_ancestor _ _ _ _ _ _ _ _ I Hq Hps Hnp Hj).
           apply node_at_alter_ne. congruence.
        -- exact (Hflags k q Hq Hnp).
    + intros HM k Hk. rewrite length_alter in Hk.
      destruct (Nat.eq_dec k self) as [-> | Hks].
      * rewrite node_at_alter_eq by exact Hself. exact (M_has HM).
      * rewrite node_at_alter_ne by congruence. apply Hmat; assumption.
  - pose proof (BuildLoop_start lower self ps nodes paths Pre) as L0.
    destruct Pre as [I Hps Hlevel Hflags Hmat].
    cbn [AddNodes].
    set (nodes1 := alter (AddNodes_visit rd region idx) self nodes) in *.
    set (hb := HalfBoundSizeOf (Bounds (node_at nodes1 self))).
    assert (Hslot : forall i cur pcur prev, (i < 4)%nat ->
               BuildLoop d M self ps nodes1 paths i cur pcur ->
               exists cur' pcur' prev',
                 AddNodes_slot cap mesh region
                   (AddNodes rd cap mesh region idx lower) self hb i (cur, prev)
                 = Ret (cur', prev')
                 /\ BuildLoop d M self ps nodes1 paths (S i) cur' pcur').
    { intros i cur pcur prev Hi L.
      eapply AddNodes_slot_spec; eauto. }
    unfold four_slots. cbn [for_slots].
    destruct (Hslot 0%nat _ _ (node_at nodes1 0) ltac:(lia) L0)
      as (c1 & p1 & v1 & E1 & L1).
    rewrite E1. cbn [mbind Res_bind].
    destruct (Hslot 1%nat _ _ v1 ltac:(lia) L1) as (c2 & p2 & v2 & E2 & L2).
    rewrite E2. cbn [mbind Res_bind].
    destruct (Hslot 2%nat _ _ v2 ltac:(lia) L2) as (c3 & p3 & v3 & E3 & L3).
    rewrite E3. cbn [mbind Res_bind].
    destruct (Hslot 3%nat _ _ v3 ltac:(lia) L3) as (c4 & p4 & v4 & E4 & L4).
    rewrite E4. cbn [mbind Res_bind mret Res_ret fst].
    exists c4, p4. split; [reflexivity |].
    apply (BuildPost_of_loop self); assumption.
Qed.
End BuildInvariant.

(** ** The build phase as a whole *)

Lemma TreeInv_root (d : nat) (root : FNode) :
  Children root = [0; 0; 0; 0]%nat -> ParentIndex root = None ->
  TreeInv d [root] [[]].
Proof.
  intros Hc Hp.
  assert (Hroot : forall k, (k < 1)%nat -> node_at [root] k = root).
  { intros k Hk. assert (k = 0%nat) by lia. subst k. reflexivity. }
  assert (Hk0 : forall (k : nat) (q : list nat), [[]] !! k = Some q -> k = 0%nat).
  { intros k q Hq. apply lookup_lt_Some in Hq. cbn in Hq. lia. }
  constructor.
  - reflexivity.
  - reflexivity.
  - exact Hp.
  - apply NoDup_singleton.
  - intros k q Hq. pose proof (Hk0 k q Hq). subst k. injection Hq as <-.
    split; [cbn; lia | constructor].
  - intros k Hk. cbn [length] in Hk. rewrite Hroot by exact Hk. rewrite Hc. reflexivity.
  - intros k q i Hq Hch. pose proof (Hk0 k q Hq). subst k.
    unfold child in Hch. cbn [node_at nth] in Hch. rewrite Hc in Hch.
    destruct i as [| [| [| [| [| i]]]]]; cbn in Hch; lia.
  - intros c qc Hc0 Hq. pose proof (Hk0 c qc Hq). lia.
Qed.

Lemma Built_init (W : bool) (this : FMeshQuadTree) (InBounds : FBox2D.t)
    (InTileSize : Q) (e : Z * Z) :
  exists d, Built W d (InitTree this InBounds InTileSize e).
Proof.
  destruct (InitTree_shape this InBounds InTileSize e) as (d & Hd & Hcap & Hn & _ & Hro).
  exists d. unfold Built. rewrite Hd, Hro, Hn.
  split; [reflexivity |]. split; [exact Hcap |]. split; [reflexivity |].
  exists [[]].
  split; [apply TreeInv_root; reflexivity |].
  split.
  - intros k q Hq _ i Hi. apply lookup_lt_Some in Hq. cbn in Hq.
    assert (k = 0%nat) by lia. subst k.
    unfold child in Hi. cbn in Hi.
    destruct i as [| [| [| [| [| i]]]]]; cbn in Hi; lia.
  - intros _ k Hk. cbn [length] in Hk. lia.
Qed.

Lemma Built_AddRenderData (W : bool) (d : nat) (t : FMeshQuadTree)
    (r : FQuadMeshRenderData) :
  Built W d t -> Built W d (fst (AddQuadMeshRenderData t r)).
Proof. intros H. exact H. Qed.

Lemma Built_AddRegion (W : bool) (d : nat) (t : FMeshQuadTree)
    (b : FBox.t) (i : nat) :
  Built W d t ->
  (W = true -> HasMaterialAt (QuadMeshRenderData (NodeData t)) i = true) ->
  exists t',
    AddQuadMeshTilesInsideBounds t b i = Ret t'
    /\ Built W d t'
    /\ NodesMax (NodeData t') = NodesMax (NodeData t)
    /\ QuadMeshRenderData (NodeData t') = QuadMeshRenderData (NodeData t).
Proof.
  intros (Hd & Hcap & Hro & paths & I & Hflags & Hmat) HW.
  unfold AddQuadMeshTilesInsideBounds. rewrite Hro, Hd, Nat2Z.id.
  destruct (AddNodes_spec (QuadMeshRenderData (NodeData t)) (NodesMax (NodeData t))
              (FBox.make (FVector.of2D (FBox2D.Min (TileRegion t)) 0)
                         (FVector.of2D (FBox2D.Max (TileRegion t)) 0))
              b i d W HW Hcap d 0%nat (Nodes (NodeData t)) paths [])
    as (nodes' & paths' & Hadd & P).
  { constructor.
    - exact I.
    - exact (inv_root _ _ _ I).
    - reflexivity.
    - intros k q Hq _. exact (Hflags k q Hq).
    - intros HM k Hk _. apply Hmat; assumption. }
  rewrite Hadd. cbn [mbind Res_bind]. eexists. split; [reflexivity |].
  split; [| split; reflexivity].
  unfold Built. cbn.
  split; [exact Hd |]. split; [exact Hcap |]. split; [exact Hro |].
  exists paths'.
  split; [exact (bp_inv _ _ _ _ _ _ _ P) |].
  split; [| exact (bp_mat _ _ _ _ _ _ _ P)].
  intros k q Hq. apply (bp_flags _ _ _ _ _ _ _ P k q Hq).
  intros [Hp Hne]. apply Hne. apply prefix_nil_inv in Hp. exact Hp.
Qed.

Lemma RunBuild_built (W : bool) (d : nat) (ops : list BuildOp) :
  forall t,
    Built W d t ->
    (W = true -> RegionsHaveMaterial (QuadMeshRenderData (NodeData t)) ops) ->
    exists t',
      RunBuild t ops = Ret t'
      /\ Built W d t'
      /\ NodesMax (NodeData t') = NodesMax (NodeData t).
Proof.
  induction ops as [| [r | b i] ops IH]; intros t HB HW.
  - exists t. split; [reflexivity |]. split; [exact HB | reflexivity].
  - cbn [RunBuild].
    destruct (IH (fst (AddQuadMeshRenderData t r))) as (t' & Hr & HB' & Hc).
    + apply Built_AddRenderData. exact HB.
    + intros Hw. exact (HW Hw).
    + exists t'. split; [exact Hr |]. split; [exact HB' | exact Hc].
  - cbn [RunBuild].
    destruct (Built_AddRegion W d t b i HB) as (t1 & Ha & HB1 & Hc1 & Hrd1).
    { intros Hw. exact (proj1 (HW Hw)). }
    rewrite Ha. cbn [mbind Res_bind].
    destruct (IH t1 HB1) as (t' & Hr & HB' & Hc).
    { intros Hw. rewrite Hrd1. exact (proj2 (HW Hw)). }
    exists t'. split; [exact Hr |]. split; [exact HB' |]. congruence.
Qed.

Lemma Built_count (W : bool) (d : nat) (t : FMeshQuadTree) :
  Built W d t -> (Z.of_nat (GetNodeCount t) <= NodesMax (NodeData t))%Z.
Proof.
  intros (_ & Hcap & _ & paths & I & _).
  pose proof (TreeInv_count _ _ _ I). unfold GetNodeCount. lia.
Qed.

Lemma Built_depth_count (W : bool) (d : nat) (t : FMeshQuadTree) :
  Built W d t -> (GetNodeCount t <= FullCount d)%nat.
Proof.
  intros (_ & _ & _ & paths & I & _).
  exact (TreeInv_count _ _ _ I).
Qed.

(** C9, as the code has it.  For an extent with components from 1 to
    16384 and render data and regions whose indices lie inside the
    render-data table, every insertion returns (the capacity check of
    [AddNodes] does not fail), the arena holds at most as many nodes as
    the full quadtree of the computed depth has, and that count is at
    most the reserve of [InitTree], a value of [int32] that no insertion
    changes.  Up to depth 11 the reserve is that count. *)
Theorem Build_within_capacity (this : FMeshQuadTree) (InBounds : FBox2D.t)
    (InTileSize : Q) (e : Z * Z) (ops : list BuildOp) :
  ExtentWithinReserve e ->
  RegionsInTable [DefaultRenderData] ops ->
  let t0 := InitTree this InBounds InTileSize e in
  let d := Z.to_nat (TreeDepth t0) in
  exists t,
    RunBuild t0 ops = Ret t
    /\ (GetNodeCount t <= FullCount d)%nat
    /\ (Z.of_nat (FullCount d) <= NodesMax (NodeData t0) < 2 ^ 31)%Z
    /\ NodesMax (NodeData t) = NodesMax (NodeData t0)
    /\ ((d <= 11)%nat -> NodesMax (NodeData t0) = Z.of_nat (FullCount d)).
Proof.
  intros He _ t0 d.
  destruct (RootDim_within_reserve e He) as (k & Hk & Hr & _).
  assert (Hd : TreeDepth t0 = Z.of_nat k).
  { subst t0. unfold InitTree. cbn [TreeDepth]. rewrite Hr.
    apply Z.log2_pow2. lia. }
  assert (Hdk : d = k) by (subst d; rewrite Hd; apply Nat2Z.id).
  assert (Hcap : NodesMax (NodeData t0) = InitCapacity (2 ^ Z.of_nat k)).
  { subst t0. unfold InitTree. cbn [NodesMax NodeData]. rewrite Hr. reflexivity. }
  destruct (InitCapacity_table k ltac:(lia)) as (C1 & C2 & C3).
  destruct (Built_init false this InBounds InTileSize e) as (d' & HB).
  fold t0 in HB.
  assert (Hd' : d' = k).
  { destruct HB as (HBd & _). rewrite Hd in HBd. lia. }
  subst d'.
  destruct (RunBuild_built false k ops t0 HB) as (t & Hrun & HB' & Hc).
  { intros Hw. discriminate Hw. }
  exists t. rewrite Hdk, Hcap.
  split; [exact Hrun |].
  split; [exact (Built_depth_count _ _ _ HB') |].
  split; [split; [exact C1 | exact (C3 Hk)] |].
  split; [rewrite Hc; exact Hcap |].
  exact C2.
Qed.

Lemma Build_within_capacity_witness :
  exists t,
    RunBuild Tree256 Build256_full = Ret t
    /\ (GetNodeCount t <= FullCount 3)%nat
    /\ NodesMax (NodeData Tree256) = Z.of_nat (FullCount 3).
Proof.
  assert (He : ExtentWithinReserve (4, 4)%Z).
  { unfold ExtentWithinReserve. cbn. lia. }
  assert (Hops : RegionsInTable [DefaultRenderData] Build256_full).
  { cbn. lia. }
  destruct (Build_within_capacity EmptyTree Bounds256 32 (4, 4)%Z Build256_full
              He Hops) as (t & Hr & Hn & _ & _ & Hc).
  exists t. split; [exact Hr |]. split; [exact Hn |].
  apply Hc. vm_compute. lia.
Defined.

(** C9 as stated fails in what it takes the reserve to be.  With 2048
    tiles along each axis [RootDim] is 4096 and the depth 12; the full
    quadtree has 22369621 nodes, and the [float] quotient
    [4096 * 4096 * 4 / 3.0f] is 22369622.  With 16385 tiles along an
    axis [RootDim] is 65536 and the quotient, 5726623232, is no value of
    [int32], the size type of the arena. *)
Lemma Reserve_is_not_full_count :
  let B := FBox2D.mk (FVector2D.mk 0 0) (FVector2D.mk 65536 65536) in
  let t := InitTree EmptyTree B 32 (2048, 2048)%Z in
  ValidInit B 32 (2048, 2048)%Z
  /\ TreeDepth t = 12%Z
  /\ Z.of_nat (FullCount 12) = 22369621%Z
  /\ NodesMax (NodeData t) = 22369622%Z
  /\ NodesMax (NodeData t) <> Z.of_nat (FullCount (Z.to_nat (TreeDepth t)))
  /\ (2 ^ 31 <= NodesMax (NodeData (InitTree EmptyTree B 32 (16385, 1)%Z)))%Z.
Proof.
  intros B t.
  assert (HF : Z.of_nat (FullCount 12) = 22369621%Z).
  { pose proof (FullCount_pow_Z 12) as H.
    change (4 ^ (Z.of_nat 12 + 1))%Z with 67108864%Z in H. lia. }
  assert (Hd : TreeDepth t = 12%Z) by (vm_compute; reflexivity).
  assert (Hc : NodesMax (NodeData t) = 22369622%Z) by (vm_compute; reflexivity).
  split.
  { unfold ValidInit. repeat split; first [reflexivity | cbn; lia]. }
  split; [exact Hd |]. split; [exact HF |]. split; [exact Hc |].
  split.
  { rewrite Hd. change (Z.to_nat 12) with 12%nat. rewrite HF, Hc. discriminate. }
  vm_compute. discriminate.
Qed.

(** ** Arenas the height query cannot tell apart *)

Lemma QueryBaseHeight_simulation (rd : list FQuadMeshRenderData)
    (sigma : nat -> nat) (V : nat -> Prop) (cur cur' : list FNode)
    (cap cap' : Z) (p : FVector2D.t) :
  sigma 0%nat = 0%nat ->
  (forall c, V c -> (0 < c)%nat -> (0 < sigma c)%nat) ->
  Simulates sigma V cur cur' ->
  forall fuel k,
    V k ->
    QueryBaseHeightAtLocation fuel (mkNodeData cur' cap' rd) (node_at cur' (sigma k)) p
    = QueryBaseHeightAtLocation fuel (mkNodeData cur cap rd) (node_at cur k) p.
Proof.
  intros H0 Hpos Hsim.
  induction fuel as [| fuel IH]; intros k Hk; [reflexivity |].
  destruct (Hsim k Hk) as (Hq & Hc & Hs & Hb & Hch).
  cbn [QueryBaseHeightAtLocation]. cbn [QuadMeshRenderData Nodes].
  rewrite Hq, Hc, Hs.
  destruct (HasCompleteSubtree (node_at cur k) && IsSubtreeSameQuadMesh (node_at cur k))
    eqn:Hcu; [reflexivity |].
  destruct (Hch Hcu) as [Ech HV]. rewrite Ech.
  set (fb := SurfaceBaseHeight (render_at rd (QuadMeshIndex (node_at cur k)))).
  clear Ech Hch Hq Hc Hs Hb Hcu.
  induction (Children (node_at cur k)) as [| c cs IHcs]; [reflexivity |].
  cbn [map QueryBaseHeight_children].
  assert (HVcs : forall c', In c' cs -> (0 < c')%nat -> V c').
  { intros c' Hin. apply HV. right. exact Hin. }
  destruct (Nat.ltb_spec 0 c) as [Hc0 | Hc0].
  - assert (HVc : V c) by (apply HV; [left; reflexivity | exact Hc0]).
    pose proof (Hpos c HVc Hc0) as Hsc. apply Nat.ltb_lt in Hsc. rewrite Hsc.
    destruct (Hsim c HVc) as (_ & _ & _ & Hbc & _). rewrite Hbc.
    destruct (InsideOrOnMin p (Bounds (node_at cur c))).
    + apply IH. exact HVc.
    + apply IHcs. exact HVcs.
  - assert (c = 0%nat) by lia. subst c. rewrite H0. cbn [Nat.ltb Nat.leb].
    apply IHcs. exact HVcs.
Qed.

Lemma SameHeights_of_simulation (rd : list FQuadMeshRenderData)
    (sigma : nat -> nat) (V : nat -> Prop) (cur cur' : list FNode) :
  sigma 0%nat = 0%nat ->
  (forall c, V c -> (0 < c)%nat -> (0 < sigma c)%nat) ->
  V 0%nat ->
  Simulates sigma V cur cur' ->
  SameHeights rd cur cur'.
Proof.
  intros H0 Hpos HV0 Hsim fuel p cap cap'.
  rewrite <- H0 at 1.
  apply (QueryBaseHeight_simulation rd sigma V); assumption.
Qed.

Lemma SameHeights_trans (rd : list FQuadMeshRenderData) (a b c : list FNode) :
  SameHeights rd a b -> SameHeights rd b c -> SameHeights rd a c.
Proof.
  intros H1 H2 fuel p cap cap'. rewrite (H2 fuel p cap cap'). apply H1.
Qed.

Lemma SameHeights_refl (rd : list FQuadMeshRenderData) (a : list FNode) :
  SameHeights rd a a.
Proof.
  apply (SameHeights_of_simulation rd (fun k => k) (fun _ => True)).
  - reflexivity.
  - intros c _ Hc. exact Hc.
  - exact I.
  - intros k _.
    split; [reflexivity |]. split; [reflexivity |]. split; [reflexivity |].
    split; [reflexivity |]. intros _.
    split; [symmetry; apply map_id | intros; exact I].
Qed.

(** ** The patch loop of [SwapRemove] *)

Lemma node_at_alter_field {A} (P : FNode -> A) (g : FNode -> FNode) (k j : nat)
    (l : list FNode) :
  (forall n, P (g n) = P n) -> P (node_at (alter g k l) j) = P (node_at l j).
Proof.
  intros Hg. destruct (Nat.eq_dec k j) as [<- | Hne].
  - destruct (Nat.lt_ge_cases k (length l)) as [Hk | Hk].
    + rewrite node_at_alter_eq by exact Hk. apply Hg.
    + unfold node_at. rewrite !nth_overflow by (rewrite ?length_alter; lia).
      reflexivity.
  - rewrite node_at_alter_ne by exact Hne. reflexivity.
Qed.

Lemma SameData_refl (n : FNode) : SameData n n.
Proof. repeat split. Qed.

Lemma SameData_trans (a b c : FNode) : SameData a b -> SameData b c -> SameData a c.
Proof.
  intros (A1 & A2 & A3 & A4 & A5 & A6) (B1 & B2 & B3 & B4 & B5 & B6).
  repeat split; congruence.
Qed.

Lemma SameData_alter (g : FNode -> FNode) (k j : nat) (l : list FNode) :
  (forall n, SameData (g n) n) -> SameData (node_at (alter g k l) j) (node_at l j).
Proof.
  intros Hg. destruct (Nat.eq_dec k j) as [<- | Hne].
  - destruct (Nat.lt_ge_cases k (length l)) as [Hk | Hk].
    + rewrite node_at_alter_eq by exact Hk. apply Hg.
    + unfold node_at. rewrite !nth_overflow by (rewrite ?length_alter; lia).
      apply SameData_refl.
  - rewrite node_at_alter_ne by exact Hne. apply SameData_refl.
Qed.

Lemma SwapRemove_patch_step (j e pm : nat) (Mn : FNode) (S : list FNode)
    (i : nat) (N : list FNode) :
  (i < 4)%nat ->
  pm <> j -> (pm < length S)%nat ->
  (forall i', child Mn i' <> j) ->
  (forall i', (0 < child Mn i')%nat -> (child Mn i' < length S)%nat) ->
  PatchInv j e pm Mn S i N ->
  PatchInv j e pm Mn S (Datatypes.S i) (SwapRemove_patch j e (Some pm) N i).
Proof.
  intros Hi Hpmj Hpm Hcj Hcr [Hlen Hmoved Hdata Hnew Hold Hch Hpl Hpmc].
  unfold SwapRemove_patch. rewrite Hmoved.
  set (c := child Mn i).
  set (N1 := if (0 <? c)%nat then alter (setParentIndex (Some j)) c N else N).
  assert (HN1len : length N1 = length N).
  { subst N1. destruct (0 <? c)%nat; [apply length_alter | reflexivity]. }
  assert (HN1ch : forall k, Children (node_at N1 k) = Children (node_at N k)).
  { intros k. subst N1. destruct (0 <? c)%nat; [| reflexivity].
    apply (node_at_alter_field Children). reflexivity. }
  assert (HN1data : forall k, SameData (node_at N1 k) (node_at N k)).
  { intros k. subst N1. destruct (0 <? c)%nat; [| apply SameData_refl].
    apply SameData_alter. intros n. repeat split. }
  assert (HN1par : forall k,
             ParentIndex (node_at N1 k)
             = if (0 <? c)%nat && (k =? c)%nat then Some j
               else ParentIndex (node_at N k)).
  { intros k. subst N1. destruct (Nat.ltb_spec 0 c) as [Hc | Hc]; [| reflexivity].
    cbn [andb]. destruct (Nat.eqb_spec k c) as [-> | Hne].
    - rewrite node_at_alter_eq; [reflexivity |].
      rewrite Hlen. apply Hcr. exact Hc.
    - rewrite node_at_alter_ne by congruence. reflexivity. }
  assert (HN1j : node_at N1 j = Mn).
  { subst N1. destruct (0 <? c)%nat; [| exact Hmoved].
    rewrite node_at_alter_ne; [exact Hmoved | apply Hcj]. }
  assert (Hslot : child (node_at N1 pm) i = child (node_at S pm) i).
  { rewrite (child_same_children _ _ i (HN1ch pm)), Hpmc.
    rewrite Nat.ltb_irrefl. reflexivity. }
  rewrite Hslot.
  set (N2 := if (child (node_at S pm) i =? e)%nat
             then alter (setChild i j) pm N1 else N1).
  assert (HN2par : forall k, ParentIndex (node_at N2 k) = ParentIndex (node_at N1 k)).
  { intros k. subst N2. destruct (child (node_at S pm) i =? e)%nat; [| reflexivity].
    apply (node_at_alter_field ParentIndex). reflexivity. }
  assert (Hlive : forall k, LiveChildOf Mn (Datatypes.S i) k
                            <-> LiveChildOf Mn i k \/ ((0 < c)%nat /\ c = k)).
  { intros k. split.
    - intros (i' & Hi' & Hpos & E).
      destruct (Nat.eq_dec i' i) as [-> | Hne]; [right; split; assumption |].
      left. exists i'. repeat split; [lia | assumption | assumption].
    - intros [(i' & Hi' & Hpos & E) | [Hpos E]].
      + exists i'. repeat split; [lia | assumption | assumption].
      + exists i. repeat split; [lia | assumption | assumption]. }
  constructor.
  - subst N2. destruct (child (node_at S pm) i =? e)%nat;
      rewrite ?length_alter; congruence.
  - subst N2. destruct (child (node_at S pm) i =? e)%nat; [| exact HN1j].
    rewrite node_at_alter_ne by exact Hpmj. exact HN1j.
  - intros k. eapply SameData_trans; [| apply Hdata].
    eapply SameData_trans; [| apply HN1data].
    subst N2. destruct (child (node_at S pm) i =? e)%nat; [| apply SameData_refl].
    apply SameData_alter. intros n. repeat split.
  - intros k Hk. rewrite HN2par, HN1par. apply Hlive in Hk as [Hk | [Hpos <-]].
    + destruct ((0 <? c)%nat && (k =? c)%nat); [reflexivity | apply Hnew; exact Hk].
    + apply Nat.ltb_lt in Hpos. rewrite Hpos, Nat.eqb_refl. reflexivity.
  - intros k Hk. rewrite HN2par, HN1par.
    destruct (Nat.ltb_spec 0 c) as [Hc | Hc]; cbn [andb].
    + destruct (Nat.eqb_spec k c) as [-> | Hne].
      * exfalso. apply Hk. apply Hlive. right. split; [exact Hc | reflexivity].
      * apply Hold. intros H. apply Hk. apply Hlive. left. exact H.
    + apply Hold. intros H. apply Hk. apply Hlive. left. exact H.
  - intros k Hk. rewrite <- Hch by exact Hk. rewrite <- HN1ch.
    subst N2. destruct (child (node_at S pm) i =? e)%nat; [| reflexivity].
    rewrite node_at_alter_ne by congruence. reflexivity.
  - subst N2. destruct (child (node_at S pm) i =? e)%nat.
    + rewrite node_at_alter_eq by (rewrite HN1len, Hlen; exact Hpm).
      unfold setChild. cbn [Children setChildren]. rewrite length_insert, HN1ch.
      exact Hpl.
    + rewrite HN1ch. exact Hpl.
  - intros i'.
    assert (Hbase : child (node_at N1 pm) i'
                    = if (i' <? i)%nat && (child (node_at S pm) i' =? e)%nat
                      then j else child (node_at S pm) i').
    { rewrite (child_same_children _ _ i' (HN1ch pm)). apply Hpmc. }
    subst N2. destruct (Nat.eqb_spec (child (node_at S pm) i) e) as [He | He].
    + rewrite node_at_alter_eq by (rewrite HN1len, Hlen; exact Hpm).
      destruct (Nat.eq_dec i i') as [<- | Hne].
      * rewrite child_setChild_eq by (rewrite HN1ch, Hpl; exact Hi).
        assert (Hlt : (i <? Datatypes.S i)%nat = true) by (apply Nat.ltb_lt; lia).
        rewrite Hlt, He, Nat.eqb_refl. reflexivity.
      * rewrite child_setChild_ne by exact Hne. rewrite Hbase.
        assert (Hlt : (i' <? Datatypes.S i)%nat = (i' <? i)%nat).
        { destruct (Nat.ltb_spec i' (Datatypes.S i)), (Nat.ltb_spec i' i);
            try reflexivity; lia. }
        rewrite Hlt. reflexivity.
    + rewrite Hbase.
      destruct (Nat.eq_dec i i') as [<- | Hne].
      * rewrite Nat.ltb_irrefl. cbn [andb].
        apply Nat.eqb_neq in He. rewrite He, andb_false_r. reflexivity.
      * assert (Hlt : (i' <? Datatypes.S i)%nat = (i' <? i)%nat).
        { destruct (Nat.ltb_spec i' (Datatypes.S i)), (Nat.ltb_spec i' i);
            try reflexivity; lia. }
        rewrite Hlt. reflexivity.
Qed.

Lemma node_at_insert_eq (l : list FNode) (k : nat) (x : FNode) :
  (k < length l)%nat -> node_at (<[k := x]> l) k = x.
Proof.
  intros H. apply node_at_lookup. apply list_lookup_insert_eq. exact H.
Qed.

Lemma node_at_insert_ne (l : list FNode) (k j : nat) (x : FNode) :
  k <> j -> node_at (<[k := x]> l) j = node_at l j.
Proof.
  intros H. unfold node_at. rewrite !nth_lookup.
  rewrite list_lookup_insert_ne by exact H. reflexivity.
Qed.

Lemma children4_ext (a b : list nat) (f : nat -> nat) :
  length a = 4%nat -> length b = 4%nat ->
  (forall i, (i < 4)%nat -> nth i a 0%nat = f (nth i b 0%nat)) ->
  a = map f b.
Proof.
  intros Ha Hb H.
  destruct a as [| a0 [| a1 [| a2 [| a3 [| ? ?]]]]]; try discriminate Ha.
  destruct b as [| b0 [| b1 [| b2 [| b3 [| ? ?]]]]]; try discriminate Hb.
  pose proof (H 0%nat ltac:(lia)) as H0. pose proof (H 1%nat ltac:(lia)) as H1.
  pose proof (H 2%nat ltac:(lia)) as H2. pose proof (H 3%nat ltac:(lia)) as H3.
  cbn in H0, H1, H2, H3. cbn [map]. congruence.
Qed.

Lemma SwapRemove_spec (j e pm : nat) (cur : list FNode) :
  (j < e)%nat -> (e < length cur)%nat ->
  ParentIndex (node_at cur e) = Some pm ->
  pm <> j -> pm <> e -> (pm < length cur)%nat ->
  length (Children (node_at cur pm)) = 4%nat ->
  (forall i, child (node_at cur e) i <> j) ->
  (forall i, (0 < child (node_at cur e) i)%nat ->
             (child (node_at cur e) i < length cur)%nat) ->
  SwapRemovePost j e pm cur (SwapRemove j e cur).
Proof.
  intros Hje He Hpar Hpmj Hpme Hpm Hpl Hcj Hcr.
  unfold SwapRemove.
  destruct (Nat.eqb_spec j e) as [E | _]; [lia |].
  cbv zeta.
  set (Mn := node_at cur e).
  set (S0 := <[j := Mn]> (<[e := node_at cur j]> cur)).
  assert (HS0len : length S0 = length cur).
  { subst S0. rewrite !length_insert. reflexivity. }
  assert (HS0j : node_at S0 j = Mn).
  { subst S0. apply node_at_insert_eq. rewrite length_insert. lia. }
  assert (HS0k : forall k, k <> j -> k <> e -> node_at S0 k = node_at cur k).
  { intros k Hkj Hke. subst S0.
    rewrite node_at_insert_ne by congruence.
    rewrite node_at_insert_ne by congruence. reflexivity. }
  rewrite HS0j. fold Mn in Hpar. rewrite Hpar.
  assert (P0 : PatchInv j e pm Mn S0 0 S0).
  { constructor; try reflexivity.
    - exact HS0j.
    - intros k. apply SameData_refl.
    - intros k (i' & Hi' & _). lia.
    - rewrite HS0k by assumption. exact Hpl. }
  assert (Hstep : forall i N, (i < 4)%nat -> PatchInv j e pm Mn S0 i N ->
            PatchInv j e pm Mn S0 (S i) (SwapRemove_patch j e (Some pm) N i)).
  { intros i N Hi HN. apply SwapRemove_patch_step; try assumption.
    - rewrite HS0len. exact Hpm.
    - intros i' Hpos. rewrite HS0len. apply Hcr. exact Hpos. }
  unfold four_slots. cbn [fold_left].
  assert (P1 := fun H => Hstep 0%nat _ H P0). specialize (P1 ltac:(lia)).
  assert (P2 := fun H => Hstep 1%nat _ H P1). specialize (P2 ltac:(lia)).
  assert (P3 := fun H => Hstep 2%nat _ H P2). specialize (P3 ltac:(lia)).
  assert (P4 := fun H => Hstep 3%nat _ H P3). specialize (P4 ltac:(lia)).
  destruct P4 as [Hlen Hmoved Hdata Hnew Hold Hch Hpl4 Hpmc].
  constructor.
  - congruence.
  - exact Hmoved.
  - intros k Hkj Hke. rewrite <- (HS0k k) by assumption. apply Hdata.
  - intros k Hkj Hke Hk. apply Hnew. exact Hk.
  - intros k Hkj Hke Hk. rewrite <- (HS0k k) by assumption. apply Hold. exact Hk.
  - intros k Hkj Hke Hkp. rewrite <- (HS0k k) by assumption. apply Hch. exact Hkp.
  - apply children4_ext; [exact Hpl4 | exact Hpl |].
    intros i Hi. specialize (Hpmc i). unfold child in Hpmc at 1. rewrite Hpmc.
    apply Nat.ltb_lt in Hi. rewrite Hi. cbn [andb].
    rewrite HS0k by assumption. unfold MoveIndex, child. reflexivity.
Qed.

(** ** The removal loop of [Unlock] *)

Lemma UInv_of_TreeInv (d : nat) (nodes : list FNode) (paths : list (list nat)) :
  TreeInv d nodes paths ->
  (forall k q, paths !! k = Some q -> FlagsOKAt nodes k) ->
  (forall k, (0 < k < length nodes)%nat -> HasMaterial (node_at nodes k) = true) ->
  (0 < length nodes)%nat ->
  UInv nodes (pred (length nodes)) (pred (length nodes)).
Proof.
  intros I HF HM Hn.
  assert (Hpath : forall k, (k < length nodes)%nat -> exists q, paths !! k = Some q).
  { intros k Hk. apply lookup_lt_is_Some_2. rewrite (inv_len _ _ _ I). exact Hk. }
  constructor.
  - lia.
  - intros k Hk. apply (inv_children_len _ _ _ I). lia.
  - intros k Hk. destruct (Hpath k ltac:(lia)) as [qc Hqc].
    destruct (inv_parent _ _ _ I k qc ltac:(lia) Hqc)
      as (p & q & i & -> & Hq & Hc & Hp & Hlt).
    exists p. split; [exact Hp |]. split; [lia |]. split; [lia |].
    split; [intros _; exact Hlt |]. split.
    + intros Hcu. rewrite <- Hc. apply (HF p q Hq Hcu). rewrite Hc. lia.
    + split; [intros _; exists i; exact Hc | intros; lia].
  - intros q i Hq Hc. destruct (Hpath q ltac:(lia)) as [pq Hpq].
    pose proof (inv_child _ _ _ I q pq i Hpq Hc) as Hcp.
    pose proof (TreeInv_index _ _ _ _ _ I Hcp) as Hlt.
    split; [lia |].
    destruct (inv_parent _ _ _ I _ _ Hc Hcp)
      as (p' & q' & i' & E & Hq' & _ & Hp' & _).
    apply app_inj_tail in E as [-> _].
    rewrite Hp'. f_equal. exact (TreeInv_injective _ _ _ _ _ _ I Hq' Hpq).
  - intros k Hk. apply HM. lia.
Qed.

Lemma UInv_keep (cur : list FNode) (j e p : nat) :
  UInv cur j e -> (1 <= j)%nat ->
  ParentIndex (node_at cur j) = Some p ->
  CompleteAndUniform (node_at cur p) = false ->
  UInv cur (pred j) e.
Proof.
  intros [Hb Hl Hp Hc Hm] Hj Hpar Hcu. constructor.
  - lia.
  - exact Hl.
  - intros k Hk. destruct (Hp k Hk) as (pk & E & H1 & H2 & H3 & H4 & H5 & H6).
    exists pk. split; [exact E |]. split; [exact H1 |]. split; [exact H2 |].
    split; [intros; apply H3; lia |]. split; [exact H4 |]. split; [exact H5 |].
    intros Hk'. destruct (Nat.eq_dec k j) as [-> | Hne].
    + rewrite Hpar in E. injection E as <-. exact Hcu.
    + apply H6. lia.
  - exact Hc.
  - exact Hm.
Qed.

Lemma child_zeroed (n : FNode) (i : nat) :
  child (setChildren [0; 0; 0; 0]%nat n) i = 0%nat.
Proof.
  unfold child. cbn [Children setChildren].
  destruct i as [| [| [| [| [| i]]]]]; reflexivity.
Qed.

Lemma UInv_zero (cur : list FNode) (j e p : nat) :
  UInv cur j e -> (p <= e)%nat ->
  CompleteAndUniform (node_at cur p) = true ->
  UInv (alter (setChildren [0; 0; 0; 0]%nat) p cur) j e.
Proof.
  intros [Hb Hl Hp Hc Hm] Hpe Hcu.
  set (cur' := alter (setChildren [0; 0; 0; 0]%nat) p cur).
  assert (Hpar : forall k, ParentIndex (node_at cur' k) = ParentIndex (node_at cur k)).
  { intros k. apply (node_at_alter_field ParentIndex). reflexivity. }
  assert (Hflag : forall k, CompleteAndUniform (node_at cur' k)
                            = CompleteAndUniform (node_at cur k)).
  { intros k. apply (node_at_alter_field CompleteAndUniform). reflexivity. }
  assert (Hmat : forall k, HasMaterial (node_at cur' k) = HasMaterial (node_at cur k)).
  { intros k. apply (node_at_alter_field HasMaterial). reflexivity. }
  assert (Hne : forall k, k <> p -> node_at cur' k = node_at cur k).
  { intros k Hk. apply node_at_alter_ne. congruence. }
  assert (Heq : node_at cur' p = setChildren [0; 0; 0; 0]%nat (node_at cur p)).
  { apply node_at_alter_eq. lia. }
  constructor.
  - subst cur'. rewrite length_alter. exact Hb.
  - intros k Hk. destruct (Nat.eq_dec k p) as [-> | Hkp].
    + rewrite Heq. reflexivity.
    + rewrite Hne by exact Hkp. apply Hl. exact Hk.
  - intros k Hk. destruct (Hp k Hk) as (pk & E & H1 & H2 & H3 & H4 & H5 & H6).
    exists pk. rewrite Hpar, !Hflag.
    split; [exact E |]. split; [exact H1 |]. split; [exact H2 |].
    split; [exact H3 |]. split; [exact H4 |]. split; [| exact H6].
    intros Hn. assert (pk <> p) by congruence.
    rewrite Hne by assumption. apply H5. exact Hn.
  - intros q i Hq Hci. destruct (Nat.eq_dec q p) as [-> | Hqp].
    + rewrite Heq, child_zeroed in Hci. lia.
    + rewrite Hne in Hci |- * by exact Hqp. rewrite Hpar. apply Hc; assumption.
  - intros k Hk. rewrite Hmat. apply Hm. exact Hk.
Qed.

Lemma UInv_zero_unlinked (cur : list FNode) (j e p : nat) :
  UInv cur j e -> (p <= e)%nat -> (1 <= j)%nat ->
  ParentIndex (node_at cur j) = Some p ->
  forall q i, (q <= e)%nat ->
    child (node_at (alter (setChildren [0; 0; 0; 0]%nat) p cur) q) i <> j.
Proof.
  intros U Hpe Hj Hpar q i Hq E.
  destruct (Nat.eq_dec q p) as [-> | Hqp].
  - rewrite node_at_alter_eq in E by (pose proof (u_bound _ _ _ U); lia).
    rewrite child_zeroed in E. lia.
  - rewrite node_at_alter_ne in E by congruence.
    destruct (u_child _ _ _ U q i Hq ltac:(lia)) as [_ Hp'].
    rewrite E, Hpar in Hp'. congruence.
Qed.

Lemma UInv_remove_last (cur : list FNode) (j : nat) :
  UInv cur j j -> (1 <= j)%nat ->
  (forall q i, (q <= j)%nat -> child (node_at cur q) i <> j) ->
  UInv cur (pred j) (pred j).
Proof.
  intros [Hb Hl Hp Hc Hm] Hj Hun. constructor.
  - lia.
  - intros k Hk. apply Hl. lia.
  - intros k Hk.
    destruct (Hp k ltac:(lia)) as (pk & E & H1 & H2 & H3 & H4 & H5 & H6).
    specialize (H3 ltac:(lia)).
    exists pk. split; [exact E |]. split; [lia |]. split; [exact H2 |].
    split; [intros _; exact H3 |]. split; [exact H4 |]. split; [exact H5 |].
    intros; lia.
  - intros q i Hq Hci. destruct (Hc q i ltac:(lia) Hci) as [Hle Hpar].
    split; [| exact Hpar].
    specialize (Hun q i ltac:(lia)). lia.
  - intros k Hk. apply Hm. lia.
Qed.

Lemma child_pos_slot (n : FNode) (i : nat) :
  length (Children n) = 4%nat -> (0 < child n i)%nat -> (i < 4)%nat.
Proof.
  intros Hl Hc. destruct (Nat.lt_ge_cases i 4) as [Hi | Hi]; [exact Hi |].
  unfold child in Hc. rewrite nth_overflow in Hc by lia. lia.
Qed.

Lemma In_children_child (n : FNode) (c : nat) :
  In c (Children n) -> exists i, child n i = c.
Proof.
  intros H. destruct (In_nth _ _ 0%nat H) as (i & _ & E). exists i. exact E.
Qed.

Lemma MoveIndex_other (j e k : nat) : k <> e -> MoveIndex j e k = k.
Proof.
  intros H. unfold MoveIndex. apply Nat.eqb_neq in H. rewrite H. reflexivity.
Qed.

Lemma MoveIndex_end (j e : nat) : MoveIndex j e e = j.
Proof. unfold MoveIndex. rewrite Nat.eqb_refl. reflexivity. Qed.

Lemma map_MoveIndex_id (j e : nat) (l : list nat) :
  (forall c, In c l -> c <> e) -> map (MoveIndex j e) l = l.
Proof.
  intros H. rewrite <- (map_id l) at 2. apply map_ext_in.
  intros c Hc. apply MoveIndex_other. apply H. exact Hc.
Qed.

Lemma SwapRemove_corr (cur : list FNode) (j e : nat) :
  UInv cur j e -> (1 <= j)%nat -> (j < e)%nat ->
  (forall q i, (q <= e)%nat -> child (node_at cur q) i <> j) ->
  CompleteAndUniform (node_at cur j) = true ->
  length (SwapRemove j e cur) = length cur
  /\ forall k, (k <= e)%nat -> k <> j ->
       SameData (node_at (SwapRemove j e cur) (MoveIndex j e k)) (node_at cur k)
       /\ Children (node_at (SwapRemove j e cur) (MoveIndex j e k))
          = map (MoveIndex j e) (Children (node_at cur k))
       /\ (forall pk, (1 <= k)%nat -> ParentIndex (node_at cur k) = Some pk ->
             ParentIndex (node_at (SwapRemove j e cur) (MoveIndex j e k))
             = Some (MoveIndex j e pk)).
Proof.
  intros U Hj Hje Hun Hcuj.
  pose proof U as [Hb Hl Hp Hc Hm].
  destruct (Hp e ltac:(lia)) as (pm & Epm & Hpm1 & Hpm2 & _ & _ & Hpm5 & Hpm6).
  specialize (Hpm6 Hje). specialize (Hpm5 Hpm6).
  assert (Hpmj : pm <> j) by congruence.
  assert (Hce : forall i, child (node_at cur e) i <> e).
  { intros i E. destruct (Hc e i ltac:(lia) ltac:(lia)) as [_ Hpe].
    rewrite E, Epm in Hpe. congruence. }
  assert (Hnote : forall k, (k <= e)%nat -> k <> pm ->
                    forall c, In c (Children (node_at cur k)) -> c <> e).
  { intros k Hk Hkp c Hin ->. apply In_children_child in Hin as [i Hi].
    destruct (Hc k i Hk ltac:(lia)) as [_ Hpe].
    rewrite Hi, Epm in Hpe. congruence. }
  assert (Post : SwapRemovePost j e pm cur (SwapRemove j e cur)).
  { apply SwapRemove_spec; try assumption; try lia.
    - apply Hl. exact Hpm1.
    - intros i. apply Hun. lia.
    - intros i Hi. destruct (Hc e i ltac:(lia) Hi) as [Hle _]. lia. }
  destruct Post as [Rlen Rmoved Rdata Rnew Rold Rch Rpm].
  split; [exact Rlen |].
  intros k Hk Hkj.
  destruct (Nat.eq_dec k e) as [-> | Hke].
  - rewrite MoveIndex_end, Rmoved.
    split; [apply SameData_refl |]. split.
    + symmetry. apply map_MoveIndex_id. intros c Hin ->.
      apply In_children_child in Hin as [i Hi]. exact (Hce i Hi).
    + intros pk _ Hpk. rewrite Hpk. f_equal. symmetry. apply MoveIndex_other.
      rewrite Epm in Hpk. congruence.
  - rewrite (MoveIndex_other j e k Hke).
    split; [apply Rdata; assumption |]. split.
    + destruct (Nat.eq_dec k pm) as [-> | Hkp]; [exact Rpm |].
      rewrite Rch by assumption. symmetry. apply map_MoveIndex_id.
      apply Hnote; assumption.
    + intros pk Hk1 Hpk.
      destruct (Hp k ltac:(lia)) as (pk' & E & _ & _ & H3 & _ & H5 & H6).
      rewrite Hpk in E. injection E as <-.
      destruct (Nat.eq_dec pk e) as [-> | Hpke].
      * rewrite MoveIndex_end. apply Rnew; try assumption.
        assert (Hjk : (j < k)%nat).
        { destruct (Nat.lt_ge_cases j k) as [H | H]; [exact H |].
          specialize (H3 H). lia. }
        destruct (H5 (H6 Hjk)) as [i Hi].
        exists i. split; [| split; [lia | exact Hi]].
        apply (child_pos_slot (node_at cur e)); [apply Hl; lia | lia].
      * rewrite (MoveIndex_other j e pk Hpke), <- Hpk.
        apply Rold; try assumption.
        intros (i & _ & Hpos & Hi).
        destruct (Hc e i ltac:(lia) Hpos) as [_ Hpe].
        rewrite Hi, Hpk in Hpe. congruence.
Qed.

Lemma MoveIndex_inv (j e k' : nat) :
  (j < e)%nat -> (k' <= pred e)%nat ->
  exists k, (k <= e)%nat /\ k <> j /\ MoveIndex j e k = k'
            /\ (k' <> j -> k = k') /\ (k' = j -> k = e).
Proof.
  intros Hje Hk. destruct (Nat.eq_dec k' j) as [-> | Hne].
  - exists e. rewrite MoveIndex_end. repeat split; try lia.
  - exists k'. rewrite MoveIndex_other by lia. repeat split; try lia.
Qed.

Lemma MoveIndex_range (j e k : nat) :
  (j < e)%nat -> (k <= e)%nat -> (MoveIndex j e k <= pred e)%nat.
Proof.
  intros Hje Hk. unfold MoveIndex. destruct (Nat.eqb_spec k e); lia.
Qed.

Lemma MoveIndex_injective (j e a b : nat) :
  a <> j -> b <> j -> MoveIndex j e a = MoveIndex j e b -> a = b.
Proof.
  unfold MoveIndex. intros Ha Hb.
  destruct (Nat.eqb_spec a e), (Nat.eqb_spec b e); congruence.
Qed.

Lemma SameData_CU (n n' : FNode) :
  SameData n n' -> CompleteAndUniform n = CompleteAndUniform n'.
Proof.
  intros (_ & _ & _ & H1 & H2 & _). unfold CompleteAndUniform. congruence.
Qed.

Lemma child_map_MoveIndex (j e : nat) (n n' : FNode) (i : nat) :
  e <> 0%nat ->
  Children n' = map (MoveIndex j e) (Children n) ->
  child n' i = MoveIndex j e (child n i).
Proof.
  intros He H. unfold child. rewrite H.
  assert (Z0 : MoveIndex j e 0 = 0%nat) by (apply MoveIndex_other; lia).
  rewrite <- Z0 at 1. apply map_nth.
Qed.

Lemma UInv_remove_swap (cur : list FNode) (j e : nat) :
  UInv cur j e -> (1 <= j)%nat -> (j < e)%nat ->
  (forall q i, (q <= e)%nat -> child (node_at cur q) i <> j) ->
  CompleteAndUniform (node_at cur j) = true ->
  UInv (SwapRemove j e cur) (pred j) (pred e).
Proof.
  intros U Hj Hje Hun Hcuj.
  destruct (SwapRemove_corr cur j e U Hj Hje Hun Hcuj) as [Rlen Hcorr].
  pose proof U as [Hb Hl Hp Hc Hm].
  assert (He0 : e <> 0%nat) by lia.
  (* the parent of a kept node is kept *)
  assert (Hparent_kept : forall k pk, (1 <= k <= e)%nat -> k <> j ->
            ParentIndex (node_at cur k) = Some pk -> pk <> j).
  { intros k pk Hk Hkj Hpk ->.
    destruct (Hp k Hk) as (pk' & E & _ & _ & H3 & _ & _ & H6).
    rewrite Hpk in E. injection E as <-.
    destruct (Nat.lt_ge_cases j k) as [H | H].
    - specialize (H6 H). congruence.
    - specialize (H3 H). lia. }
  constructor.
  - rewrite Rlen. lia.
  - intros k' Hk'.
    destruct (MoveIndex_inv j e k' Hje ltac:(lia)) as (k & Hk & Hkj & <- & _).
    destruct (Hcorr k Hk Hkj) as (_ & Hch & _).
    rewrite Hch, length_map. apply Hl. exact Hk.
  - intros k' Hk'.
    destruct (MoveIndex_inv j e k' Hje ltac:(lia)) as (k & Hk & Hkj & Ek & Hk1 & Hk2).
    assert (Hk0 : (1 <= k <= e)%nat).
    { destruct (Nat.eq_dec k' j) as [E | E]; [rewrite (Hk2 E) | rewrite (Hk1 E)]; lia. }
    destruct (Hp k Hk0) as (pk & E & H1 & H2 & H3 & H4 & H5 & H6).
    pose proof (Hparent_kept k pk Hk0 Hkj E) as Hpkj.
    destruct (Hcorr k Hk Hkj) as (Dk & _ & Pk).
    destruct (Hcorr pk H1 Hpkj) as (Dp & Cp & _).
    exists (MoveIndex j e pk). rewrite <- Ek.
    split; [apply Pk; [lia | exact E] |].
    split; [apply MoveIndex_range; assumption |].
    split; [intros F; apply MoveIndex_injective in F; congruence |].
    split.
    { intros Hle. rewrite Ek in Hle.
      assert (k = k') by (apply Hk1; lia). subst k'.
      specialize (H3 ltac:(lia)).
      rewrite (MoveIndex_other j e pk) by lia.
      rewrite (MoveIndex_other j e k) by lia. exact H3. }
    rewrite (SameData_CU _ _ Dk), (SameData_CU _ _ Dp).
    split; [exact H4 |]. split.
    { intros Hn. destruct (H5 Hn) as [i Hi]. exists i.
      rewrite (child_map_MoveIndex j e _ _ i He0 Cp), Hi. reflexivity. }
    intros Hlt. apply H6. rewrite Ek in Hlt.
    destruct (Nat.eq_dec k' j) as [E' | E']; [rewrite (Hk2 E') | rewrite (Hk1 E')]; lia.
  - intros q' i Hq' Hci.
    destruct (MoveIndex_inv j e q' Hje ltac:(lia)) as (q & Hq & Hqj & <- & _).
    destruct (Hcorr q Hq Hqj) as (_ & Cq & _).
    rewrite (child_map_MoveIndex j e _ _ i He0 Cq) in Hci |- *.
    set (c := child (node_at cur q) i) in *.
    assert (Hc0 : (0 < c)%nat).
    { destruct c; [| lia]. rewrite MoveIndex_other in Hci by lia. lia. }
    destruct (Hc q i Hq Hc0) as [Hce Hcp]. fold c in Hce, Hcp.
    assert (Hcj : c <> j) by (apply Hun; exact Hq).
    split; [apply MoveIndex_range; assumption |].
    destruct (Hcorr c Hce Hcj) as (_ & _ & Pc).
    apply Pc; [lia | exact Hcp].
  - intros k' Hk'.
    destruct (MoveIndex_inv j e k' Hje ltac:(lia)) as (k & Hk & Hkj & Ek & Hk1 & Hk2).
    assert (Hk0 : (1 <= k <= e)%nat).
    { destruct (Nat.eq_dec k' j) as [E | E]; [rewrite (Hk2 E) | rewrite (Hk1 E)]; lia. }
    destruct (Hcorr k Hk Hkj) as ((_ & _ & _ & _ & _ & Dm) & _ & _).
    rewrite <- Ek, Dm. apply Hm. exact Hk0.
Qed.

Lemma Simulates_swap (cur : list FNode) (j e : nat) :
  UInv cur j e -> (1 <= j)%nat -> (j < e)%nat ->
  (forall q i, (q <= e)%nat -> child (node_at cur q) i <> j) ->
  CompleteAndUniform (node_at cur j) = true ->
  Simulates (MoveIndex j e) (fun k => (k <= e)%nat /\ k <> j)
            cur (SwapRemove j e cur).
Proof.
  intros U Hj Hje Hun Hcuj.
  destruct (SwapRemove_corr cur j e U Hj Hje Hun Hcuj) as [Rlen Hcorr].
  intros k [Hk Hkj].
  destruct (Hcorr k Hk Hkj) as ((D1 & D2 & _ & D4 & D5 & _) & Ck & _).
  split; [exact D2 |]. split; [exact D4 |]. split; [exact D5 |].
  split; [exact D1 |].
  intros _. split; [exact Ck |].
  intros c Hin Hc0. apply In_children_child in Hin as [i Hi]. subst c.
  split.
  - apply (u_child _ _ _ U); assumption.
  - apply Hun. exact Hk.
Qed.

Lemma SameHeights_zero (rd : list FQuadMeshRenderData) (cur : list FNode) (p : nat) :
  CompleteAndUniform (node_at cur p) = true ->
  SameHeights rd cur (alter (setChildren [0; 0; 0; 0]%nat) p cur).
Proof.
  intros Hcu.
  apply (SameHeights_of_simulation rd (fun k => k) (fun _ => True)).
  - reflexivity.
  - intros c _ Hc. exact Hc.
  - exact I.
  - intros k _.
    split; [apply (node_at_alter_field QuadMeshIndex); reflexivity |].
    split; [apply (node_at_alter_field HasCompleteSubtree); reflexivity |].
    split; [apply (node_at_alter_field IsSubtreeSameQuadMesh); reflexivity |].
    split; [apply (node_at_alter_field Bounds); reflexivity |].
    intros Hn. split; [| intros; exact I].
    assert (p <> k) by congruence.
    rewrite node_at_alter_ne by assumption. rewrite map_id. reflexivity.
Qed.

Lemma SameHeights_swap (rd : list FQuadMeshRenderData) (cur : list FNode)
    (j e : nat) :
  UInv cur j e -> (1 <= j)%nat -> (j < e)%nat ->
  (forall q i, (q <= e)%nat -> child (node_at cur q) i <> j) ->
  CompleteAndUniform (node_at cur j) = true ->
  SameHeights rd cur (SwapRemove j e cur).
Proof.
  intros U Hj Hje Hun Hcuj.
  apply (SameHeights_of_simulation rd (MoveIndex j e)
           (fun k => (k <= e)%nat /\ k <> j)).
  - apply MoveIndex_other. lia.
  - intros c _ Hc. unfold MoveIndex. destruct (c =? e)%nat; lia.
  - split; lia.
  - apply Simulates_swap; assumption.
Qed.

Lemma Unlock_step_spec (rd : list FQuadMeshRenderData) (cur : list FNode)
    (j e : nat) :
  UInv cur j e -> (1 <= j)%nat ->
  UInv (fst (Unlock_step j (cur, e))) (pred j) (snd (Unlock_step j (cur, e)))
  /\ SameHeights rd cur (fst (Unlock_step j (cur, e))).
Proof.
  intros U Hj. pose proof (u_bound _ _ _ U) as Hb.
  destruct (u_par _ _ _ U j ltac:(lia)) as (p & Ep & Hpe & _ & _ & Hflag & _ & _).
  unfold Unlock_step. cbn [fst snd]. rewrite Ep.
  change (HasCompleteSubtree (node_at cur p) && IsSubtreeSameQuadMesh (node_at cur p))
    with (CompleteAndUniform (node_at cur p)).
  destruct (CompleteAndUniform (node_at cur p)) eqn:Hcu.
  - cbn [fst snd].
    set (cur_a := alter (setChildren [0; 0; 0; 0]%nat) p cur).
    assert (Ua : UInv cur_a j e) by (apply UInv_zero; assumption).
    assert (Hun : forall q i, (q <= e)%nat -> child (node_at cur_a q) i <> j).
    { apply (UInv_zero_unlinked cur j e p); assumption. }
    assert (Hcuj : CompleteAndUniform (node_at cur_a j) = true).
    { subst cur_a. rewrite (node_at_alter_field CompleteAndUniform) by reflexivity.
      apply Hflag. reflexivity. }
    assert (Hz : SameHeights rd cur cur_a) by (apply SameHeights_zero; exact Hcu).
    destruct (Nat.eq_dec j e) as [<- | Hne].
    + assert (E : SwapRemove j j cur_a = cur_a).
      { unfold SwapRemove. rewrite Nat.eqb_refl. reflexivity. }
      rewrite E. split; [| exact Hz].
      apply UInv_remove_last; assumption.
    + split.
      * apply UInv_remove_swap; try assumption. lia.
      * eapply SameHeights_trans; [exact Hz |].
        apply SameHeights_swap; try assumption. lia.
  - rewrite (u_mat _ _ _ U j ltac:(lia)). cbn [negb andb fst snd].
    split; [| apply SameHeights_refl].
    apply (UInv_keep cur j e p); assumption.
Qed.

Lemma Unlock_loop_spec (rd : list FQuadMeshRenderData) (j : nat) :
  forall cur e,
    UInv cur j e ->
    UInv (fst (Unlock_loop j (cur, e))) 0 (snd (Unlock_loop j (cur, e)))
    /\ SameHeights rd cur (fst (Unlock_loop j (cur, e))).
Proof.
  induction j as [| j IH]; intros cur e U.
  - cbn [Unlock_loop fst snd]. split; [exact U | apply SameHeights_refl].
  - cbn [Unlock_loop].
    destruct (Unlock_step_spec rd cur (S j) e U ltac:(lia)) as [U1 H1].
    destruct (Unlock_step (S j) (cur, e)) as [cur1 e1].
    cbn [fst snd pred] in U1, H1.
    destruct (IH cur1 e1 U1) as [U2 H2].
    split; [exact U2 |]. eapply SameHeights_trans; eassumption.
Qed.

Lemma node_at_take (cur : list FNode) (n k : nat) :
  (k < n)%nat -> node_at (take n cur) k = node_at cur k.
Proof.
  intros H. unfold node_at. rewrite !nth_lookup.
  rewrite lookup_take_lt by exact H. reflexivity.
Qed.

Lemma SameHeights_take (rd : list FQuadMeshRenderData) (cur : list FNode)
    (j e : nat) :
  UInv cur j e -> SameHeights rd cur (take (S e) cur).
Proof.
  intros U.
  apply (SameHeights_of_simulation rd (fun k => k) (fun k => (k <= e)%nat)).
  - reflexivity.
  - intros c _ Hc. exact Hc.
  - lia.
  - intros k Hk. rewrite node_at_take by lia.
    repeat (split; [reflexivity |]).
    intros _. split; [rewrite map_id; reflexivity |].
    intros c Hin Hc. apply In_children_child in Hin as [i Hi]. subst c.
    apply (u_child _ _ _ U); assumption.
Qed.

Lemma PruneNodes_same_heights (rd : list FQuadMeshRenderData) (d : nat)
    (nodes : list FNode) (paths : list (list nat)) :
  TreeInv d nodes paths ->
  (forall k q, paths !! k = Some q -> FlagsOKAt nodes k) ->
  (forall k, (0 < k < length nodes)%nat -> HasMaterial (node_at nodes k) = true) ->
  SameHeights rd nodes (PruneNodes nodes)
  /\ (0 < length (PruneNodes nodes))%nat.
Proof.
  intros I HF HM.
  assert (Hn : (0 < length nodes)%nat).
  { pose proof (inv_root _ _ _ I) as H. apply lookup_lt_Some in H.
    rewrite (inv_len _ _ _ I) in H. exact H. }
  pose proof (UInv_of_TreeInv d nodes paths I HF HM Hn) as U.
  unfold PruneNodes. destruct (length nodes) as [| n] eqn:El; [lia |].
  cbn [pred] in U. cbv zeta.
  destruct (Unlock_loop_spec rd n nodes n U) as [U' H'].
  destruct (Unlock_loop n (nodes, n)) as [cur' e'].
  cbn [fst snd] in *.
  split.
  - eapply SameHeights_trans; [exact H' |]. eapply SameHeights_take. exact U'.
  - rewrite length_take. pose proof (u_bound _ _ _ U'). lia.
Qed.

Lemma TreeInv_depth (d : nat) (nodes : list FNode) (paths : list (list nat)) :
  TreeInv d nodes paths ->
  forall n k q,
    paths !! k = Some q -> (d <= n + length q)%nat ->
    DepthWithin (S n) nodes (node_at nodes k) = true.
Proof.
  intros I. induction n as [| n IH]; intros k q Hq Hd.
  - cbn [DepthWithin]. apply forallb_forall. intros c Hin.
    destruct (Nat.eqb_spec c 0) as [-> | Hc]; [reflexivity | exfalso].
    apply In_children_child in Hin as [i Hi]. subst c.
    pose proof (inv_child _ _ _ I k q i Hq ltac:(lia)) as Hcq.
    destruct (inv_valid _ _ _ I _ _ Hcq) as [Hlen _].
    rewrite length_app in Hlen. cbn in Hlen. lia.
  - change (forallb (fun c => (c =? 0)%nat
                               || DepthWithin (S n) nodes (node_at nodes c))
                    (Children (node_at nodes k)) = true).
    apply forallb_forall. intros c Hin.
    destruct (Nat.eqb_spec c 0) as [-> | Hc]; [reflexivity |].
    cbn [orb].
    apply In_children_child in Hin as [i Hi]. subst c.
    pose proof (inv_child _ _ _ I k q i Hq ltac:(lia)) as Hcq.
    apply (IH _ _ Hcq). rewrite length_app. cbn. lia.
Qed.

Lemma Built_prune_height (d : nat) (t : FMeshQuadTree) (p : FVector2D.t) :
  Built true d t ->
  exists r,
    QueryTileBaseHeightAtLocation (Unlock t false) p = Ret r
    /\ QueryTileBaseHeightAtLocation (Unlock t true) p = Ret r.
Proof.
  intros (Hd & _ & _ & paths & I & HF & HM).
  specialize (HM eq_refl).
  destruct t as [[nodes cap rd] mats region leaf ext mlc depth ro].
  cbn [NodeData Nodes TreeDepth] in *.
  destruct (PruneNodes_same_heights rd d nodes paths I HF HM) as [Hsame Hlen].
  assert (Hn : (0 < length nodes)%nat).
  { pose proof (inv_root _ _ _ I) as H. apply lookup_lt_Some in H.
    rewrite (inv_len _ _ _ I) in H. exact H. }
  assert (Hdepth : DepthWithin (S d) nodes (node_at nodes 0) = true).
  { apply (TreeInv_depth d nodes paths I d 0%nat [] (inv_root _ _ _ I)).
    cbn. lia. }
  destruct (QueryBaseHeight_refines (S d) (mkNodeData nodes cap rd) p
              (node_at nodes 0) Hdepth) as (r & Hr & _).
  exists r.
  unfold QueryTileBaseHeightAtLocation, Unlock, QueryFuel, GetNodeCount.
  cbn [NodeData Nodes NodesMax QuadMeshRenderData TreeDepth bIsReadOnly
       setReadOnly setNodeData setNodes].
  rewrite Hd, Nat2Z.id.
  apply Nat.ltb_lt in Hn, Hlen. rewrite Hn, Hlen.
  split; [exact Hr |].
  etransitivity; [exact (Hsame (S d) p cap cap) | exact Hr].
Qed.




(** ** The material table of [BuildMaterialIndices] *)

Lemma MatInv_empty : MatInv (0%Z, ∅).
Proof.
  constructor; cbn [fst snd].
  - rewrite map_size_empty. reflexivity.
  - intros k v H. rewrite lookup_empty in H. discriminate H.
  - intros k k' v H. rewrite lookup_empty in H. discriminate H.
  - intros v Hv. lia.
Qed.

Lemma GetMatIdx_spec (st : Z * gmap nat Z) (Mat : option nat) :
  MatInv st ->
  MatInv (snd (GetMatIdx st Mat))
  /\ snd st ⊆ snd (snd (GetMatIdx st Mat))
  /\ fst (GetMatIdx st Mat) = IndexIn (snd (snd (GetMatIdx st Mat))) Mat
  /\ (forall p, is_Some (snd (snd (GetMatIdx st Mat)) !! p) ->
                is_Some (snd st !! p) \/ Mat = Some p)
  /\ (forall p, Mat = Some p -> is_Some (snd (snd (GetMatIdx st Mat)) !! p)).
Proof.
  intros [Hsz Hr Hi Hs]. destruct st as [next m]. cbn [fst snd] in *.
  destruct Mat as [proxy |]; cbn [GetMatIdx fst snd].
  - destruct (m !! proxy) as [found |] eqn:E; cbn [fst snd].
    + split; [constructor; assumption |]. split; [reflexivity |].
      split; [cbn [IndexIn]; rewrite E; reflexivity |].
      split; [intros p Hp; left; exact Hp |].
      intros p [= <-]. rewrite E. eexists. reflexivity.
    + split.
      { constructor; cbn [fst snd].
        - rewrite map_size_insert_None by exact E. lia.
        - intros k v H. destruct (decide (k = proxy)) as [-> | Hne].
          + rewrite lookup_insert_eq in H. injection H as <-. lia.
          + rewrite lookup_insert_ne in H by congruence.
            specialize (Hr k v H). lia.
        - intros k k' v H H'.
          destruct (decide (k = proxy)) as [-> | Hne];
            destruct (decide (k' = proxy)) as [-> | Hne']; [reflexivity | | |].
          + rewrite lookup_insert_eq in H. injection H as <-.
            rewrite lookup_insert_ne in H' by congruence.
            specialize (Hr k' _ H'). lia.
          + rewrite lookup_insert_eq in H'. injection H' as <-.
            rewrite lookup_insert_ne in H by congruence.
            specialize (Hr k _ H). lia.
          + rewrite lookup_insert_ne in H, H' by congruence. eapply Hi; eassumption.
        - intros v Hv. destruct (Z.eq_dec v next) as [-> | Hne].
          + exists proxy. apply lookup_insert_eq.
          + destruct (Hs v ltac:(lia)) as [k Hk]. exists k.
            rewrite lookup_insert_ne; [exact Hk |]. intros <-. congruence. }
      split; [apply insert_subseteq; exact E |].
      split; [cbn [IndexIn]; rewrite lookup_insert_eq; reflexivity |].
      split.
      * intros p Hp. destruct (decide (p = proxy)) as [-> | Hne]; [right; reflexivity |].
        left. rewrite lookup_insert_ne in Hp by congruence. exact Hp.
      * intros p [= <-]. rewrite lookup_insert_eq. eexists. reflexivity.
  - split; [constructor; assumption |]. split; [reflexivity |].
    split; [reflexivity |].
    split; [intros p Hp; left; exact Hp | intros p H; discriminate H].
Qed.

Lemma IndexIn_mono (m m' : gmap nat Z) (Mat : option nat) :
  m ⊆ m' -> (forall p, Mat = Some p -> is_Some (m !! p)) ->
  IndexIn m' Mat = IndexIn m Mat.
Proof.
  intros Hsub Hin. destruct Mat as [p |]; [| reflexivity].
  cbn [IndexIn]. destruct (Hin p eq_refl) as [v Hv].
  rewrite Hv. rewrite (lookup_weaken _ _ _ _ Hv Hsub). reflexivity.
Qed.

Lemma AssignMaterialIndices_spec (rd : list FQuadMeshRenderData) :
  forall st,
    MatInv st ->
    let out := AssignMaterialIndices st rd in
    MatInv (snd out)
    /\ snd st ⊆ snd (snd out)
    /\ fst out = map (fun r => setMaterialIndex
                                 (IndexIn (snd (snd out)) (Material r)) r) rd
    /\ (forall p, is_Some (snd (snd out) !! p) ->
                  is_Some (snd st !! p) \/ exists r, In r rd /\ Material r = Some p)
    /\ (forall r p, In r rd -> Material r = Some p -> is_Some (snd (snd out) !! p)).
Proof.
  induction rd as [| Data rest IH]; intros st Hst out; subst out.
  - cbn [AssignMaterialIndices fst snd map].
    split; [exact Hst |]. split; [reflexivity |]. split; [reflexivity |].
    split; [intros p Hp; left; exact Hp | intros r p []].
  - cbn [AssignMaterialIndices fst snd map].
    destruct (GetMatIdx_spec st (Material Data) Hst) as (H1 & H2 & H3 & H4 & H5).
    destruct (IH (snd (GetMatIdx st (Material Data))) H1) as (I1 & I2 & I3 & I4 & I5).
    cbv zeta in I1, I2, I3, I4, I5.
    split; [exact I1 |].
    split; [etransitivity; eassumption |].
    split.
    { f_equal; [| exact I3]. f_equal. rewrite H3. symmetry.
      apply IndexIn_mono; [exact I2 | exact H5]. }
    split.
    + intros p Hp. destruct (I4 p Hp) as [Hq | (r & Hr & Hm)].
      * destruct (H4 p Hq) as [Hq' | Hq']; [left; exact Hq' |].
        right. exists Data. split; [left; reflexivity | exact Hq'].
      * right. exists r. split; [right; exact Hr | exact Hm].
    + intros r p [<- | Hr] Hm.
      * destruct (H5 p Hm) as [v Hv]. exists v.
        exact (lookup_weaken _ _ _ _ Hv I2).
      * exact (I5 r p Hr Hm).
Qed.

Lemma table_fold_length (l : list (nat * Z)) :
  forall init,
    length (fold_left (fun acc kv => <[Z.to_nat (snd kv) := fst kv]> acc) l init)
    = length init.
Proof.
  induction l as [| kv l IH]; intros init; [reflexivity |].
  cbn [fold_left]. rewrite IH, length_insert. reflexivity.
Qed.

Lemma table_fold_lookup (l : list (nat * Z)) :
  forall init i x,
    (i < length init)%nat ->
    (init !! i = Some x \/ exists v, In (x, v) l /\ Z.to_nat v = i) ->
    (forall k v, In (k, v) l -> Z.to_nat v = i -> k = x) ->
    fold_left (fun acc kv => <[Z.to_nat (snd kv) := fst kv]> acc) l init !! i
    = Some x.
Proof.
  induction l as [| [k0 v0] l IH]; intros init i x Hi Hsrc Huniq.
  - cbn [fold_left]. destruct Hsrc as [H | (v & [] & _)]. exact H.
  - cbn [fold_left fst snd]. apply IH.
    + rewrite length_insert. exact Hi.
    + destruct (Nat.eq_dec (Z.to_nat v0) i) as [E | Hne].
      * left. rewrite (Huniq k0 v0 (or_introl eq_refl) E), E.
        apply list_lookup_insert_eq. exact Hi.
      * rewrite list_lookup_insert_ne by exact Hne.
        destruct Hsrc as [H | (v & [[= -> ->] | Hin] & Hv)];
          [left; exact H | contradiction | right; exists v; split; assumption].
    + intros k v Hin. apply Huniq. right. exact Hin.
Qed.

Lemma MaterialTable_spec (st : Z * gmap nat Z) :
  MatInv st ->
  length (MaterialTable (snd st)) = size (snd st)
  /\ forall i p, MaterialTable (snd st) !! i = Some p
                 <-> snd st !! p = Some (Z.of_nat i).
Proof.
  intros [Hsz Hr Hi Hs]. destruct st as [next m]. cbn [fst snd] in *.
  assert (Hlen : length (MaterialTable m) = size m).
  { unfold MaterialTable. rewrite table_fold_length, length_replicate. reflexivity. }
  assert (Hfwd : forall p v, m !! p = Some v ->
                   MaterialTable m !! Z.to_nat v = Some p).
  { intros p v Hpv. pose proof (Hr p v Hpv) as Hv.
    unfold MaterialTable. apply table_fold_lookup.
    - rewrite length_replicate. lia.
    - right. exists v. split; [| reflexivity].
      apply list_elem_of_In, elem_of_map_to_list. exact Hpv.
    - intros k v' Hin E. apply list_elem_of_In, elem_of_map_to_list in Hin.
      pose proof (Hr k v' Hin).
      assert (v' = v) by lia. subst v'. eapply Hi; eassumption. }
  split; [exact Hlen |].
  intros i p. split.
  - intros H. pose proof (lookup_lt_Some _ _ _ H) as Hlt. rewrite Hlen in Hlt.
    destruct (Hs (Z.of_nat i) ltac:(lia)) as [k Hk].
    pose proof (Hfwd k _ Hk) as Hk'. rewrite Nat2Z.id, H in Hk'.
    injection Hk' as ->. exact Hk.
  - intros H. pose proof (Hfwd p _ H) as H'. rewrite Nat2Z.id in H'. exact H'.
Qed.

Lemma BuildMaterialIndices_fields (this : FMeshQuadTree) :
  exists m,
    MatInv (Z.of_nat (size m), m)
    /\ QuadMeshRenderData (NodeData (BuildMaterialIndices this))
       = map (fun r => setMaterialIndex (IndexIn m (Material r)) r)
             (QuadMeshRenderData (NodeData this))
    /\ QuadMeshMaterials (BuildMaterialIndices this) = MaterialTable m
    /\ (forall p, is_Some (m !! p) <->
                  exists r, In r (QuadMeshRenderData (NodeData this))
                            /\ Material r = Some p).
Proof.
  destruct (AssignMaterialIndices_spec (QuadMeshRenderData (NodeData this))
              (0%Z, ∅) MatInv_empty) as (I1 & _ & I3 & I4 & I5).
  cbv zeta in I1, I3, I4, I5.
  destruct (AssignMaterialIndices (0%Z, ∅) (QuadMeshRenderData (NodeData this)))
    as [rd' [next m]] eqn:E.
  cbn [fst snd] in *.
  exists m.
  assert (Hn : next = Z.of_nat (size m)) by (symmetry; exact (mi_size _ I1)).
  subst next.
  split; [exact I1 |].
  unfold BuildMaterialIndices. cbv zeta. rewrite E. cbn [fst snd].
  split; [cbn; exact I3 |]. split; [reflexivity |].
  intros p. split.
  - intros Hp. destruct (I4 p Hp) as [H | H]; [| exact H].
    rewrite lookup_empty in H. destruct H as [? H]. discriminate H.
  - intros (r & Hr & Hm). exact (I5 r p Hr Hm).
Qed.

Lemma MaterialIndices_in_table (this : FMeshQuadTree) :
  Forall (fun r =>
            match Material r with
            | None => MaterialIndex r = INDEX_NONE
            | Some proxy =>
                (0 <= MaterialIndex r)%Z
                /\ QuadMeshMaterials (BuildMaterialIndices this)
                     !! Z.to_nat (MaterialIndex r) = Some proxy
            end)
         (QuadMeshRenderData (NodeData (BuildMaterialIndices this))).
Proof.
  destruct (BuildMaterialIndices_fields this) as (m & Hm & Hrd & Htab & Hkeys).
  rewrite Hrd, Htab. apply List.Forall_forall. intros r' Hin.
  apply in_map_iff in Hin as (r & <- & Hr).
  cbn [setMaterialIndex Material MaterialIndex].
  destruct (Material r) as [p |] eqn:Ep; [| reflexivity].
  cbn [IndexIn].
  destruct (proj2 (Hkeys p)) as [v Hv]; [exists r; split; assumption |].
  rewrite Hv. change (default INDEX_NONE (Some v)) with v.
  pose proof (mi_range _ Hm p v Hv) as Hrange. cbn [fst] in Hrange.
  split; [lia |].
  apply (proj2 (MaterialTable_spec _ Hm)). cbn [snd].
  rewrite Z2Nat.id by lia. exact Hv.
Qed.

(** X1. [BuildMaterialIndices] gives a render-data record without a
    material the index [INDEX_NONE] and a record with a material an
    index at which [QuadMeshMaterials] holds that material's proxy. *)
Theorem BuildMaterialIndices_round_trip (this : FMeshQuadTree) :
  Forall (fun r =>
            match Material r with
            | None => MaterialIndex r = INDEX_NONE
            | Some proxy =>
                (0 <= MaterialIndex r)%Z
                /\ QuadMeshMaterials (BuildMaterialIndices this)
                     !! Z.to_nat (MaterialIndex r) = Some proxy
            end)
         (QuadMeshRenderData (NodeData (BuildMaterialIndices this))).
Proof. exact (MaterialIndices_in_table this). Qed.

(** X2. The material table [BuildMaterialIndices] leaves holds every
    material of the render data exactly once and nothing else. *)
Theorem BuildMaterialIndices_table (this : FMeshQuadTree) :
  NoDup (QuadMeshMaterials (BuildMaterialIndices this))
  /\ forall proxy,
       In proxy (QuadMeshMaterials (BuildMaterialIndices this))
       <-> exists r, In r (QuadMeshRenderData (NodeData this))
                     /\ Material r = Some proxy.
Proof.
  destruct (BuildMaterialIndices_fields this) as (m & Hm & _ & Htab & Hkeys).
  destruct (MaterialTable_spec _ Hm) as [Hlen Hlook]. cbn [snd] in Hlen, Hlook.
  rewrite Htab. split.
  - apply NoDup_alt. intros i j p Hi Hj.
    apply Hlook in Hi, Hj. rewrite Hi in Hj. injection Hj as Hj. lia.
  - intros p. rewrite <- Hkeys. split.
    + intros Hin. apply list_elem_of_In, list_elem_of_lookup in Hin as [i Hi].
      apply Hlook in Hi. eexists. exact Hi.
    + intros [v Hv]. pose proof (mi_range _ Hm p v Hv) as Hr. cbn [fst] in Hr.
      apply list_elem_of_In, list_elem_of_lookup. exists (Z.to_nat v).
      apply Hlook. rewrite Z2Nat.id by lia. exact Hv.
Qed.

(** X3. After [BuildMaterialIndices], two render-data records of which
    the first has a material carry the same [MaterialIndex] exactly
    when they have the same material. *)
Theorem BuildMaterialIndices_same_index (this : FMeshQuadTree)
    (r1 r2 : FQuadMeshRenderData) :
  In r1 (QuadMeshRenderData (NodeData (BuildMaterialIndices this))) ->
  In r2 (QuadMeshRenderData (NodeData (BuildMaterialIndices this))) ->
  Material r1 <> None ->
  (MaterialIndex r1 = MaterialIndex r2 <-> Material r1 = Material r2).
Proof.
  intros H1 H2 Hmat.
  pose proof (MaterialIndices_in_table this) as HF.
  pose proof (proj1 (List.Forall_forall _ _) HF r1 H1) as P1.
  pose proof (proj1 (List.Forall_forall _ _) HF r2 H2) as P2.
  cbv beta in P1, P2.
  destruct (BuildMaterialIndices_fields this) as (m & Hm & Hrd & _ & _).
  rewrite Hrd in H1, H2.
  apply in_map_iff in H1 as (a & <- & _), H2 as (b & <- & _).
  cbn [setMaterialIndex Material MaterialIndex] in *.
  destruct (Material a) as [p |]; [| congruence].
  destruct (Material b) as [q |].
  - destruct P1 as [_ P1], P2 as [_ P2]. split.
    + intros E. rewrite E, P2 in P1. exact (eq_sym P1).
    + intros [= ->]. reflexivity.
  - destruct P1 as [P1 _]. unfold INDEX_NONE in P2. split.
    + intros E. rewrite E, P2 in P1. lia.
    + intros E. discriminate E.
Qed.

Lemma BuildMaterialIndices_same_index_witness :
  let rd := QuadMeshRenderData (NodeData (BuildMaterialIndices RepeatedMaterialTree)) in
  let r1 := nth 1 rd DefaultRenderData in
  let r3 := nth 3 rd DefaultRenderData in
  In r1 rd /\ In r3 rd /\ Material r1 <> None
  /\ (MaterialIndex r1 = MaterialIndex r3 <-> Material r1 = Material r3).
Proof.
  intros rd r1 r3.
  assert (H1 : In r1 rd) by (vm_compute; right; left; reflexivity).
  assert (H3 : In r3 rd) by (vm_compute; right; right; right; left; reflexivity).
  assert (Hm : Material r1 <> None) by (vm_compute; discriminate).
  split; [exact H1 |]. split; [exact H3 |]. split; [exact Hm |].
  exact (BuildMaterialIndices_same_index RepeatedMaterialTree r1 r3 H1 H3 Hm).
Defined.

Lemma render_at_setMaterialIndex (g : FQuadMeshRenderData -> Z)
    (rd : list FQuadMeshRenderData) (i : nat) :
  SurfaceBaseHeight (render_at (map (fun r => setMaterialIndex (g r) r) rd) i)
  = SurfaceBaseHeight (render_at rd i).
Proof.
  unfold render_at.
  destruct (Nat.lt_ge_cases i (length rd)) as [Hi | Hi].
  - rewrite (nth_indep _ DefaultRenderData
               (setMaterialIndex (g DefaultRenderData) DefaultRenderData))
      by (rewrite length_map; exact Hi).
    rewrite (map_nth (fun r => setMaterialIndex (g r) r)). reflexivity.
  - rewrite !nth_overflow by (rewrite ?length_map; exact Hi). reflexivity.
Qed.

Lemma QueryBaseHeight_children_ext (rec rec' : FNode -> Res (bool * Q))
    (nodes : list FNode) (p : FVector2D.t) (fallback : Q) (cs : list nat) :
  (forall c, rec c = rec' c) ->
  QueryBaseHeight_children rec nodes p fallback cs
  = QueryBaseHeight_children rec' nodes p fallback cs.
Proof.
  intros H. induction cs as [| c cs IH]; [reflexivity |].
  cbn [QueryBaseHeight_children]. rewrite IH, H. reflexivity.
Qed.

Lemma QueryBaseHeight_heights (nodes : list FNode) (cap cap' : Z)
    (rd rd' : list FQuadMeshRenderData) (p : FVector2D.t) :
  (forall i, SurfaceBaseHeight (render_at rd' i) = SurfaceBaseHeight (render_at rd i)) ->
  forall fuel this,
    QueryBaseHeightAtLocation fuel (mkNodeData nodes cap' rd') this p
    = QueryBaseHeightAtLocation fuel (mkNodeData nodes cap rd) this p.
Proof.
  intros H. induction fuel as [| fuel IH]; intros this; [reflexivity |].
  cbn [QueryBaseHeightAtLocation QuadMeshRenderData Nodes].
  rewrite H. destruct (HasCompleteSubtree this && IsSubtreeSameQuadMesh this);
    [reflexivity |].
  apply QueryBaseHeight_children_ext. exact IH.
Qed.

Lemma QueryBounds_children_ext (rec rec' : FNode -> Res (bool * FBox.t))
    (nodes : list FNode) (p : FVector2D.t) (b : FBox.t) (cs : list nat) :
  (forall c, rec c = rec' c) ->
  forall n, QueryBounds_children rec nodes p b cs n
            = QueryBounds_children rec' nodes p b cs n.
Proof.
  intros H. induction cs as [| c cs IH]; intros n; [reflexivity |].
  cbn [QueryBounds_children]. rewrite !IH, H. reflexivity.
Qed.

Lemma QueryBounds_render_data (nodes : list FNode) (cap cap' : Z)
    (rd rd' : list FQuadMeshRenderData) (p : FVector2D.t) :
  forall fuel this,
    QueryBoundsAtLocation fuel (mkNodeData nodes cap' rd') this p
    = QueryBoundsAtLocation fuel (mkNodeData nodes cap rd) this p.
Proof.
  induction fuel as [| fuel IH]; intros this; [reflexivity |].
  cbn [QueryBoundsAtLocation Nodes].
  apply QueryBounds_children_ext. exact IH.
Qed.

Lemma SampleCorners_ext (t t' : FMeshQuadTree) (ps : list FVector2D.t) :
  (forall p, QueryTileBaseHeightAtLocation t' p = QueryTileBaseHeightAtLocation t p) ->
  forall n, SampleCorners t' ps n = SampleCorners t ps n.
Proof.
  intros H. induction ps as [| p ps IH]; intros n; [reflexivity |].
  cbn [SampleCorners]. rewrite H.
  destruct (QueryTileBaseHeightAtLocation t p) as [[found h] | |]; cbn;
    [rewrite IH |..]; reflexivity.
Qed.

(** X4. [BuildMaterialIndices] writes material indices only: the
    arena, the flags and the geometry stay, and the height query, the
    bounds query and the interpolated height query answer as before. *)
Theorem BuildMaterialIndices_keeps_queries (this : FMeshQuadTree)
    (p : FVector2D.t) :
  Nodes (NodeData (BuildMaterialIndices this)) = Nodes (NodeData this)
  /\ bIsReadOnly (BuildMaterialIndices this) = bIsReadOnly this
  /\ QueryTileBaseHeightAtLocation (BuildMaterialIndices this) p
     = QueryTileBaseHeightAtLocation this p
  /\ QueryTileBoundsAtLocation (BuildMaterialIndices this) p
     = QueryTileBoundsAtLocation this p
  /\ QueryInterpolatedTileBaseHeightAtLocation (BuildMaterialIndices this) p
     = QueryInterpolatedTileBaseHeightAtLocation this p.
Proof.
  destruct (BuildMaterialIndices_fields this) as (m & _ & Hrd & _ & _).
  assert (Hn : Nodes (NodeData (BuildMaterialIndices this)) = Nodes (NodeData this))
    by reflexivity.
  assert (Hh : forall q, QueryTileBaseHeightAtLocation (BuildMaterialIndices this) q
                         = QueryTileBaseHeightAtLocation this q).
  { intros q. unfold QueryTileBaseHeightAtLocation, GetNodeCount, QueryFuel.
    rewrite Hn.
    change (bIsReadOnly (BuildMaterialIndices this)) with (bIsReadOnly this).
    change (TreeDepth (BuildMaterialIndices this)) with (TreeDepth this).
    destruct (0 <? length (Nodes (NodeData this)))%nat; [| reflexivity].
    destruct (bIsReadOnly this); [| reflexivity].
    destruct (NodeData this) as [nodes cap rd] eqn:E.
    destruct (NodeData (BuildMaterialIndices this)) as [nodes' cap' rd'] eqn:E'.
    cbn [Nodes QuadMeshRenderData] in *. subst nodes' rd'.
    apply QueryBaseHeight_heights. intros i. apply render_at_setMaterialIndex. }
  split; [exact Hn |]. split; [reflexivity |]. split; [apply Hh |]. split.
  - unfold QueryTileBoundsAtLocation, GetNodeCount, QueryFuel. rewrite Hn.
    change (bIsReadOnly (BuildMaterialIndices this)) with (bIsReadOnly this).
    change (TreeDepth (BuildMaterialIndices this)) with (TreeDepth this).
    destruct (0 <? length (Nodes (NodeData this)))%nat; [| reflexivity].
    destruct (bIsReadOnly this); [| reflexivity].
    destruct (NodeData this) as [nodes cap rd] eqn:E.
    destruct (NodeData (BuildMaterialIndices this)) as [nodes' cap' rd'] eqn:E'.
    cbn [Nodes] in *. subst nodes'.
    apply QueryBounds_render_data.
  - unfold QueryInterpolatedTileBaseHeightAtLocation.
    change (NormalizedGridPosition (BuildMaterialIndices this) p)
      with (NormalizedGridPosition this p).
    change (CornerSampleWorldPositions (BuildMaterialIndices this) p)
      with (CornerSampleWorldPositions this p).
    rewrite (SampleCorners_ext this (BuildMaterialIndices this) _ Hh).
    reflexivity.
Qed.

(** ** What the traversals stage *)

Lemma CountBucket_app (b : nat) (l l' : list FStagingInstanceData) :
  CountBucket b (l ++ l') = (CountBucket b l + CountBucket b l')%Z.
Proof.
  unfold CountBucket. rewrite List.filter_app, length_app. lia.
Qed.

Lemma Staged_refl (out : FTraversalOutput) : Staged [] out out.
Proof.
  constructor.
  - rewrite app_nil_r. reflexivity.
  - cbn. lia.
  - reflexivity.
  - intros b. unfold CountBucket. cbn. lia.
Qed.

Lemma Staged_trans (n1 n2 : list FStagingInstanceData)
    (a b c : FTraversalOutput) :
  Staged n1 a b -> Staged n2 b c -> Staged (n1 ++ n2) a c.
Proof.
  intros [A1 A2 A3 A4] [B1 B2 B3 B4]. constructor.
  - rewrite B1, A1, app_assoc. reflexivity.
  - rewrite B2, A2, length_app. lia.
  - congruence.
  - intros k. rewrite B4, A4, CountBucket_app. lia.
Qed.

Lemma Emits_refl (P : FStagingInstanceData -> Prop) (out : FTraversalOutput) :
  Emits P out out.
Proof. exists []. split; [apply Staged_refl | constructor]. Qed.

Lemma Emits_trans (P : FStagingInstanceData -> Prop) (a b c : FTraversalOutput) :
  Emits P a b -> Emits P b c -> Emits P a c.
Proof.
  intros (n1 & S1 & F1) (n2 & S2 & F2). exists (n1 ++ n2).
  split; [eapply Staged_trans; eassumption | apply Forall_app; split; assumption].
Qed.

Lemma nth_alter_succ (l : list Z) (i b : nat) :
  (i < length l)%nat ->
  nth b (alter Z.succ i l) 0%Z
  = (nth b l 0 + if (i =? b)%nat then 1 else 0)%Z.
Proof.
  intros Hi. rewrite !nth_lookup.
  destruct (Nat.eqb_spec i b) as [<- | Hne].
  - rewrite list_lookup_alter_eq.
    destruct (lookup_lt_is_Some_2 l i Hi) as [x Hx]. rewrite Hx. cbn. lia.
  - rewrite list_lookup_alter_ne by exact Hne. lia.
Qed.

Lemma AddNodeForRender_staged this nd dl ll desc out out' :
  AddNodeForRender this nd (render_at (QuadMeshRenderData nd) (QuadMeshIndex this))
                   dl ll desc out = Ret out' ->
  exists s,
    Staged [s] out out'
    /\ InstanceOf desc (QuadMeshRenderData nd) this s
    /\ BucketIndex s = Z.min dl (DensityCount desc - 1)
    /\ (0 <= BucketIndex s < Z.of_nat (length (BucketInstanceCounts out)))%Z
    /\ Data0_W_bits s = 2%Z
    /\ Data1_X_bits s
       = Z.lor (Z.lor (Z.land (to_uint32 ll) 255)
                      (Z.shiftl (if bLODMorphingEnabled desc
                                    && negb (Z.min dl (DensityCount desc - 1)
                                             =? DensityCount desc - 1)%Z
                                 then 1 else 0) 8))
               (Z.shiftl (if (Z.min dl (DensityCount desc - 1)
                              <? DensityCount desc - 2)%Z then 1 else 0) 9)
    /\ Data1_Y s = (if (ll =? LowestLOD desc)%Z then HeightMorph desc else 0%Q).
Proof.
  unfold AddNodeForRender. intros H.
  rewrite Z.mul_0_l, Z.add_0_l in H.
  set (B := Z.min dl (DensityCount desc - 1)) in *.
  destruct (Z.leb_spec 0 B) as [H0 | H0]; [| discriminate H].
  destruct (Z.ltb_spec B (Z.of_nat (length (BucketInstanceCounts out)))) as [H1 | H1];
    [| discriminate H].
  cbn [andb] in H. injection H as <-. eexists. split.
  - constructor; cbn [StagingInstanceData InstanceCount BucketInstanceCounts].
    + reflexivity.
    + cbn. lia.
    + apply length_alter.
    + intros b. rewrite nth_alter_succ by lia.
      unfold CountBucket. cbn [List.filter BucketIndex].
      destruct (Nat.eqb_spec (Z.to_nat B) b) as [E | E];
        destruct (Z.eqb_spec B (Z.of_nat b)) as [E' | E']; cbn; lia.
  - cbn. repeat split; lia.
Qed.

Lemma CanRender_material (this : FNode) (dl force : Z) (rd : FQuadMeshRenderData) :
  CanRender this dl force rd = true ->
  Material rd <> None /\ IsSubtreeSameQuadMesh this = true.
Proof.
  unfold CanRender. intros H.
  apply andb_true_iff in H as [H _]. apply andb_true_iff in H as [Hm Hs].
  split; [| exact Hs]. destruct (Material rd); [discriminate | discriminate Hm].
Qed.

(** ** The packed channel of an instance *)

Lemma testbit_flag (f : bool) (n : Z) :
  Z.testbit (if f then 1 else 0) n = f && (n =? 0)%Z.
Proof.
  destruct f; [| apply Z.testbit_0_l].
  destruct (Z.eqb_spec n 0) as [-> | Hn]; [reflexivity |].
  destruct (Z.lt_ge_cases n 0) as [Hneg | Hpos].
  - apply Z.testbit_neg_r. exact Hneg.
  - apply Z.bits_above_log2; [lia |]. cbn. lia.
Qed.

Lemma low_byte_bits (x n : Z) :
  (0 <= n)%Z ->
  Z.testbit (Z.land (to_uint32 x) 255) n = Z.testbit x n && (n <? 8)%Z.
Proof.
  intros Hn. rewrite Z.land_spec. change 255%Z with (Z.ones 8).
  unfold to_uint32.
  destruct (Z.ltb_spec n 8) as [Hlt | Hge].
  - rewrite Z.ones_spec_low by lia.
    rewrite Z.mod_pow2_bits_low by lia. reflexivity.
  - rewrite Z.ones_spec_high by lia. rewrite !andb_false_r. reflexivity.
Qed.

Lemma BitPacked_bits (lod : Z) (m c : bool) (n : Z) :
  (0 <= n)%Z ->
  Z.testbit
    (Z.lor (Z.lor (Z.land (to_uint32 lod) 255) (Z.shiftl (if m then 1 else 0) 8))
           (Z.shiftl (if c then 1 else 0) 9)) n
  = (Z.testbit lod n && (n <? 8)%Z) || (m && (n =? 8)%Z) || (c && (n =? 9)%Z).
Proof.
  intros Hn.
  rewrite !Z.lor_spec, low_byte_bits, !Z.shiftl_spec, !testbit_flag by exact Hn.
  f_equal; [f_equal |]; f_equal.
  - destruct (Z.eqb_spec (n - 8) 0), (Z.eqb_spec n 8); try reflexivity; lia.
  - destruct (Z.eqb_spec (n - 9) 0), (Z.eqb_spec n 9); try reflexivity; lia.
Qed.

Lemma BitPacked_decode (lod : Z) (m c : bool) :
  let bits :=
    Z.lor (Z.lor (Z.land (to_uint32 lod) 255) (Z.shiftl (if m then 1 else 0) 8))
          (Z.shiftl (if c then 1 else 0) 9) in
  Z.land bits 255 = (lod mod 256)%Z
  /\ Z.testbit bits 8 = m
  /\ Z.testbit bits 9 = c
  /\ Z.shiftr bits 10 = 0%Z.
Proof.
  intros bits. subst bits. split; [| split; [| split]].
  - change 255%Z with (Z.ones 8) at 2. change 256%Z with (2 ^ 8)%Z.
    apply Z.bits_inj'. intros n Hn.
    rewrite Z.land_spec, BitPacked_bits by exact Hn.
    destruct (Z.ltb_spec n 8) as [Hlt | Hge].
    + rewrite Z.ones_spec_low, Z.mod_pow2_bits_low by lia.
      destruct (Z.eqb_spec n 8), (Z.eqb_spec n 9); try lia.
      rewrite !andb_false_r, !orb_false_r, !andb_true_r. reflexivity.
    + rewrite Z.ones_spec_high, Z.mod_pow2_bits_high by lia.
      apply andb_false_r.
  - rewrite BitPacked_bits by lia. cbn. rewrite !andb_false_r, andb_true_r.
    destruct m; reflexivity.
  - rewrite BitPacked_bits by lia. cbn. rewrite !andb_false_r, andb_true_r.
    reflexivity.
  - apply Z.bits_inj'. intros n Hn.
    rewrite Z.shiftr_spec, BitPacked_bits, Z.bits_0 by lia.
    destruct (Z.ltb_spec (n + 10) 8), (Z.eqb_spec (n + 10) 8),
      (Z.eqb_spec (n + 10) 9); lia.
Qed.

Lemma for_children_emits_in (P : FStagingInstanceData -> Prop)
    (body : nat -> FTraversalOutput -> Res FTraversalOutput) (cs : list nat) :
  (forall c out out', In c cs -> (0 < c)%nat ->
                      body c out = Ret out' -> Emits P out out') ->
  forall out out', for_children body cs out = Ret out' -> Emits P out out'.
Proof.
  induction cs as [| c cs IH]; intros Hb out out' H.
  - injection H as <-. apply Emits_refl.
  - cbn [for_children] in H.
    specialize (IH (fun c' o o' Hin => Hb c' o o' (or_intror Hin))).
    destruct (Nat.ltb_spec 0 c) as [Hc | Hc]; [| exact (IH _ _ H)].
    destruct (body c out) as [mid | |] eqn:E; try discriminate H.
    eapply Emits_trans; [exact (Hb _ _ _ (or_introl eq_refl) Hc E) | exact (IH _ _ H)].
Qed.

Lemma for_nodes_emits_in (P : FStagingInstanceData -> Prop)
    (body : FNode -> FTraversalOutput -> Res FTraversalOutput) (ns : list FNode) :
  (forall n out out', In n ns -> body n out = Ret out' -> Emits P out out') ->
  forall out out', for_nodes body ns out = Ret out' -> Emits P out out'.
Proof.
  induction ns as [| n ns IH]; intros Hb out out' H.
  - injection H as <-. apply Emits_refl.
  - cbn [for_nodes] in H.
    specialize (IH (fun n' o o' Hin => Hb n' o o' (or_intror Hin))).
    destruct (body n out) as [mid | |] eqn:E; try discriminate H.
    eapply Emits_trans; [exact (Hb _ _ _ (or_introl eq_refl) E) | exact (IH _ _ H)].
Qed.

Lemma In_VirtualChildren (this n : FNode) :
  In n (VirtualChildren this) -> exists i, (i < 4)%nat /\ n = VirtualChild this i.
Proof.
  unfold VirtualChildren. intros H. apply in_map_iff in H as (i & <- & Hi).
  exists i. split; [| reflexivity].
  unfold four_slots in Hi. cbn in Hi. lia.
Qed.

(** The traversals stage tiles of nodes of a set [N] that holds the
    start node and is closed under the two ways of going down. *)
Section TraversalOutput.
Variable GetLODDistance : Z -> Q -> Q.
Variable nd : FNodeData.
Variable desc : FTraversalDesc.
Variable N : FNode -> Prop.
Hypothesis N_child :
  forall m c, N m -> In c (Children m) -> (0 < c)%nat -> N (node_at (Nodes nd) c).
Hypothesis N_virtual :
  forall m i, N m -> HasCompleteSubtree m = true -> IsSubtreeSameQuadMesh m = true ->
              (i < 4)%nat -> N (VirtualChild m i).

Lemma AddNodeForRender_visible (this : FNode) (dl ll : Z)
    (out out' : FTraversalOutput) :
  N this ->
  Frustum desc (FBox.GetCenter (Bounds this)) (FBox.GetExtent (Bounds this)) = true ->
  CanRender this dl (ForceCollapseDensityLevel desc)
            (render_at (QuadMeshRenderData nd) (QuadMeshIndex this)) = true ->
  forall dl',
    AddNodeForRender this nd (render_at (QuadMeshRenderData nd) (QuadMeshIndex this))
                     dl' ll desc out = Ret out' ->
    Emits (VisibleTile desc (QuadMeshRenderData nd) N) out out'.
Proof.
  intros HN Hf Hc dl' H.
  destruct (AddNodeForRender_staged _ _ _ _ _ _ _ H)
    as (s & HS & HI & HB & HR & _).
  destruct (CanRender_material _ _ _ _ Hc) as [Hm Hu].
  exists [s]. split; [exact HS |].
  constructor; [| constructor].
  split.
  - exists this. split; [exact HN |]. split; [exact Hf |]. split; [exact Hm |].
    split; [exact Hu | exact HI].
  - rewrite HB in *. lia.
Qed.

Lemma SelectLODRefinement_emits_on (fuel : nat) :
  forall this dl ll out out',
    N this ->
    SelectLODRefinement fuel this nd dl ll desc out = Ret out' ->
    Emits (VisibleTile desc (QuadMeshRenderData nd) N) out out'.
Proof.
  induction fuel as [| fuel IH]; intros this dl ll out out' HN H; [discriminate H |].
  cbn [SelectLODRefinement] in H.
  destruct (Frustum desc _ _) eqn:Hf; [| injection H as <-; apply Emits_refl].
  destruct (CanRender this dl _ _) eqn:Hc.
  - eapply AddNodeForRender_visible; eassumption.
  - eapply for_children_emits_in; [| exact H].
    intros c o o' Hin Hc0 Hb.
    exact (IH _ _ _ _ _ (N_child _ _ HN Hin Hc0) Hb).
Qed.

Lemma RenderOrRefine_emits_on (fuel : nat) (this : FNode) (rdens rlod fdens : Z)
    (out out' : FTraversalOutput) :
  N this ->
  Frustum desc (FBox.GetCenter (Bounds this)) (FBox.GetExtent (Bounds this)) = true ->
  RenderOrRefine fuel this nd
    (render_at (QuadMeshRenderData nd) (QuadMeshIndex this))
    rdens rlod fdens desc out = Ret out' ->
  Emits (VisibleTile desc (QuadMeshRenderData nd) N) out out'.
Proof.
  intros HN Hf H. unfold RenderOrRefine in H.
  destruct (CanRender this 0 _ _) eqn:Hc.
  - eapply AddNodeForRender_visible; eassumption.
  - eapply for_children_emits_in; [| exact H].
    intros c o o' Hin Hc0 Hb.
    exact (SelectLODRefinement_emits_on _ _ _ _ _ _ (N_child _ _ HN Hin Hc0) Hb).
Qed.

Lemma SelectLOD_emits_on (fuel : nat) :
  forall this lod out out',
    N this ->
    SelectLOD GetLODDistance fuel this nd lod desc out = Ret out' ->
    Emits (VisibleTile desc (QuadMeshRenderData nd) N) out out'.
Proof.
  induction fuel as [| fuel IH]; intros this lod out out' HN H; [discriminate H |].
  cbn [SelectLOD] in H.
  destruct (Frustum desc _ _) eqn:Hf; cbn [negb] in H;
    [| injection H as <-; apply Emits_refl].
  destruct (DistanceExceeds _ (GetLODDistance lod _)).
  { eapply RenderOrRefine_emits_on; eassumption. }
  destruct (lod =? 0)%Z.
  { destruct (CanRender this 0 _ _) eqn:Hc.
    - eapply AddNodeForRender_visible; eassumption.
    - injection H as <-. apply Emits_refl. }
  destruct (_ || _).
  { eapply RenderOrRefine_emits_on; eassumption. }
  destruct (HasCompleteSubtree this && IsSubtreeSameQuadMesh this) eqn:Hcu.
  - apply andb_true_iff in Hcu as [Hcs Hsu].
    eapply for_nodes_emits_in; [| exact H].
    intros n o o' Hin Hb.
    apply In_VirtualChildren in Hin as (i & Hi & ->).
    exact (IH _ _ _ _ (N_virtual _ _ HN Hcs Hsu Hi) Hb).
  - eapply for_children_emits_in; [| exact H].
    intros c o o' Hin Hc0 Hb.
    exact (IH _ _ _ _ (N_child _ _ HN Hin Hc0) Hb).
Qed.

Lemma SelectLODWithinBounds_emits_on (fuel : nat) :
  forall this lod out out',
    N this ->
    SelectLODWithinBounds fuel this nd lod desc out = Ret out' ->
    Emits (TileWithinBounds desc (QuadMeshRenderData nd) N) out out'.
Proof.
  induction fuel as [| fuel IH]; intros this lod out out' HN H; [discriminate H |].
  cbn [SelectLODWithinBounds] in H.
  destruct (Frustum desc _ _) eqn:Hf; cbn [negb] in H;
    [| injection H as <-; apply Emits_refl].
  destruct (TessellatedQuadMeshBoundsValid desc); cbn [negb] in H;
    [| discriminate H].
  destruct (Z.eqb_spec lod 0) as [-> | Hlod].
  - destruct (FBox2D.IsInsideOrOn _ (FVector.to2D (FBox.Min (Bounds this)))) eqn:Hmin;
      cbn [andb] in H; [| injection H as <-; apply Emits_refl].
    destruct (FBox2D.IsInsideOrOn _ (FVector.to2D (FBox.Max (Bounds this)))) eqn:Hmax;
      cbn [andb] in H; [| injection H as <-; apply Emits_refl].
    destruct (CanRender this 0 _ _) eqn:Hc; [| injection H as <-; apply Emits_refl].
    destruct (AddNodeForRender_staged _ _ _ _ _ _ _ H)
      as (s & HS & HI & HB & HR & _ & Hbits & _).
    destruct (CanRender_material _ _ _ _ Hc) as [Hm Hu].
    exists [s]. split; [exact HS |].
    constructor; [| constructor].
    split; [| split].
    + exists this. repeat (split; [assumption |]). exact HI.
    + rewrite HB in *. lia.
    + rewrite Hbits. apply (BitPacked_decode 0).
  - destruct (HasCompleteSubtree this && IsSubtreeSameQuadMesh this) eqn:Hcu.
    + apply andb_true_iff in Hcu as [Hcs Hsu].
      eapply for_nodes_emits_in; [| exact H].
      intros n o o' Hin Hb.
      apply In_VirtualChildren in Hin as (i & Hi & ->).
      exact (IH _ _ _ _ (N_virtual _ _ HN Hcs Hsu Hi) Hb).
    + eapply for_children_emits_in; [| exact H].
      intros c o o' Hin Hc0 Hb.
      exact (IH _ _ _ _ (N_child _ _ HN Hin Hc0) Hb).
Qed.
End TraversalOutput.

(** With every node admitted, what remains is the accounting. *)
Lemma SelectLODRefinement_emits (nd : FNodeData) (desc : FTraversalDesc)
    (fuel : nat) :
  forall this dl ll out out',
    SelectLODRefinement fuel this nd dl ll desc out = Ret out' ->
    Emits (VisibleTile desc (QuadMeshRenderData nd) (fun _ => True)) out out'.
Proof.
  intros this dl ll out out' H.
  eapply (SelectLODRefinement_emits_on nd desc (fun _ => True)); [| exact I | exact H].
  intros; exact I.
Qed.

Lemma SelectLOD_emits (GetLODDistance : Z -> Q -> Q) (nd : FNodeData)
    (desc : FTraversalDesc) (fuel : nat) :
  forall this lod out out',
    SelectLOD GetLODDistance fuel this nd lod desc out = Ret out' ->
    Emits (VisibleTile desc (QuadMeshRenderData nd) (fun _ => True)) out out'.
Proof.
  intros this lod out out' H.
  eapply (SelectLOD_emits_on GetLODDistance nd desc (fun _ => True));
    [| | exact I | exact H]; intros; exact I.
Qed.

Lemma SelectLODWithinBounds_emits (nd : FNodeData) (desc : FTraversalDesc)
    (fuel : nat) :
  forall this lod out out',
    SelectLODWithinBounds fuel this nd lod desc out = Ret out' ->
    Emits (TileWithinBounds desc (QuadMeshRenderData nd) (fun _ => True)) out out'.
Proof.
  intros this lod out out' H.
  eapply (SelectLODWithinBounds_emits_on nd desc (fun _ => True));
    [| | exact I | exact H]; intros; exact I.
Qed.

(** ** Nodes of a well-indexed arena *)

Lemma ChildrenWithin_spec (nodes : list FNode) (n : FNode) (c : nat) :
  ChildrenWithin nodes n = true -> In c (Children n) -> (0 < c)%nat ->
  (c < length nodes)%nat.
Proof.
  unfold ChildrenWithin. intros H Hin Hc.
  rewrite forallb_forall in H. specialize (H c Hin).
  apply orb_true_iff in H as [H | H].
  - apply Nat.eqb_eq in H. lia.
  - apply Nat.ltb_lt in H. exact H.
Qed.

Lemma WellIndexed_at (nd : FNodeData) (k : nat) :
  WellIndexed nd = true -> (k < length (Nodes nd))%nat ->
  IndexedWithin nd (node_at (Nodes nd) k) = true.
Proof.
  unfold WellIndexed. intros H Hk. rewrite forallb_forall in H.
  apply H. unfold node_at. apply nth_In. exact Hk.
Qed.

Lemma IndexedWithin_virtual (nd : FNodeData) (m : FNode) (i : nat) :
  IndexedWithin nd m = true -> IndexedWithin nd (VirtualChild m i) = true.
Proof.
  unfold IndexedWithin. intros H. apply andb_true_iff in H as [H _].
  apply andb_true_iff. split; [exact H | reflexivity].
Qed.

(** In a well-indexed arena the nodes a traversal comes to, each with
    its reads in range, form a set closed under both ways down. *)
Lemma TraversalNode_child (nd : FNodeData) (this m : FNode) (c : nat) :
  WellIndexed nd = true ->
  TraversalNode (Nodes nd) this m /\ IndexedWithin nd m = true ->
  In c (Children m) -> (0 < c)%nat ->
  TraversalNode (Nodes nd) this (node_at (Nodes nd) c)
  /\ IndexedWithin nd (node_at (Nodes nd) c) = true.
Proof.
  intros HW [HT HI] Hin Hc.
  assert (Hlt : (c < length (Nodes nd))%nat).
  { unfold IndexedWithin in HI. apply andb_true_iff in HI as [_ HI].
    exact (ChildrenWithin_spec _ _ _ HI Hin Hc). }
  split; [| apply WellIndexed_at; assumption].
  apply (tn_child _ _ m c); [exact HT | exact Hin | lia].
Qed.

Lemma TraversalNode_virtual (nd : FNodeData) (this m : FNode) (i : nat) :
  TraversalNode (Nodes nd) this m /\ IndexedWithin nd m = true ->
  HasCompleteSubtree m = true -> IsSubtreeSameQuadMesh m = true -> (i < 4)%nat ->
  TraversalNode (Nodes nd) this (VirtualChild m i)
  /\ IndexedWithin nd (VirtualChild m i) = true.
Proof.
  intros [HT HI] Hc Hs Hi.
  split; [apply tn_virtual; assumption | apply IndexedWithin_virtual; exact HI].
Qed.

Lemma VisibleTile_weaken (desc : FTraversalDesc) (rd : list FQuadMeshRenderData)
    (N N' : FNode -> Prop) (s : FStagingInstanceData) :
  (forall n, N n -> N' n) -> VisibleTile desc rd N s -> VisibleTile desc rd N' s.
Proof.
  intros HNN [(n & Hn & H) Hb]. split; [| exact Hb].
  exists n. split; [exact (HNN n Hn) | exact H].
Qed.

Lemma TileWithinBounds_weaken (desc : FTraversalDesc)
    (rd : list FQuadMeshRenderData) (N N' : FNode -> Prop)
    (s : FStagingInstanceData) :
  (forall n, N n -> N' n) ->
  TileWithinBounds desc rd N s -> TileWithinBounds desc rd N' s.
Proof.
  intros HNN [(n & Hn & H) Hb]. split; [| exact Hb].
  exists n. split; [exact (HNN n Hn) | exact H].
Qed.


(** X5. A run of [SelectLOD] that returns only appends to the staged
    instances, and advances [InstanceCount] and every bucket counter by
    exactly the number of instances it staged, in total and per bucket. *)
Theorem SelectLOD_accounting (GetLODDistance : Z -> Q -> Q) (fuel : nat)
    (this : FNode) (nd : FNodeData) (lod : Z) (desc : FTraversalDesc)
    (out out' : FTraversalOutput) :
  SelectLOD GetLODDistance fuel this nd lod desc out = Ret out' ->
  exists news,
    StagingInstanceData out' = StagingInstanceData out ++ news
    /\ InstanceCount out' = (InstanceCount out + Z.of_nat (length news))%Z
    /\ length (BucketInstanceCounts out') = length (BucketInstanceCounts out)
    /\ forall b, nth b (BucketInstanceCounts out') 0%Z
                 = (nth b (BucketInstanceCounts out) 0 + CountBucket b news)%Z.
Proof.
  intros H.
  destruct (SelectLOD_emits GetLODDistance nd desc fuel _ _ _ _ H)
    as (news & [S1 S2 S3 S4] & _).
  exists news. repeat split; assumption.
Qed.

Lemma SelectLOD_accounting_witness :
  let t := TwoMaterialTree in
  let root := node_at (Nodes (NodeData t)) 0 in
  exists out',
    SelectLOD PowLODDistance 2 root (NodeData t) (TreeDepth t) FarDesc EmptyOutput4
    = Ret out'
    /\ exists news,
         StagingInstanceData out' = StagingInstanceData EmptyOutput4 ++ news
         /\ InstanceCount out'
            = (InstanceCount EmptyOutput4 + Z.of_nat (length news))%Z
         /\ length (BucketInstanceCounts out')
            = length (BucketInstanceCounts EmptyOutput4)
         /\ forall b, nth b (BucketInstanceCounts out') 0%Z
                      = (nth b (BucketInstanceCounts EmptyOutput4) 0
                         + CountBucket b news)%Z.
Proof.
  intros t root. eexists. split; [vm_compute; reflexivity |].
  apply (SelectLOD_accounting PowLODDistance 2 root (NodeData t) (TreeDepth t)
           FarDesc EmptyOutput4).
  vm_compute. reflexivity.
Defined.

(** X6. In an arena whose indices are in range, every instance a
    returning run of [SelectLOD] stages is the tile of a node the
    traversal came to from the start node, through live child slots of
    the arena or as a synthesized quadrant of a complete and uniform
    node.  The frustum accepts that node, its render data has a material
    and its subtree is uniform; the instance carries its translated
    centre, base height and size, and lies in a density bucket of
    material 0. *)
Theorem SelectLOD_stages_visible_tiles (GetLODDistance : Z -> Q -> Q)
    (fuel : nat) (this : FNode) (nd : FNodeData) (lod : Z)
    (desc : FTraversalDesc) (out out' : FTraversalOutput) :
  WellIndexed nd = true ->
  IndexedWithin nd this = true ->
  SelectLOD GetLODDistance fuel this nd lod desc out = Ret out' ->
  exists news,
    StagingInstanceData out' = StagingInstanceData out ++ news
    /\ Forall (VisibleTile desc (QuadMeshRenderData nd)
                           (TraversalNode (Nodes nd) this)) news.
Proof.
  intros HW HI H.
  destruct (SelectLOD_emits_on GetLODDistance nd desc
              (fun n => TraversalNode (Nodes nd) this n /\ IndexedWithin nd n = true)
              (fun m c Hm => TraversalNode_child nd this m c HW Hm)
              (fun m i Hm => TraversalNode_virtual nd this m i Hm)
              fuel this lod out out' (conj (tn_self _ _) HI) H)
    as (news & [S1 _ _ _] & HF).
  exists news. split; [exact S1 |].
  eapply List.Forall_impl; [| exact HF].
  intros s Hs. eapply VisibleTile_weaken; [| exact Hs].
  intros n [Hn _]. exact Hn.
Qed.

Lemma SelectLOD_stages_visible_tiles_witness :
  let t := TwoMaterialTree in
  let root := node_at (Nodes (NodeData t)) 0 in
  exists out',
    SelectLOD PowLODDistance 2 root (NodeData t) (TreeDepth t) NearDesc EmptyOutput4
    = Ret out'
    /\ exists news,
         StagingInstanceData out' = StagingInstanceData EmptyOutput4 ++ news
         /\ Forall (VisibleTile NearDesc (QuadMeshRenderData (NodeData t))
                                (TraversalNode (Nodes (NodeData t)) root)) news.
Proof.
  intros t root. eexists. split; [vm_compute; reflexivity |].
  apply (SelectLOD_stages_visible_tiles PowLODDistance 2 root (NodeData t)
           (TreeDepth t) NearDesc EmptyOutput4).
  - vm_compute. reflexivity.
  - vm_compute. reflexivity.
  - vm_compute. reflexivity.
Defined.

(** X7. In an arena whose indices are in range, every instance a
    returning run of [SelectLODWithinBounds] stages is the tile of a
    node the traversal came to from the start node, through live child
    slots of the arena or as a synthesized quadrant of a complete and
    uniform node.  That node is frustum-visible, has a material and a
    uniform subtree, and both corners of its box are inside the
    tessellated bounds; it is staged at LOD level 0 in bucket 0. *)
Theorem SelectLODWithinBounds_stages_inside (fuel : nat) (this : FNode)
    (nd : FNodeData) (lod : Z) (desc : FTraversalDesc)
    (out out' : FTraversalOutput) :
  WellIndexed nd = true ->
  IndexedWithin nd this = true ->
  SelectLODWithinBounds fuel this nd lod desc out = Ret out' ->
  exists news,
    Staged news out out'
    /\ Forall (TileWithinBounds desc (QuadMeshRenderData nd)
                                (TraversalNode (Nodes nd) this)) news.
Proof.
  intros HW HI H.
  destruct (SelectLODWithinBounds_emits_on nd desc
              (fun n => TraversalNode (Nodes nd) this n /\ IndexedWithin nd n = true)
              (fun m c Hm => TraversalNode_child nd this m c HW Hm)
              (fun m i Hm => TraversalNode_virtual nd this m i Hm)
              fuel this lod out out' (conj (tn_self _ _) HI) H)
    as (news & HS & HF).
  exists news. split; [exact HS |].
  eapply List.Forall_impl; [| exact HF].
  intros s Hs. eapply TileWithinBounds_weaken; [| exact Hs].
  intros n [Hn _]. exact Hn.
Qed.

Lemma SelectLODWithinBounds_stages_inside_witness :
  let t := TwoMaterialTree in
  let root := node_at (Nodes (NodeData t)) 0 in
  exists out',
    SelectLODWithinBounds 2 root (NodeData t) (TreeDepth t) NearDesc EmptyOutput4
    = Ret out'
    /\ exists news,
         Staged news EmptyOutput4 out'
         /\ Forall (TileWithinBounds NearDesc (QuadMeshRenderData (NodeData t))
                                     (TraversalNode (Nodes (NodeData t)) root)) news.
Proof.
  intros t root. eexists. split; [vm_compute; reflexivity |].
  apply (SelectLODWithinBounds_stages_inside 2 root (NodeData t) (TreeDepth t)
           NearDesc EmptyOutput4).
  - vm_compute. reflexivity.
  - vm_compute. reflexivity.
  - vm_compute. reflexivity.
Defined.

(** X8. The packed channel of the instance [AddNodeForRender] stages
    decodes to its inputs: the low byte is the LOD level modulo 256,
    bit 8 says that morphing is enabled and the clamped density index
    is not the last one, bit 9 that the density index is below the
    next to last one, and no higher bit is set. *)
Theorem AddNodeForRender_packed_channel (this : FNode) (nd : FNodeData)
    (rd : FQuadMeshRenderData) (dl ll : Z) (desc : FTraversalDesc)
    (out out' : FTraversalOutput) :
  AddNodeForRender this nd rd dl ll desc out = Ret out' ->
  let DensityIndex := Z.min dl (DensityCount desc - 1) in
  exists s,
    StagingInstanceData out' = StagingInstanceData out ++ [s]
    /\ Z.land (Data1_X_bits s) 255 = (ll mod 256)%Z
    /\ Z.testbit (Data1_X_bits s) 8
       = bLODMorphingEnabled desc
         && negb (DensityIndex =? DensityCount desc - 1)%Z
    /\ Z.testbit (Data1_X_bits s) 9 = (DensityIndex <? DensityCount desc - 2)%Z
    /\ Z.shiftr (Data1_X_bits s) 10 = 0%Z.
Proof.
  intros H DensityIndex. unfold AddNodeForRender in H.
  rewrite Z.mul_0_l, Z.add_0_l in H. fold DensityIndex in H.
  destruct ((0 <=? DensityIndex)%Z
            && (DensityIndex <? Z.of_nat (length (BucketInstanceCounts out)))%Z);
    [| discriminate H].
  injection H as <-. eexists. split; [reflexivity |].
  cbn [Data1_X_bits].
  pose proof (BitPacked_decode ll
                (bLODMorphingEnabled desc
                 && negb (DensityIndex =? DensityCount desc - 1)%Z)
                (DensityIndex <? DensityCount desc - 2)%Z) as D.
  cbv zeta in D. exact D.
Qed.

Lemma AddNodeForRender_packed_channel_witness :
  let t := TwoMaterialTree in
  let root := node_at (Nodes (NodeData t)) 0 in
  let rd := render_at (QuadMeshRenderData (NodeData t)) (QuadMeshIndex root) in
  exists out',
    AddNodeForRender root (NodeData t) rd 0 261 NearDesc EmptyOutput4 = Ret out'
    /\ exists s,
         StagingInstanceData out' = StagingInstanceData EmptyOutput4 ++ [s]
         /\ Z.land (Data1_X_bits s) 255 = 5%Z
         /\ Z.testbit (Data1_X_bits s) 8 = false
         /\ Z.testbit (Data1_X_bits s) 9 = false
         /\ Z.shiftr (Data1_X_bits s) 10 = 0%Z.
Proof.
  intros t root rd. eexists. split; [vm_compute; reflexivity |].
  apply (AddNodeForRender_packed_channel root (NodeData t) rd 0 261 NearDesc
           EmptyOutput4).
  vm_compute. reflexivity.
Defined.

(** ** The bucket range check *)

Section BucketRange.
Variable GetLODDistance : Z -> Q -> Q.
Variable nd : FNodeData.
Variable desc : FTraversalDesc.
Hypothesis density_pos : (1 <= DensityCount desc)%Z.

(** The output has a counter for every density bucket of material 0. *)
Let Roomy (out : FTraversalOutput) : Prop :=
  (DensityCount desc <= Z.of_nat (length (BucketInstanceCounts out)))%Z.

Lemma Emits_roomy (P : FStagingInstanceData -> Prop) (out out' : FTraversalOutput) :
  Emits P out out' -> Roomy out -> Roomy out'.
Proof.
  intros (news & [_ _ Hl _] & _) H. unfold Roomy in *. rewrite Hl. exact H.
Qed.

Lemma AddNodeForRender_in_range (this : FNode) (rd : FQuadMeshRenderData)
    (dl ll : Z) (out : FTraversalOutput) :
  (0 <= dl)%Z -> Roomy out ->
  AddNodeForRender this nd rd dl ll desc out <> Check_failed.
Proof.
  intros Hdl Hroom. unfold AddNodeForRender.
  rewrite Z.mul_0_l, Z.add_0_l.
  set (B := Z.min dl (DensityCount desc - 1)).
  destruct (Z.leb_spec 0 B) as [H0 | H0]; [| lia].
  destruct (Z.ltb_spec B (Z.of_nat (length (BucketInstanceCounts out)))) as [H1 | H1];
    [| unfold Roomy in Hroom; lia].
  discriminate.
Qed.

Lemma for_children_in_range (P : FStagingInstanceData -> Prop)
    (body : nat -> FTraversalOutput -> Res FTraversalOutput) (cs : list nat) :
  (forall c out, Roomy out -> body c out <> Check_failed) ->
  (forall c out out', body c out = Ret out' -> Emits P out out') ->
  forall out, Roomy out -> for_children body cs out <> Check_failed.
Proof.
  intros Hsafe Hem. induction cs as [| c cs IH]; intros out Hroom.
  - discriminate.
  - cbn [for_children]. destruct (0 <? c)%nat; [| exact (IH _ Hroom)].
    destruct (body c out) as [mid | |] eqn:E.
    + apply IH. exact (Emits_roomy _ _ _ (Hem _ _ _ E) Hroom).
    + exfalso. exact (Hsafe c out Hroom E).
    + discriminate.
Qed.

Lemma for_nodes_in_range (P : FStagingInstanceData -> Prop)
    (body : FNode -> FTraversalOutput -> Res FTraversalOutput) (ns : list FNode) :
  (forall n out, Roomy out -> body n out <> Check_failed) ->
  (forall n out out', body n out = Ret out' -> Emits P out out') ->
  forall out, Roomy out -> for_nodes body ns out <> Check_failed.
Proof.
  intros Hsafe Hem. induction ns as [| n ns IH]; intros out Hroom.
  - discriminate.
  - cbn [for_nodes].
    destruct (body n out) as [mid | |] eqn:E.
    + apply IH. exact (Emits_roomy _ _ _ (Hem _ _ _ E) Hroom).
    + exfalso. exact (Hsafe n out Hroom E).
    + discriminate.
Qed.

Lemma SelectLODRefinement_in_range (fuel : nat) :
  forall this dl ll out,
    (0 <= dl)%Z -> (dl + Z.of_nat fuel < 2 ^ 31)%Z -> Roomy out ->
    SelectLODRefinement fuel this nd dl ll desc out <> Check_failed.
Proof.
  induction fuel as [| fuel IH]; intros this dl ll out Hdl Hfuel Hroom;
    [discriminate |].
  cbn [SelectLODRefinement].
  destruct (Frustum desc _ _); [| discriminate].
  destruct (CanRender this dl _ _).
  - apply AddNodeForRender_in_range; assumption.
  - apply (for_children_in_range (VisibleTile desc (QuadMeshRenderData nd) (fun _ => True))).
    + intros c o Ho. rewrite wrap_int32_small by lia. apply IH; [lia | lia | exact Ho].
    + intros c o o' Hb. exact (SelectLODRefinement_emits _ _ _ _ _ _ _ _ Hb).
    + exact Hroom.
Qed.

Lemma RenderOrRefine_in_range (fuel : nat) (this : FNode)
    (rd : FQuadMeshRenderData) (rdens rlod fdens : Z) (out : FTraversalOutput) :
  (0 <= rdens)%Z -> (0 <= fdens)%Z -> (fdens + Z.of_nat fuel < 2 ^ 31)%Z ->
  Roomy out ->
  RenderOrRefine fuel this nd rd rdens rlod fdens desc out <> Check_failed.
Proof.
  intros Hr Hf Hfuel Hroom. unfold RenderOrRefine.
  destruct (CanRender this 0 _ _).
  - apply AddNodeForRender_in_range; assumption.
  - apply (for_children_in_range (VisibleTile desc (QuadMeshRenderData nd) (fun _ => True))).
    + intros c o Ho. apply SelectLODRefinement_in_range; assumption.
    + intros c o o' Hb. exact (SelectLODRefinement_emits _ _ _ _ _ _ _ _ Hb).
    + exact Hroom.
Qed.

Lemma SelectLOD_in_range (fuel : nat) :
  forall this lod out,
    (Z.of_nat fuel < 2 ^ 31 - 2)%Z -> Roomy out ->
    SelectLOD GetLODDistance fuel this nd lod desc out <> Check_failed.
Proof.
  induction fuel as [| fuel IH]; intros this lod out Hfuel Hroom; [discriminate |].
  cbn [SelectLOD].
  destruct (Frustum desc _ _); cbn [negb]; [| discriminate].
  destruct (DistanceExceeds _ (GetLODDistance lod _)).
  { apply RenderOrRefine_in_range; [lia | lia | lia | exact Hroom]. }
  destruct (lod =? 0)%Z.
  { destruct (CanRender this 0 _ _); [| discriminate].
    apply AddNodeForRender_in_range; [lia | exact Hroom]. }
  destruct (_ || _).
  { apply RenderOrRefine_in_range; [lia | lia | lia | exact Hroom]. }
  destruct (HasCompleteSubtree this && IsSubtreeSameQuadMesh this).
  - apply (for_nodes_in_range (VisibleTile desc (QuadMeshRenderData nd) (fun _ => True))).
    + intros n o Ho. apply IH; [lia | exact Ho].
    + intros n o o' Hb. exact (SelectLOD_emits _ _ _ _ _ _ _ _ Hb).
    + exact Hroom.
  - apply (for_children_in_range (VisibleTile desc (QuadMeshRenderData nd) (fun _ => True))).
    + intros c o Ho. apply IH; [lia | exact Ho].
    + intros c o o' Hb. exact (SelectLOD_emits _ _ _ _ _ _ _ _ Hb).
    + exact Hroom.
Qed.

Lemma SelectLODWithinBounds_in_range (fuel : nat) :
  TessellatedQuadMeshBoundsValid desc = true ->
  forall this lod out,
    Roomy out ->
    SelectLODWithinBounds fuel this nd lod desc out <> Check_failed.
Proof.
  intros Hvalid.
  induction fuel as [| fuel IH]; intros this lod out Hroom; [discriminate |].
  cbn [SelectLODWithinBounds]. rewrite Hvalid. cbn [negb].
  destruct (Frustum desc _ _); cbn [negb]; [| discriminate].
  destruct (lod =? 0)%Z.
  { destruct (_ && _); [| discriminate].
    apply AddNodeForRender_in_range; [lia | exact Hroom]. }
  destruct (HasCompleteSubtree this && IsSubtreeSameQuadMesh this).
  - apply (for_nodes_in_range (TileWithinBounds desc (QuadMeshRenderData nd) (fun _ => True))).
    + intros n o Ho. apply IH. exact Ho.
    + intros n o o' Hb. exact (SelectLODWithinBounds_emits _ _ _ _ _ _ _ Hb).
    + exact Hroom.
  - apply (for_children_in_range (TileWithinBounds desc (QuadMeshRenderData nd) (fun _ => True))).
    + intros c o Ho. apply IH. exact Ho.
    + intros c o o' Hb. exact (SelectLODWithinBounds_emits _ _ _ _ _ _ _ Hb).
    + exact Hroom.
Qed.
End BucketRange.

(** X9. When the output has a counter for each of the [DensityCount]
    density buckets, and there is at least one, no traversal trips the
    range check on [BucketInstanceCounts]: [SelectLOD] never fails, and
    [SelectLODWithinBounds] never fails once the tessellated bounds are
    valid. *)
Theorem Traversal_bucket_check_passes (GetLODDistance : Z -> Q -> Q)
    (fuel : nat) (this : FNode) (nd : FNodeData) (lod : Z)
    (desc : FTraversalDesc) (out : FTraversalOutput) :
  (1 <= DensityCount desc)%Z ->
  (DensityCount desc <= Z.of_nat (length (BucketInstanceCounts out)))%Z ->
  (Z.of_nat fuel < 2 ^ 31 - 2)%Z ->
  SelectLOD GetLODDistance fuel this nd lod desc out <> Check_failed
  /\ (TessellatedQuadMeshBoundsValid desc = true ->
      SelectLODWithinBounds fuel this nd lod desc out <> Check_failed).
Proof.
  intros Hd Hroom Hfuel. split.
  - apply SelectLOD_in_range; assumption.
  - intros Hv. apply SelectLODWithinBounds_in_range; assumption.
Qed.

Lemma Traversal_bucket_check_passes_witness :
  let t := TwoMaterialTree in
  let root := node_at (Nodes (NodeData t)) 0 in
  SelectLOD PowLODDistance 2 root (NodeData t) (TreeDepth t) FarDesc EmptyOutput4
  <> Check_failed
  /\ (TessellatedQuadMeshBoundsValid FarDesc = true ->
      SelectLODWithinBounds 2 root (NodeData t) (TreeDepth t) FarDesc EmptyOutput4
      <> Check_failed).
Proof.
  intros t root.
  apply (Traversal_bucket_check_passes PowLODDistance 2 root (NodeData t)
           (TreeDepth t) FarDesc EmptyOutput4); cbn; lia.
Defined.

(** ** The implicit subtree of a complete and uniform node *)


Section Synthesis.
Variable GetLODDistance : Z -> Q -> Q.
Variable nd : FNodeData.
Variable desc : FTraversalDesc.
Hypothesis density_pos : (1 <= DensityCount desc)%Z.

Let Roomy (out : FTraversalOutput) : Prop :=
  (DensityCount desc <= Z.of_nat (length (BucketInstanceCounts out)))%Z.








End Synthesis.




(** ** Where the bounds query stops *)

Lemma QueryBounds_children_first (rec : FNode -> Res (bool * FBox.t))
    (nodes : list FNode) (p : FVector2D.t) (b : FBox.t) (cs : list nat) :
  forall cnt,
    match List.find (LiveChildContaining nodes p) cs with
    | Some c =>
        In c cs /\ (0 < c)%nat
        /\ QueryBounds_children rec nodes p b cs cnt = rec (node_at nodes c)
    | None =>
        QueryBounds_children rec nodes p b cs cnt
        = Ret ((cnt =? 0)%nat && forallb (fun c => (c =? 0)%nat) cs, b)
    end.
Proof.
  induction cs as [| c cs IH]; intros cnt.
  - cbn. rewrite andb_true_r. reflexivity.
  - cbn [List.find QueryBounds_children forallb]. unfold LiveChildContaining at 1.
    destruct (Nat.ltb_spec 0 c) as [Hc | Hc]; cbn [andb].
    + destruct (InsideOrOnMin p (Bounds (node_at nodes c))) eqn:Hin.
      * split; [left; reflexivity |]. split; [exact Hc | reflexivity].
      * specialize (IH (S cnt)).
        destruct (List.find (LiveChildContaining nodes p) cs) as [c' |].
        -- destruct IH as (H1 & H2 & H3). split; [right; exact H1 |].
           split; [exact H2 | exact H3].
        -- rewrite IH. assert (Hn : (c =? 0)%nat = false) by (apply Nat.eqb_neq; lia).
           rewrite Hn. cbn. rewrite andb_false_r. reflexivity.
    + assert (c = 0%nat) by lia. subst c. specialize (IH cnt).
      destruct (List.find (LiveChildContaining nodes p) cs) as [c' |].
      * destruct IH as (H1 & H2 & H3). split; [right; exact H1 |].
        split; [exact H2 | exact H3].
      * rewrite IH. reflexivity.
Qed.

Lemma DescentTo_from_child (nodes : list FNode) (p : FVector2D.t)
    (this : FNode) (c : nat) (n : FNode) :
  FirstLiveChildContaining nodes this p = Some c ->
  (c < length nodes)%nat ->
  DescentTo nodes p (node_at nodes c) n ->
  DescentTo nodes p this n.
Proof.
  intros Hf Hc H. induction H as [| m c' _ IH Hf' Hc'].
  - apply (dt_down _ _ _ this c); [apply dt_here | exact Hf | exact Hc].
  - apply (dt_down _ _ _ m c'); [exact IH | exact Hf' | exact Hc'].
Qed.

(** X10. In an arena whose live child slots point inside it, when
    [QueryBoundsAtLocation] returns, the box it leaves is the box of the
    node at which the descent stopped: the node reached from the queried
    node by going, at each node, to the first live child whose half-open
    box holds the point, until there is no such child.  The flag
    returned says that this node has no child at all. *)
Theorem QueryBounds_stops_at (fuel : nat) (nd : FNodeData) (p : FVector2D.t) :
  forallb (ChildrenWithin (Nodes nd)) (Nodes nd) = true ->
  forall this found b,
    ChildrenWithin (Nodes nd) this = true ->
    QueryBoundsAtLocation fuel nd this p = Ret (found, b) ->
    exists n,
      DescentTo (Nodes nd) p this n
      /\ FirstLiveChildContaining (Nodes nd) n p = None
      /\ b = Bounds n
      /\ found = HasNoChild n.
Proof.
  intros HW.
  induction fuel as [| fuel IH]; intros this found b Hthis H; [discriminate H |].
  cbn [QueryBoundsAtLocation] in H.
  pose proof (QueryBounds_children_first
                (fun c => QueryBoundsAtLocation fuel nd c p)
                (Nodes nd) p (Bounds this) (Children this) 0) as Hfirst.
  destruct (List.find (LiveChildContaining (Nodes nd) p) (Children this))
    as [c |] eqn:Hfind.
  - destruct Hfirst as (Hin & Hc & Heq). rewrite Heq in H.
    pose proof (ChildrenWithin_spec _ _ _ Hthis Hin Hc) as Hlt.
    assert (Hcw : ChildrenWithin (Nodes nd) (node_at (Nodes nd) c) = true).
    { rewrite forallb_forall in HW. apply HW. unfold node_at. apply nth_In. exact Hlt. }
    destruct (IH _ _ _ Hcw H) as (n & Hd & Hnone & Hb & Hf).
    exists n. split; [| repeat split; assumption].
    exact (DescentTo_from_child _ _ _ _ _ Hfind Hlt Hd).
  - rewrite Hfirst in H. injection H as <- <-.
    exists this. split; [apply dt_here |]. split; [exact Hfind |].
    split; reflexivity.
Qed.

Lemma QueryBounds_stops_at_witness :
  let t := Unlock Tree256_corner false in
  exists found b,
    QueryBoundsAtLocation (QueryFuel t) (NodeData t)
      (node_at (Nodes (NodeData t)) 0) (FVector2D.mk 5 5) = Ret (found, b)
    /\ exists n,
         DescentTo (Nodes (NodeData t)) (FVector2D.mk 5 5)
                   (node_at (Nodes (NodeData t)) 0) n
         /\ FirstLiveChildContaining (Nodes (NodeData t)) n (FVector2D.mk 5 5) = None
         /\ b = Bounds n
         /\ found = HasNoChild n.
Proof.
  intros t. eexists. eexists. split; [vm_compute; reflexivity |].
  apply (QueryBounds_stops_at (QueryFuel t) (NodeData t) (FVector2D.mk 5 5)).
  - vm_compute. reflexivity.
  - vm_compute. reflexivity.
  - vm_compute. reflexivity.
Defined.

(** ** The arena after a pruning lock *)











(** ** Node count and phases *)

Lemma SwapRemove_patch_length (j e : nat) (parent : option nat)
    (nodes : list FNode) (i : nat) :
  length (SwapRemove_patch j e parent nodes i) = length nodes.
Proof.
  unfold SwapRemove_patch.
  destruct (0 <? child (node_at nodes j) i)%nat; destruct parent as [p |];
    try match goal with |- context [if ?c then _ else _] => destruct c end;
    rewrite ?length_alter; reflexivity.
Qed.

Lemma SwapRemove_length (j e : nat) (nodes : list FNode) :
  length (SwapRemove j e nodes) = length nodes.
Proof.
  unfold SwapRemove. destruct (j =? e)%nat; [reflexivity |].
  cbv zeta. unfold four_slots. cbn [fold_left].
  rewrite !SwapRemove_patch_length, !length_insert. reflexivity.
Qed.

Lemma Unlock_step_bounds (j : nat) (st : list FNode * nat) :
  length (fst (Unlock_step j st)) = length (fst st)
  /\ (snd (Unlock_step j st) <= snd st)%nat.
Proof.
  unfold Unlock_step. destruct st as [cur e]. cbn [fst snd].
  destruct (ParentIndex (node_at cur j)) as [p |];
    [| cbn [fst snd]; split; [reflexivity | lia]].
  destruct (HasCompleteSubtree (node_at cur p) && IsSubtreeSameQuadMesh (node_at cur p)).
  - cbn [fst snd]. rewrite SwapRemove_length, length_alter. split; [reflexivity | lia].
  - destruct (negb (HasMaterial (node_at cur j)) && HasCompleteSubtree (node_at cur j)
              && IsSubtreeSameQuadMesh (node_at cur j)).
    + cbn [fst snd]. rewrite SwapRemove_length, length_alter.
      split; [reflexivity | lia].
    + split; [reflexivity | cbn; lia].
Qed.

Lemma Unlock_loop_bounds (j : nat) :
  forall st,
    length (fst (Unlock_loop j st)) = length (fst st)
    /\ (snd (Unlock_loop j st) <= snd st)%nat.
Proof.
  induction j as [| j IH]; intros st; [split; [reflexivity | cbn; lia] |].
  cbn [Unlock_loop].
  destruct (IH (Unlock_step (S j) st)) as [H1 H2].
  destruct (Unlock_step_bounds (S j) st) as [H3 H4].
  split; [congruence | lia].
Qed.

Lemma PruneNodes_length (nodes : list FNode) :
  (length (PruneNodes nodes) <= length nodes)%nat
  /\ ((0 < length nodes)%nat -> (0 < length (PruneNodes nodes))%nat).
Proof.
  unfold PruneNodes. destruct (length nodes) as [| n] eqn:El; [split; lia |].
  cbv zeta.
  destruct (Unlock_loop_bounds n (nodes, n)) as [H1 H2]. cbn [fst snd] in H1, H2.
  rewrite length_take, H1, El. split; intros; lia.
Qed.

(** X13. [Unlock] marks the tree read-only and leaves the render data
    and the depth alone.  Without pruning it keeps the arena; with
    pruning, whatever the arena holds, it never adds a node and never
    removes the last one. *)
Theorem Unlock_node_count (this : FMeshQuadTree) (bPruneRedundantNodes : bool) :
  bIsReadOnly (Unlock this bPruneRedundantNodes) = true
  /\ QuadMeshRenderData (NodeData (Unlock this bPruneRedundantNodes))
     = QuadMeshRenderData (NodeData this)
  /\ TreeDepth (Unlock this bPruneRedundantNodes) = TreeDepth this
  /\ Nodes (NodeData (Unlock this false)) = Nodes (NodeData this)
  /\ (GetNodeCount (Unlock this bPruneRedundantNodes) <= GetNodeCount this)%nat
  /\ (GetNodeCount this = 0%nat
      <-> GetNodeCount (Unlock this bPruneRedundantNodes) = 0%nat).
Proof.
  split; [reflexivity |]. split; [reflexivity |]. split; [reflexivity |].
  split; [reflexivity |].
  unfold GetNodeCount, Unlock. cbn.
  destruct bPruneRedundantNodes; [| split; [lia | reflexivity]].
  destruct (PruneNodes_length (Nodes (NodeData this))) as [H1 H2].
  split; [exact H1 | lia].
Qed.



(** ** What an insertion keeps *)

Lemma Widens_refl (b : FBox.t) : Widens b b.
Proof. unfold Widens. repeat split; apply Qle_refl. Qed.

Lemma Widens_trans (a b c : FBox.t) : Widens a b -> Widens b c -> Widens a c.
Proof.
  intros (A1 & A2 & A3 & A4 & A5 & A6) (B1 & B2 & B3 & B4 & B5 & B6).
  unfold Widens. repeat split; try congruence; eapply Qle_trans; eassumption.
Qed.

Lemma Qmax_ge (a b : Q) : (a <= Qmax a b)%Q.
Proof.
  unfold Qmax. destruct (Qle_bool a b) eqn:E; [| apply Qle_refl].
  apply Qle_bool_iff. exact E.
Qed.

Lemma Qmin_le (a b : Q) : (Qmin a b <= a)%Q.
Proof.
  unfold Qmin. destruct (Qle_bool a b) eqn:E; [apply Qle_refl |].
  apply Qle_bool_false_iff in E. apply Qlt_le_weak. exact E.
Qed.

Lemma Grows_refl (nodes : list FNode) : Grows nodes nodes.
Proof.
  split; [lia |]. intros k _. split; [reflexivity |].
  split; [apply Widens_refl | reflexivity].
Qed.

Lemma Grows_trans (a b c : list FNode) : Grows a b -> Grows b c -> Grows a c.
Proof.
  intros [L1 H1] [L2 H2]. split; [lia |].
  intros k Hk. destruct (H1 k Hk) as (P1 & W1 & C1).
  destruct (H2 k ltac:(lia)) as (P2 & W2 & C2).
  split; [congruence |]. split; [eapply Widens_trans; eassumption |].
  intros i Hi. rewrite C2 by (rewrite C1 by exact Hi; exact Hi). apply C1. exact Hi.
Qed.

Lemma Grows_alter (f : FNode -> FNode) (k : nat) (nodes : list FNode) :
  (forall n, ParentIndex (f n) = ParentIndex n
             /\ Widens (Bounds n) (Bounds (f n))
             /\ forall i, (0 < child n i)%nat -> child (f n) i = child n i) ->
  Grows nodes (alter f k nodes).
Proof.
  intros Hf. split; [rewrite length_alter; lia |].
  intros j Hj. destruct (Nat.eq_dec k j) as [<- | Hne].
  - rewrite node_at_alter_eq by exact Hj. apply Hf.
  - rewrite node_at_alter_ne by exact Hne.
    split; [reflexivity |]. split; [apply Widens_refl | reflexivity].
Qed.

Lemma Grows_flags (f : FNode -> FNode) (k : nat) (nodes : list FNode) :
  (forall n, ParentIndex (f n) = ParentIndex n /\ Bounds (f n) = Bounds n
             /\ Children (f n) = Children n) ->
  Grows nodes (alter f k nodes).
Proof.
  intros Hf. apply Grows_alter. intros n. destruct (Hf n) as (H1 & H2 & H3).
  split; [exact H1 |]. split; [rewrite H2; apply Widens_refl |].
  intros i _. unfold child. rewrite H3. reflexivity.
Qed.

Lemma Grows_app (nodes : list FNode) (n : FNode) : Grows nodes (nodes ++ [n]).
Proof.
  split; [rewrite length_app; cbn; lia |].
  intros k Hk. rewrite node_at_app_l by exact Hk.
  split; [reflexivity |]. split; [apply Widens_refl | reflexivity].
Qed.

Section InsertionKeeps.
Variable rd : list FQuadMeshRenderData.
Variable cap : Z.
Variable mesh region : FBox.t.
Variable idx : nat.

Lemma visit_grows (self : nat) (nodes : list FNode) :
  Grows nodes (alter (AddNodes_visit rd region idx) self nodes).
Proof.
  apply Grows_alter. intros n. split; [reflexivity |]. split.
  - unfold Widens. cbn. repeat split; [apply Qmin_le | apply Qmax_ge].
  - intros i _. reflexivity.
Qed.

Lemma AddNodes_descend_grows (rec : nat -> list FNode -> Res (list FNode))
    (self : nat) (hb : FVector2D.t) (i : nat) (nodes nodes' : list FNode) :
  (forall c n n', rec c n = Ret n' -> Grows n n') ->
  AddNodes_descend cap mesh region rec self hb i nodes = Ret nodes' ->
  Grows nodes nodes'.
Proof.
  intros Hrec H. unfold AddNodes_descend in H.
  destruct (Nat.ltb_spec 0 (child (node_at nodes self) i)) as [Hc | Hc].
  - destruct (FBox.IntersectXY _ region); [exact (Hrec _ _ _ H) |].
    injection H as <-. apply Grows_refl.
  - destruct (_ && _); [| injection H as <-; apply Grows_refl].
    destruct (Z.of_nat (length nodes) <? cap)%Z; [| discriminate H].
    eapply Grows_trans; [| exact (Hrec _ _ _ H)].
    (* the slot written is the empty slot [i] of [self]; the two other
       writes go to the new node *)
    split; [rewrite !length_alter, length_app; lia |].
    intros k Hk.
    rewrite !(node_at_alter_ne _ _ (length nodes) k) by lia.
    destruct (Nat.eq_dec self k) as [<- | Hne].
    + rewrite node_at_alter_eq by (rewrite length_app; cbn [length]; lia).
      rewrite node_at_app_l by exact Hk.
      split; [reflexivity |]. split; [apply Widens_refl |].
      intros j Hj. apply child_setChild_ne. intros <-. lia.
    + rewrite node_at_alter_ne by exact Hne. rewrite node_at_app_l by exact Hk.
      split; [reflexivity |]. split; [apply Widens_refl | reflexivity].
Qed.
Lemma merge_grows (self i : nat) (nodes1 : list FNode) (prev : FNode) :
  Grows nodes1 (fst (AddNodes_merge self i nodes1 prev)).
Proof.
  unfold AddNodes_merge.
  destruct (0 <? child (node_at nodes1 self) i)%nat; cbn [fst];
    [| apply Grows_flags; intros n; repeat split].
  cbv zeta.
  match goal with
  | |- Grows _ (if _ then alter _ _ ?n2 else _) => apply (Grows_trans _ n2)
  end.
  - match goal with |- Grows _ (if ?c then _ else _) => destruct c end;
      [apply Grows_flags; intros n; repeat split | apply Grows_refl].
  - match goal with |- Grows _ (if ?c then _ else _) => destruct c end;
      [apply Grows_flags; intros n; repeat split | apply Grows_refl].
Qed.

Lemma for_slots_grows (body : nat -> list FNode * FNode -> Res (list FNode * FNode))
    (slots : list nat) :
  (forall i st st', body i st = Ret st' -> Grows (fst st) (fst st')) ->
  forall st st', for_slots body slots st = Ret st' -> Grows (fst st) (fst st').
Proof.
  intros Hb. induction slots as [| i slots IH]; intros st st' H.
  - injection H as <-. apply Grows_refl.
  - cbn [for_slots] in H. destruct (body i st) as [mid | |] eqn:E; try discriminate H.
    eapply Grows_trans; [exact (Hb _ _ _ E) | exact (IH _ _ H)].
Qed.

Lemma AddNodes_grows (lod : nat) :
  forall self nodes nodes',
    AddNodes rd cap mesh region idx lod self nodes = Ret nodes' ->
    Grows nodes nodes'.
Proof.
  induction lod as [| lower IH]; intros self nodes nodes' H.
  - cbn [AddNodes] in H. injection H as <-. apply visit_grows.
  - cbn [AddNodes] in H.
    destruct (for_slots _ four_slots _) as [st | |] eqn:E; try discriminate H.
    injection H as <-.
    eapply Grows_trans; [apply visit_grows |].
    apply (for_slots_grows _ _) in E; [exact E |].
    intros i s s' Hs. unfold AddNodes_slot in Hs.
    destruct (AddNodes_descend _ _ _ _ _ _ _ (fst s)) as [n1 | |] eqn:Ed;
      try discriminate Hs.
    injection Hs as <-.
    eapply Grows_trans; [| apply merge_grows].
    eapply AddNodes_descend_grows; [| exact Ed].
    intros c n n' Hc. exact (IH _ _ _ Hc).
Qed.

(** The root through an insertion. *)

Let Id0 (nodes nodes' : list FNode) : Prop :=
  SameIdentity (node_at nodes 0) (node_at nodes' 0).

Lemma Id0_refl (nodes : list FNode) : Id0 nodes nodes.
Proof. repeat split. Qed.

Lemma Id0_trans (a b c : list FNode) : Id0 a b -> Id0 b c -> Id0 a c.
Proof.
  intros (A1 & A2 & A3 & A4 & A5) (B1 & B2 & B3 & B4 & B5).
  unfold Id0, SameIdentity. repeat split; congruence.
Qed.

Lemma Id0_alter (f : FNode -> FNode) (k : nat) (nodes : list FNode) :
  (forall n, SameIdentity n (f n)) -> Id0 nodes (alter f k nodes).
Proof.
  intros Hf. unfold Id0. destruct (Nat.eq_dec k 0) as [-> | Hne].
  - destruct (Nat.lt_ge_cases 0 (length nodes)) as [Hl | Hl].
    + rewrite node_at_alter_eq by exact Hl. apply Hf.
    + destruct nodes; [repeat split | cbn in Hl; lia].
  - rewrite node_at_alter_ne by exact Hne. repeat split.
Qed.

Lemma Id0_other (f : FNode -> FNode) (k : nat) (nodes : list FNode) :
  k <> 0%nat -> Id0 nodes (alter f k nodes).
Proof.
  intros Hne. unfold Id0. rewrite node_at_alter_ne by exact Hne. repeat split.
Qed.

Lemma merge_root (self i : nat) (nodes1 : list FNode) (prev : FNode) :
  Id0 nodes1 (fst (AddNodes_merge self i nodes1 prev)).
Proof.
  unfold AddNodes_merge.
  destruct (0 <? child (node_at nodes1 self) i)%nat; cbn [fst];
    [| apply Id0_alter; intros n; repeat split].
  cbv zeta.
  match goal with
  | |- Id0 _ (if _ then alter _ _ ?n2 else _) => apply (Id0_trans _ n2)
  end.
  - match goal with |- Id0 _ (if ?c then _ else _) => destruct c end;
      [apply Id0_alter; intros n; repeat split | apply Id0_refl].
  - match goal with |- Id0 _ (if ?c then _ else _) => destruct c end;
      [apply Id0_alter; intros n; repeat split | apply Id0_refl].
Qed.

Lemma AddNodes_descend_root (rec : nat -> list FNode -> Res (list FNode))
    (self : nat) (hb : FVector2D.t) (i : nat) (nodes nodes' : list FNode) :
  (forall c n n', c <> 0%nat -> (0 < length n)%nat -> rec c n = Ret n' -> Id0 n n') ->
  (0 < length nodes)%nat ->
  AddNodes_descend cap mesh region rec self hb i nodes = Ret nodes' ->
  Id0 nodes nodes'.
Proof.
  intros Hrec Hlen H. unfold AddNodes_descend in H.
  destruct (Nat.ltb_spec 0 (child (node_at nodes self) i)) as [Hc | Hc].
  - destruct (FBox.IntersectXY _ region);
      [refine (Hrec _ _ _ _ Hlen H); lia | injection H as <-; apply Id0_refl].
  - destruct (_ && _); [| injection H as <-; apply Id0_refl].
    destruct (Z.of_nat (length nodes) <? cap)%Z; [| discriminate H].
    eapply Id0_trans;
      [| refine (Hrec _ _ _ _ _ H);
         [lia | rewrite !length_alter, length_app; cbn; lia]].
    eapply Id0_trans; [| apply Id0_other; lia].
    eapply Id0_trans; [| apply Id0_other; lia].
    eapply Id0_trans; [| apply Id0_alter; intros n; repeat split].
    unfold Id0. rewrite node_at_app_l by exact Hlen. repeat split.
Qed.

Lemma AddNodes_root (lod : nat) :
  forall self nodes nodes',
    (0 < length nodes)%nat ->
    AddNodes rd cap mesh region idx lod self nodes = Ret nodes' ->
    Id0 (alter (AddNodes_visit rd region idx) self nodes) nodes'.
Proof.
  induction lod as [| lower IH]; intros self nodes nodes' Hlen H.
  - cbn [AddNodes] in H. injection H as <-. apply Id0_refl.
  - cbn [AddNodes] in H.
    destruct (for_slots _ four_slots _) as [st | |] eqn:E; try discriminate H.
    injection H as <-.
    set (start := alter (AddNodes_visit rd region idx) self nodes) in *.
    assert (Hgen : forall slots s s',
               (0 < length (fst s))%nat ->
               for_slots (AddNodes_slot cap mesh region
                            (AddNodes rd cap mesh region idx lower) self
                            (HalfBoundSizeOf (Bounds (node_at start self))))
                         slots s = Ret s' ->
               Id0 (fst s) (fst s')).
    { induction slots as [| i slots IHs]; intros s s' Hs Hrun.
      - injection Hrun as <-. apply Id0_refl.
      - cbn [for_slots] in Hrun.
        destruct (AddNodes_slot _ _ _ _ _ _ i s) as [mid | |] eqn:Em;
          try discriminate Hrun.
        unfold AddNodes_slot in Em.
        destruct (AddNodes_descend _ _ _ _ _ _ _ (fst s)) as [n1 | |] eqn:Ed;
          try discriminate Em.
        injection Em as <-.
        assert (Hg : Grows (fst s) n1).
        { eapply AddNodes_descend_grows; [| exact Ed].
          intros c n n' Hc. exact (AddNodes_grows _ _ _ _ Hc). }
        assert (Hd : Id0 (fst s) n1).
        { eapply AddNodes_descend_root; [| exact Hs | exact Ed].
          intros c n n' Hc0 Hn Hc.
          eapply Id0_trans; [| exact (IH _ _ _ Hn Hc)].
          apply Id0_other. exact Hc0. }
        eapply Id0_trans; [exact Hd |].
        eapply Id0_trans; [apply merge_root |].
        apply IHs; [| exact Hrun].
        pose proof (merge_grows self i n1 (snd s)) as [Hl _].
        destruct Hg as [Hl' _]. lia. }
    apply (Hgen _ _ _) in E; [exact E |].
    cbn [fst]. subst start. rewrite length_alter. exact Hlen.
Qed.
End InsertionKeeps.

(** X15. A region insertion that returns keeps every node of the arena
    where it was: same index, same parent, same footprint in X and Y,
    a Z range that can only widen, and every child it already had.
    Render data, capacity and depth are not touched. *)
Theorem Insertion_keeps_existing_nodes (this t' : FMeshQuadTree)
    (InBounds : FBox.t) (InWaterBodyIndex : nat) :
  AddQuadMeshTilesInsideBounds this InBounds InWaterBodyIndex = Ret t' ->
  Grows (Nodes (NodeData this)) (Nodes (NodeData t'))
  /\ QuadMeshRenderData (NodeData t') = QuadMeshRenderData (NodeData this)
  /\ NodesMax (NodeData t') = NodesMax (NodeData this)
  /\ TreeDepth t' = TreeDepth this
  /\ bIsReadOnly t' = false.
Proof.
  unfold AddQuadMeshTilesInsideBounds. intros H.
  destruct (bIsReadOnly this) eqn:Hro; [discriminate H |].
  destruct (AddNodes _ _ _ _ _ _ _ _) as [nodes | |] eqn:E; try discriminate H.
  injection H as <-. cbn. split; [| repeat split; exact Hro].
  exact (AddNodes_grows _ _ _ _ _ _ _ _ _ E).
Qed.

Lemma Insertion_keeps_existing_nodes_witness :
  exists t',
    AddQuadMeshTilesInsideBounds Tree256_corner (Region 100 100 200 200) 1 = Ret t'
    /\ Grows (Nodes (NodeData Tree256_corner)) (Nodes (NodeData t'))
    /\ QuadMeshRenderData (NodeData t') = QuadMeshRenderData (NodeData Tree256_corner)
    /\ NodesMax (NodeData t') = NodesMax (NodeData Tree256_corner)
    /\ TreeDepth t' = TreeDepth Tree256_corner
    /\ bIsReadOnly t' = false.
Proof.
  eexists. split; [vm_compute; reflexivity |].
  apply (Insertion_keeps_existing_nodes Tree256_corner _ (Region 100 100 200 200) 1).
  vm_compute. reflexivity.
Defined.

Lemma AddTiles_root (this t' : FMeshQuadTree)
    (InBounds : FBox.t) (InWaterBodyIndex : nat) :
  (0 < GetNodeCount this)%nat ->
  AddQuadMeshTilesInsideBounds this InBounds InWaterBodyIndex = Ret t' ->
  let root := node_at (Nodes (NodeData this)) 0 in
  let root' := node_at (Nodes (NodeData t')) 0 in
  QuadMeshIndex root' = InWaterBodyIndex
  /\ TransitionQuadMeshIndex root' = to_uint16 InWaterBodyIndex
  /\ HasMaterial root'
     = HasMaterialAt (QuadMeshRenderData (NodeData this)) InWaterBodyIndex
  /\ ParentIndex root' = ParentIndex root
  /\ Bounds root'
     = FBox.setMinZ
         (FBox.setMaxZ (Bounds root)
            (Qmax (FVector.Z (FBox.Max (Bounds root)))
                  (FVector.Z (FBox.Max InBounds))))
         (Qmin (FVector.Z (FBox.Min (Bounds root)))
               (FVector.Z (FBox.Min InBounds))).
Proof.
  unfold AddQuadMeshTilesInsideBounds, GetNodeCount. intros Hn H.
  destruct (bIsReadOnly this); [discriminate H |].
  destruct (AddNodes _ _ _ _ _ _ _ _) as [nodes | |] eqn:E; try discriminate H.
  injection H as <-. cbn [NodeData Nodes setNodeData setNodes].
  pose proof (AddNodes_root _ _ _ _ _ _ _ _ _ Hn E) as (H1 & H2 & H3 & H4 & H5).
  rewrite node_at_alter_eq in H1, H2, H3, H4, H5 by exact Hn.
  cbv zeta. rewrite H1, H2, H3, H4, H5. repeat split.
Qed.

(** X16. Every region insertion that returns stamps the root, whether
    or not the region meets the tree: the root takes the inserted
    render-data index, its truncation to 16 bits as transition index
    and that record's material flag, and its Z range is widened by the
    region's; its footprint and its parent index stay. *)
Theorem Insertion_stamps_root (this t' : FMeshQuadTree)
    (InBounds : FBox.t) (InWaterBodyIndex : nat) :
  (0 < GetNodeCount this)%nat ->
  AddQuadMeshTilesInsideBounds this InBounds InWaterBodyIndex = Ret t' ->
  let root := node_at (Nodes (NodeData this)) 0 in
  let root' := node_at (Nodes (NodeData t')) 0 in
  QuadMeshIndex root' = InWaterBodyIndex
  /\ TransitionQuadMeshIndex root' = to_uint16 InWaterBodyIndex
  /\ HasMaterial root'
     = HasMaterialAt (QuadMeshRenderData (NodeData this)) InWaterBodyIndex
  /\ ParentIndex root' = ParentIndex root
  /\ Bounds root'
     = FBox.setMinZ
         (FBox.setMaxZ (Bounds root)
            (Qmax (FVector.Z (FBox.Max (Bounds root)))
                  (FVector.Z (FBox.Max InBounds))))
         (Qmin (FVector.Z (FBox.Min (Bounds root)))
               (FVector.Z (FBox.Min InBounds))).
Proof.
  intros Hn H. exact (AddTiles_root this t' InBounds InWaterBodyIndex Hn H).
Qed.

Lemma Insertion_stamps_root_witness :
  exists t',
    (0 < GetNodeCount Tree256_corner)%nat
    /\ AddQuadMeshTilesInsideBounds Tree256_corner (Region 900 900 950 950) 0
       = Ret t'
    /\ QuadMeshIndex (node_at (Nodes (NodeData t')) 0) = 0%nat
    /\ HasMaterial (node_at (Nodes (NodeData t')) 0) = false.
Proof.
  eexists.
  assert (Hn : (0 < GetNodeCount Tree256_corner)%nat) by (vm_compute; lia).
  split; [exact Hn |]. split; [vm_compute; reflexivity |].
  pose proof (Insertion_stamps_root Tree256_corner _ (Region 900 900 950 950) 0 Hn
                ltac:(vm_compute; reflexivity)) as (H1 & _ & H3 & _).
  split; [exact H1 | exact H3].
Defined.

(** ** A region that misses the tree *)

Lemma IntersectXY_miss (root b region : FBox.t) :
  CoversXY root b ->
  FBox.IntersectXY root region = false ->
  FBox.IntersectXY b region = false.
Proof.
  intros (H1 & H2 & H3 & H4). unfold FBox.IntersectXY.
  rewrite !andb_false_iff, !negb_false_iff, !orb_true_iff, !Qlt_bool_iff.
  intros [[H | H] | [H | H]]; [left; left | left; right | right; left | right; right];
    lra.
Qed.

Lemma CoversXY_refl (b : FBox.t) : CoversXY b b.
Proof. unfold CoversXY. repeat split; apply Qle_refl. Qed.

Section NoCreate.
Variable rd : list FQuadMeshRenderData.
Variable cap : Z.
Variable mesh region : FBox.t.
Variable idx : nat.

Lemma AddNodes_slots_create_nothing
    (rec : nat -> list FNode -> Res (list FNode)) (self : nat)
    (hb : FVector2D.t) (B : FBox.t) (slots : list nat) :
  (forall i, In i slots ->
             FBox.IntersectXY (ChildBoundsOf B hb region i) region = false) ->
  forall cur prev,
    Bounds (node_at cur self) = B ->
    (forall i, child (node_at cur self) i = 0%nat) ->
    exists st,
      for_slots (AddNodes_slot cap mesh region rec self hb) slots (cur, prev) = Ret st
      /\ length (fst st) = length cur
      /\ forall k, k <> self -> node_at (fst st) k = node_at cur k.
Proof.
  induction slots as [| i slots IH]; intros Hmiss cur prev HB Hch.
  - exists (cur, prev). repeat split.
  - specialize (IH (fun j Hj => Hmiss j (or_intror Hj))).
    assert (Hd : AddNodes_descend cap mesh region rec self hb i cur = Ret cur).
    { unfold AddNodes_descend.
      rewrite Hch, Nat.ltb_irrefl, HB, (Hmiss i (or_introl eq_refl)). reflexivity. }
    assert (Hm : AddNodes_merge self i cur prev
                 = (alter (setHasCompleteSubtree false) self cur, prev)).
    { unfold AddNodes_merge. rewrite Hch, Nat.ltb_irrefl. reflexivity. }
    assert (Hs : AddNodes_slot cap mesh region rec self hb i (cur, prev)
                 = Ret (alter (setHasCompleteSubtree false) self cur, prev)).
    { unfold AddNodes_slot. cbn [fst snd]. rewrite Hd. cbn. rewrite Hm. reflexivity. }
    cbn [for_slots]. rewrite Hs.
    change (Ret ?x ≫= ?f) with (f x). cbv beta.
    set (cur1 := alter (setHasCompleteSubtree false) self cur).
    destruct (IH cur1 prev) as (st & Hrun & Hlen & Hsame).
    + subst cur1. rewrite (node_at_alter_field Bounds) by reflexivity. exact HB.
    + intros j. subst cur1. unfold child.
      rewrite (node_at_alter_field Children) by reflexivity. apply Hch.
    + exists st. split; [exact Hrun |]. split.
      * rewrite Hlen. subst cur1. apply length_alter.
      * intros k Hk. rewrite Hsame by exact Hk. subst cur1.
        apply node_at_alter_ne. congruence.
Qed.
End NoCreate.

Lemma AddRenderDatas_table (rs : list FQuadMeshRenderData) :
  forall t,
    QuadMeshRenderData (NodeData (AddRenderDatas t rs))
    = QuadMeshRenderData (NodeData t) ++ rs.
Proof.
  induction rs as [| r rs IH]; intros t.
  - rewrite app_nil_r. reflexivity.
  - change (AddRenderDatas t (r :: rs))
      with (AddRenderDatas (fst (AddQuadMeshRenderData t r)) rs).
    rewrite IH. cbn. rewrite <- app_assoc. reflexivity.
Qed.

(** X17. Take a tree initialised with a positive tile size and extent
    components from 1 to 16384, to which render data has been added, and
    a render-data index inside its table.  A region whose XY box does
    not meet the root box creates no node: the insertion returns, the
    arena still holds the root alone, and the root nevertheless carries
    the region's render-data index. *)
Theorem Missed_region_adds_no_node (this : FMeshQuadTree) (InBounds : FBox2D.t)
    (InTileSize : Q) (e : Z * Z) (rs : list FQuadMeshRenderData)
    (region : FBox.t) (idx : nat) :
  let t0 := AddRenderDatas (InitTree this InBounds InTileSize e) rs in
  (0 < InTileSize)%Q ->
  ExtentWithinReserve e ->
  (idx < length (QuadMeshRenderData (NodeData t0)))%nat ->
  FBox.IntersectXY (RootBoxOf InBounds InTileSize e) region = false ->
  exists t',
    AddQuadMeshTilesInsideBounds t0 region idx = Ret t'
    /\ GetNodeCount t' = 1%nat
    /\ QuadMeshIndex (node_at (Nodes (NodeData t')) 0) = idx.
Proof.
  intros t0 Hts _ _ Hmiss.
  pose proof (RootBox_nonempty InBounds InTileSize e Hts) as Hne.
  destruct (InitTree_shape this InBounds InTileSize e)
    as (d & Hd & _ & Hn & _ & Hro).
  cbv zeta in Hd, Hn, Hro.
  destruct (AddRenderDatas_fields rs (InitTree this InBounds InTileSize e))
    as (F1 & _ & _ & F4 & F5).
  fold t0 in F1, F4, F5.
  rewrite <- F1 in Hn. rewrite <- F4 in Hd. rewrite <- F5 in Hro.
  set (root0 := setBounds (RootBoxOf InBounds InTileSize e) DefaultNode) in *.
  assert (Hrun : exists nodes,
             AddNodes (QuadMeshRenderData (NodeData t0)) (NodesMax (NodeData t0))
               (MeshBoundsOf t0) region idx d 0 [root0] = Ret nodes
             /\ length nodes = 1%nat).
  { destruct d as [| lower].
    - eexists. split; [reflexivity | reflexivity].
    - cbn [AddNodes].
      set (v := AddNodes_visit (QuadMeshRenderData (NodeData t0)) region idx root0).
      change (alter _ 0%nat [root0]) with [v].
      change (node_at [v] 0) with v.
      destruct (AddNodes_slots_create_nothing (NodesMax (NodeData t0))
                  (MeshBoundsOf t0) region
                  (AddNodes (QuadMeshRenderData (NodeData t0)) (NodesMax (NodeData t0))
                            (MeshBoundsOf t0) region idx lower)
                  0 (HalfBoundSizeOf (Bounds v)) (Bounds v) four_slots)
        with (cur := [v]) (prev := v) as (st & Hst & Hlen & _).
      + intros i Hi.
        assert (Hi4 : (i < 4)%nat).
        { unfold four_slots in Hi. cbn in Hi. lia. }
        apply (IntersectXY_miss (Bounds v)).
        * apply ChildBoundsOf_inside; [exact Hi4 | exact Hne | apply CoversXY_refl].
        * exact Hmiss.
      + reflexivity.
      + intros i. unfold child. cbn.
        destruct i as [| [| [| [| [| i]]]]]; reflexivity.
      + rewrite Hst. exists (fst st). split; [reflexivity | exact Hlen]. }
  destruct Hrun as (nodes & Hrun & Hlen).
  assert (Hadd : AddQuadMeshTilesInsideBounds t0 region idx
                 = Ret (setNodeData (setNodes nodes (NodeData t0)) t0)).
  { unfold AddQuadMeshTilesInsideBounds. rewrite Hro, Hd, Nat2Z.id, Hn.
    fold (MeshBoundsOf t0). rewrite Hrun. reflexivity. }
  eexists. split; [exact Hadd |]. split; [exact Hlen |].
  assert (Hcount : (0 < GetNodeCount t0)%nat).
  { unfold GetNodeCount. rewrite Hn. cbn. lia. }
  exact (proj1 (AddTiles_root t0 _ region idx Hcount Hadd)).
Qed.

Lemma Missed_region_adds_no_node_witness :
  exists t',
    AddQuadMeshTilesInsideBounds (AddRenderDatas Tree256 [Material7])
                                 (Region 900 900 950 950) 1 = Ret t'
    /\ GetNodeCount t' = 1%nat
    /\ QuadMeshIndex (node_at (Nodes (NodeData t')) 0) = 1%nat.
Proof.
  assert (H1 : (0 < 32)%Q) by reflexivity.
  assert (H2 : ExtentWithinReserve (4, 4)%Z).
  { unfold ExtentWithinReserve. cbn. lia. }
  assert (H3 : (1 < length (QuadMeshRenderData
                              (NodeData (AddRenderDatas Tree256 [Material7]))))%nat).
  { cbn. lia. }
  assert (H4 : FBox.IntersectXY (RootBoxOf Bounds256 32 (4, 4)%Z)
                                (Region 900 900 950 950) = false)
    by (vm_compute; reflexivity).
  exact (Missed_region_adds_no_node EmptyTree Bounds256 32 (4, 4)%Z [Material7]
           (Region 900 900 950 950) 1 H1 H2 H3 H4).
Defined.

(** ** [AddQuadMesh] *)

(** X18. Take the tree a build leaves after an [InitTree] with extent
    components from 1 to 16384, where the regions of the build and the
    index now inserted lie inside the render-data table.  [AddQuadMesh]
    returns on it whatever polygon and ocean box it is given: the
    capacity check does not fail, the node count stays within the
    reserve, a value of [int32], the nodes that existed stay in place,
    and the root takes the inserted index and has its Z range widened by
    the ocean box's own Z range, which the shrinking in X and Y leaves
    alone. *)
Theorem AddQuadMesh_returns (this : FMeshQuadTree) (InBounds : FBox2D.t)
    (InTileSize : Q) (e : Z * Z) (ops : list BuildOp)
    (InPoly : list FVector2D.t) (InOceanBounds : FBox.t) (idx : nat) :
  ExtentWithinReserve e ->
  RegionsInTable [DefaultRenderData] (ops ++ [AddRegion InOceanBounds idx]) ->
  exists t t',
    RunBuild (InitTree this InBounds InTileSize e) ops = Ret t
    /\ AddQuadMesh t InPoly InOceanBounds idx = Ret t'
    /\ (Z.of_nat (GetNodeCount t') <= NodesMax (NodeData t') < 2 ^ 31)%Z
    /\ NodesMax (NodeData t') = NodesMax (NodeData t)
    /\ Grows (Nodes (NodeData t)) (Nodes (NodeData t'))
    /\ QuadMeshIndex (node_at (Nodes (NodeData t')) 0) = idx
    /\ FVector.Z (FBox.Max (Bounds (node_at (Nodes (NodeData t')) 0)))
       = Qmax (FVector.Z (FBox.Max (Bounds (node_at (Nodes (NodeData t)) 0))))
              (FVector.Z (FBox.Max InOceanBounds))
    /\ FVector.Z (FBox.Min (Bounds (node_at (Nodes (NodeData t')) 0)))
       = Qmin (FVector.Z (FBox.Min (Bounds (node_at (Nodes (NodeData t)) 0))))
              (FVector.Z (FBox.Min InOceanBounds)).
Proof.
  intros He _.
  destruct (Built_init false this InBounds InTileSize e) as (d & HB).
  destruct (RunBuild_built false d ops _ HB) as (t & Hrun & HB' & Hcap0).
  { intros Hw. discriminate Hw. }
  pose proof (ExtentWithinReserve_fits e He) as Hfit.
  change (InitCapacity (RootDim e))
    with (NodesMax (NodeData (InitTree this InBounds InTileSize e))) in Hfit.
  exists t.
  set (TileBounds :=
         FBox.make
           (FVector.of2D
              (FVector2D.add (FVector.to2D (FBox.Min InOceanBounds))
                 (FVector2D.mk (LeafSize t * (1 # 4)) (LeafSize t * (1 # 4))))
              (FVector.Z (FBox.Min InOceanBounds)))
           (FVector.of2D
              (FVector2D.sub (FVector.to2D (FBox.Max InOceanBounds))
                 (FVector2D.mk (LeafSize t * (1 # 4)) (LeafSize t * (1 # 4))))
              (FVector.Z (FBox.Max InOceanBounds)))).
  destruct (Built_AddRegion false d t TileBounds idx HB')
    as (t' & Hadd & HB'' & Hcap & _).
  { intros Hw. discriminate Hw. }
  exists t'. split; [exact Hrun |].
  assert (Hro : bIsReadOnly t = false) by (destruct HB' as (_ & _ & H & _); exact H).
  assert (Hq : AddQuadMesh t InPoly InOceanBounds idx = Ret t').
  { unfold AddQuadMesh. rewrite Hro. exact Hadd. }
  split; [exact Hq |].
  split.
  { pose proof (Built_count _ _ _ HB'') as Hc. rewrite Hcap, Hcap0 in *. lia. }
  split; [exact Hcap |].
  assert (Hn : (0 < GetNodeCount t)%nat).
  { destruct HB' as (_ & _ & _ & paths & I & _). unfold GetNodeCount.
    pose proof (inv_root _ _ _ I) as H. apply lookup_lt_Some in H.
    rewrite (inv_len _ _ _ I) in H. exact H. }
  destruct (AddTiles_root t t' TileBounds idx Hn Hadd) as (R1 & _ & _ & _ & R5).
  split.
  { unfold AddQuadMeshTilesInsideBounds in Hadd. rewrite Hro in Hadd.
    destruct (AddNodes _ _ _ _ _ _ _ _) as [nodes | |] eqn:E; try discriminate Hadd.
    injection Hadd as <-. exact (AddNodes_grows _ _ _ _ _ _ _ _ _ E). }
  split; [exact R1 |]. rewrite R5. split; reflexivity.
Qed.

Lemma AddQuadMesh_returns_witness :
  exists t t',
    RunBuild Tree256 Build256_corner = Ret t
    /\ AddQuadMesh t [] (Region 0 0 256 256) 1 = Ret t'
    /\ QuadMeshIndex (node_at (Nodes (NodeData t')) 0) = 1%nat.
Proof.
  assert (H1 : ExtentWithinReserve (4, 4)%Z).
  { unfold ExtentWithinReserve. cbn. lia. }
  assert (H2 : RegionsInTable [DefaultRenderData]
                 (Build256_corner ++ [AddRegion (Region 0 0 256 256) 1%nat])).
  { cbn. lia. }
  destruct (AddQuadMesh_returns EmptyTree Bounds256 32 (4, 4)%Z Build256_corner
              [] (Region 0 0 256 256) 1 H1 H2)
    as (t & t' & Hr & Ha & _ & _ & _ & Hq & _).
  exists t, t'. split; [exact Hr |]. split; [exact Ha | exact Hq].
Defined.

(** ** The interpolated height stays within its samples *)

Lemma Frac_range (x : Q) : (0 <= Frac x)%Q /\ (Frac x < 1)%Q.
Proof.
  unfold Frac, Floor.
  pose proof (Qfloor_le x) as Hlo. pose proof (Qlt_floor x) as Hhi.
  rewrite inject_Z_plus in Hhi.
  assert (E : (inject_Z 1 == 1)%Q) by reflexivity.
  split; lra.
Qed.

Lemma Lerp_between (A B a lo hi : Q) :
  (lo <= A <= hi)%Q -> (lo <= B <= hi)%Q -> (0 <= a <= 1)%Q ->
  (lo <= Lerp A B a <= hi)%Q.
Proof.
  intros [HA1 HA2] [HB1 HB2] [Ha1 Ha2]. unfold Lerp.
  assert (E : (A + a * (B - A) == (1 - a) * A + a * B)%Q) by ring.
  rewrite E.
  assert (L1 : (0 <= (1 - a) * (A - lo))%Q) by (apply Qmult_le_0_compat; lra).
  assert (L2 : (0 <= a * (B - lo))%Q) by (apply Qmult_le_0_compat; lra).
  assert (U1 : (0 <= (1 - a) * (hi - A))%Q) by (apply Qmult_le_0_compat; lra).
  assert (U2 : (0 <= a * (hi - B))%Q) by (apply Qmult_le_0_compat; lra).
  split; lra.
Qed.

Lemma BiLerp_between (P00 P10 P01 P11 fx fy lo hi : Q) :
  (lo <= P00 <= hi)%Q -> (lo <= P10 <= hi)%Q ->
  (lo <= P01 <= hi)%Q -> (lo <= P11 <= hi)%Q ->
  (0 <= fx <= 1)%Q -> (0 <= fy <= 1)%Q ->
  (lo <= BiLerp P00 P10 P01 P11 fx fy <= hi)%Q.
Proof.
  intros H00 H10 H01 H11 Hx Hy. unfold BiLerp.
  apply Lerp_between; [apply Lerp_between | apply Lerp_between |]; assumption.
Qed.

(** X19. With a positive leaf size, when the four corner samples
    return, the interpolated query returns a height between the
    smallest and the largest of the four sampled heights; four equal
    samples are reproduced. *)
Theorem QueryInterpolated_within_samples (this : FMeshQuadTree)
    (p : FVector2D.t) (r0 r1 r2 r3 : bool * Q) (lo hi : Q) :
  (0 < LeafSize this)%Q ->
  Forall2 (fun q r => QueryTileBaseHeightAtLocation this q = Ret r)
          (CornerSampleWorldPositions this p) [r0; r1; r2; r3] ->
  Forall (fun r => (lo <= snd r <= hi)%Q) [r0; r1; r2; r3] ->
  exists h,
    QueryInterpolatedTileBaseHeightAtLocation this p
    = Ret (fst r0 && fst r1 && fst r2 && fst r3, h)
    /\ (lo <= h <= hi)%Q.
Proof.
  intros _ Hq Hr.
  unfold CornerSampleWorldPositions in Hq.
  inversion Hq as [| q0 s0 l0 l0' H0 Hq1]; subst; clear Hq.
  inversion Hq1 as [| q1 s1 l1 l1' H1 Hq2]; subst; clear Hq1.
  inversion Hq2 as [| q2 s2 l2 l2' H2 Hq3]; subst; clear Hq2.
  inversion Hq3 as [| q3 s3 l3 l3' H3 _]; subst; clear Hq3.
  inversion Hr as [| ? ? B0 Hr1]; subst; clear Hr.
  inversion Hr1 as [| ? ? B1 Hr2]; subst; clear Hr1.
  inversion Hr2 as [| ? ? B2 Hr3]; subst; clear Hr2.
  inversion Hr3 as [| ? ? B3 _]; subst; clear Hr3.
  set (n := NormalizedGridPosition this p).
  exists (BiLerp (snd r0) (snd r1) (snd r2) (snd r3)
                 (Frac (FVector2D.X n)) (Frac (FVector2D.Y n))).
  split.
  - unfold QueryInterpolatedTileBaseHeightAtLocation, CornerSampleWorldPositions.
    cbn [SampleCorners]. rewrite H0, H1, H2, H3.
    destruct r0 as [b0 h0], r1 as [b1 h1], r2 as [b2 h2], r3 as [b3 h3].
    cbn [mbind Res_bind mret Res_ret fst snd nth].
    destruct b0, b1, b2, b3; reflexivity.
  - pose proof (Frac_range (FVector2D.X n)) as [Fx0 Fx1].
    pose proof (Frac_range (FVector2D.Y n)) as [Fy0 Fy1].
    apply BiLerp_between; try assumption; split; lra.
Qed.

Lemma QueryInterpolated_within_samples_witness :
  let t := Unlock Tree256_full true in
  (0 < LeafSize t)%Q
  /\ exists h,
       QueryInterpolatedTileBaseHeightAtLocation t (FVector2D.mk 100 100)
       = Ret (true, h)
       /\ (5 <= h <= 5)%Q.
Proof.
  intros t.
  assert (HL : (0 < LeafSize t)%Q) by reflexivity.
  assert (Hq : Forall2 (fun q r => QueryTileBaseHeightAtLocation t q = Ret r)
                 (CornerSampleWorldPositions t (FVector2D.mk 100 100))
                 [(true, 5%Q); (true, 5%Q); (true, 5%Q); (true, 5%Q)]).
  { unfold CornerSampleWorldPositions.
    repeat (apply List.Forall2_cons; [vm_compute; reflexivity |]).
    apply List.Forall2_nil. }
  assert (Hr : Forall (fun r : bool * Q => (5 <= snd r <= 5)%Q)
                 [(true, 5%Q); (true, 5%Q); (true, 5%Q); (true, 5%Q)]).
  { repeat (apply List.Forall_cons; [cbn; split; apply Qle_refl |]).
    apply List.Forall_nil. }
  exact (conj HL
           (QueryInterpolated_within_samples t (FVector2D.mk 100 100)
              (true, 5%Q) (true, 5%Q) (true, 5%Q) (true, 5%Q) 5 5 HL Hq Hr)).
Defined.

(** ** A tree built from one region *)

Section Stamping.
Variable rd : list FQuadMeshRenderData.
Variable cap : Z.
Variable mesh region : FBox.t.
Variable idx : nat.

Lemma AllStamped_alter (f : FNode -> FNode) (k : nat) (nodes : list FNode) :
  (forall n, QuadMeshIndex (f n) = QuadMeshIndex n) ->
  AllStamped idx nodes -> AllStamped idx (alter f k nodes).
Proof.
  intros Hf H j Hj. rewrite length_alter in Hj.
  rewrite (node_at_alter_field QuadMeshIndex) by exact Hf. apply H. exact Hj.
Qed.

Lemma merge_stamped (self i : nat) (nodes1 : list FNode) (prev : FNode) :
  AllStamped idx nodes1 ->
  AllStamped idx (fst (AddNodes_merge self i nodes1 prev)).
Proof.
  intros H. unfold AddNodes_merge.
  destruct (0 <? child (node_at nodes1 self) i)%nat; cbn [fst];
    [| apply AllStamped_alter; [reflexivity | exact H]].
  cbv zeta.
  match goal with
  | |- AllStamped _ (if ?c then alter _ _ ?n2 else _) =>
      assert (H2 : AllStamped idx n2); [| destruct c]
  end.
  - match goal with |- AllStamped _ (if ?c then _ else _) => destruct c end;
      [apply AllStamped_alter; [reflexivity | exact H] | exact H].
  - apply AllStamped_alter; [reflexivity | exact H2].
  - exact H2.
Qed.

Lemma AddNodes_descend_stamped (rec : nat -> list FNode -> Res (list FNode))
    (self : nat) (hb : FVector2D.t) (i : nat) (nodes nodes' : list FNode) :
  (forall c n n',
      (forall k, (k < length n)%nat -> k <> c -> QuadMeshIndex (node_at n k) = idx) ->
      rec c n = Ret n' -> AllStamped idx n') ->
  AllStamped idx nodes ->
  AddNodes_descend cap mesh region rec self hb i nodes = Ret nodes' ->
  AllStamped idx nodes'.
Proof.
  intros Hrec Hall H. unfold AddNodes_descend in H.
  destruct (0 <? child (node_at nodes self) i)%nat.
  - destruct (FBox.IntersectXY _ region); [| injection H as <-; exact Hall].
    apply (Hrec _ _ _ (fun k Hk _ => Hall k Hk) H).
  - destruct (_ && _); [| injection H as <-; exact Hall].
    destruct (Z.of_nat (length nodes) <? cap)%Z; [| discriminate H].
    apply (Hrec _ _ _) in H; [exact H |].
    intros k Hk Hne. rewrite !length_alter, length_app in Hk. cbn [length] in Hk.
    rewrite !(node_at_alter_field QuadMeshIndex) by reflexivity.
    rewrite node_at_app_l by lia. apply Hall. lia.
Qed.

Lemma AddNodes_stamps (lod : nat) :
  forall self nodes nodes',
    (forall k, (k < length nodes)%nat -> k <> self ->
               QuadMeshIndex (node_at nodes k) = idx) ->
    AddNodes rd cap mesh region idx lod self nodes = Ret nodes' ->
    AllStamped idx nodes'.
Proof.
  induction lod as [| lower IH]; intros self nodes nodes' Hpre H.
  - cbn [AddNodes] in H. injection H as <-.
    intros k Hk. rewrite length_alter in Hk.
    destruct (Nat.eq_dec self k) as [<- | Hne].
    + rewrite node_at_alter_eq by exact Hk. reflexivity.
    + rewrite node_at_alter_ne by exact Hne. apply Hpre; [exact Hk | congruence].
  - cbn [AddNodes] in H.
    destruct (for_slots _ four_slots _) as [st | |] eqn:E; try discriminate H.
    injection H as <-.
    set (start := alter (AddNodes_visit rd region idx) self nodes) in *.
    assert (Hstart : AllStamped idx start).
    { intros k Hk. subst start. rewrite length_alter in Hk.
      destruct (Nat.eq_dec self k) as [<- | Hne].
      + rewrite node_at_alter_eq by exact Hk. reflexivity.
      + rewrite node_at_alter_ne by exact Hne. apply Hpre; [exact Hk | congruence]. }
    assert (Hgen : forall slots s s',
               AllStamped idx (fst s) ->
               for_slots (AddNodes_slot cap mesh region
                            (AddNodes rd cap mesh region idx lower) self
                            (HalfBoundSizeOf (Bounds (node_at start self))))
                         slots s = Ret s' ->
               AllStamped idx (fst s')).
    { induction slots as [| i slots IHs]; intros s s' Hs Hrun.
      - injection Hrun as <-. exact Hs.
      - cbn [for_slots] in Hrun.
        destruct (AddNodes_slot _ _ _ _ _ _ i s) as [mid | |] eqn:Em;
          try discriminate Hrun.
        unfold AddNodes_slot in Em.
        destruct (AddNodes_descend _ _ _ _ _ _ _ (fst s)) as [n1 | |] eqn:Ed;
          try discriminate Em.
        injection Em as <-.
        apply (IHs _ _) in Hrun; [exact Hrun |].
        apply merge_stamped.
        eapply AddNodes_descend_stamped; [| exact Hs | exact Ed].
        intros c n n' Hn Hc. exact (IH _ _ _ Hn Hc). }
    exact (Hgen four_slots (start, node_at start 0) st Hstart E).
Qed.
End Stamping.

Lemma QueryBaseHeight_stamped (d : nat) (nodes : list FNode)
    (paths : list (list nat)) (cap : Z) (rd : list FQuadMeshRenderData)
    (idx : nat) (p : FVector2D.t) :
  TreeInv d nodes paths -> AllStamped idx nodes ->
  forall fuel k q found h,
    paths !! k = Some q ->
    QueryBaseHeightAtLocation fuel (mkNodeData nodes cap rd) (node_at nodes k) p
    = Ret (found, h) ->
    h = SurfaceBaseHeight (render_at rd idx).
Proof.
  intros I Hall. induction fuel as [| fuel IH]; intros k q found h Hq H;
    [discriminate H |].
  pose proof (TreeInv_index _ _ _ _ _ I Hq) as Hk.
  cbn [QueryBaseHeightAtLocation QuadMeshRenderData Nodes] in H.
  rewrite (Hall k Hk) in H.
  destruct (HasCompleteSubtree (node_at nodes k) && IsSubtreeSameQuadMesh (node_at nodes k)).
  - injection H as _ <-. reflexivity.
  - rewrite QueryBaseHeight_children_find in H.
    destruct (List.find _ _) as [c |] eqn:Ef.
    + apply find_some_in in Ef as [Hin Hlive].
      apply andb_true_iff in Hlive as [Hpos _]. apply Nat.ltb_lt in Hpos.
      apply In_children_child in Hin as [i Hi]. subst c.
      exact (IH _ _ _ _ (inv_child _ _ _ I k q i Hq Hpos) H).
    + injection H as _ <-. reflexivity.
Qed.

(** ** The component *)

(** X20. [CalcBounds] returns a box with a non-empty Z range and the
    footprint it was given: a box whose Z range is empty or inverted,
    as the root box of a tree into which nothing was inserted is, gets
    the range from 0 to 100, and any other box is returned as it is. *)
Theorem CalcBounds_valid (NewBounds : FBox.t) (InBounds : FBox2D.t)
    (InTileSize : Q) (e : Z * Z) :
  (FVector.Z (FBox.Min (CalcBounds NewBounds))
   < FVector.Z (FBox.Max (CalcBounds NewBounds)))%Q
  /\ FVector.to2D (FBox.Min (CalcBounds NewBounds)) = FVector.to2D (FBox.Min NewBounds)
  /\ FVector.to2D (FBox.Max (CalcBounds NewBounds)) = FVector.to2D (FBox.Max NewBounds)
  /\ ((FVector.Z (FBox.Min NewBounds) < FVector.Z (FBox.Max NewBounds))%Q
      /\ CalcBounds NewBounds = NewBounds
      \/ (FVector.Z (FBox.Max NewBounds) <= FVector.Z (FBox.Min NewBounds))%Q
         /\ FVector.Z (FBox.Min (CalcBounds NewBounds)) = 0%Q
         /\ FVector.Z (FBox.Max (CalcBounds NewBounds)) = 100%Q)
  /\ FVector.Z (FBox.Min (CalcBounds (RootBoxOf InBounds InTileSize e))) = 0%Q
  /\ FVector.Z (FBox.Max (CalcBounds (RootBoxOf InBounds InTileSize e))) = 100%Q.
Proof.
  unfold CalcBounds.
  destruct (Qle_bool (FVector.Z (FBox.Max NewBounds))
                     (FVector.Z (FBox.Min NewBounds))) eqn:E.
  - apply Qle_bool_iff in E. cbn.
    split; [reflexivity |]. split; [reflexivity |]. split; [reflexivity |].
    split; [right; repeat split; exact E |]. split; reflexivity.
  - apply Qle_bool_false_iff in E.
    split; [exact E |]. split; [reflexivity |]. split; [reflexivity |].
    split; [left; split; [exact E | reflexivity] |]. split; reflexivity.
Qed.

Lemma inject_Z_double_le (x r : Z) :
  (2 * x <= r)%Z -> (2 * inject_Z x <= inject_Z r)%Q.
Proof.
  intros H. rewrite Zle_Qle, inject_Z_mult in H. exact H.
Qed.

(** X21. [RebuildQuadtreeMesh] initialises the tree with a world box
    that the root box covers: for a positive tile size and extent
    components from 1 to 16384, for which the reserve of [InitTree] is a
    value of [int32], the root box is anchored at the minimum corner of
    the world box and reaches at least as far in X and in Y. *)
Theorem Rebuild_root_covers_world_box (this : FMeshQuadTree)
    (GridPosition : FVector2D.t) (InTileSize : Q) (e : Z * Z) :
  (0 < InTileSize)%Q -> ExtentWithinReserve e ->
  let t := InitTree this (MeshWorldBox GridPosition InTileSize e) InTileSize e in
  let root := node_at (Nodes (NodeData t)) 0 in
  (0 < NodesMax (NodeData t) < 2 ^ 31)%Z
  /\ CoversXY (Bounds root) (MeshBoundsOf t)
  /\ FVector.to2D (FBox.Min (Bounds root)) = FBox2D.Min (TileRegion t).
Proof.
  intros Hts Hw t root.
  split; [exact (ExtentWithinReserve_fits e Hw) |].
  pose proof (ExtentWithinReserve_in_range e Hw) as He.
  pose proof (RootDim_exact e He) as Hr.
  destruct He as [Hx Hy].
  destruct (NextPowerOfTwo_least (2 * Z.max (fst e) (snd e)) ltac:(lia)) as (Hle & _ & _).
  rewrite <- Hr in Hle.
  assert (Hrx : (2 * inject_Z (fst e) <= inject_Z (RootDim e))%Q)
    by (apply inject_Z_double_le; lia).
  assert (Hry : (2 * inject_Z (snd e) <= inject_Z (RootDim e))%Q)
    by (apply inject_Z_double_le; lia).
  assert (Px : (0 <= InTileSize * (inject_Z (RootDim e) - 2 * inject_Z (fst e)))%Q)
    by (apply Qmult_le_0_compat; lra).
  assert (Py : (0 <= InTileSize * (inject_Z (RootDim e) - 2 * inject_Z (snd e)))%Q)
    by (apply Qmult_le_0_compat; lra).
  split; [| reflexivity].
  subst root t. unfold CoversXY, MeshBoundsOf, InitTree, MeshWorldBox. cbn.
  repeat split; lra.
Qed.

Lemma Rebuild_root_covers_world_box_witness :
  let t := InitTree EmptyTree (MeshWorldBox (FVector2D.mk 64 64) 32 (3, 2)%Z)
                    32 (3, 2)%Z in
  (0 < 32)%Q /\ ExtentWithinReserve (3, 2)%Z
  /\ CoversXY (Bounds (node_at (Nodes (NodeData t)) 0)) (MeshBoundsOf t)
  /\ FVector.to2D (FBox.Min (Bounds (node_at (Nodes (NodeData t)) 0)))
     = FBox2D.Min (TileRegion t).
Proof.
  intros t.
  assert (H1 : (0 < 32)%Q) by reflexivity.
  assert (H2 : ExtentWithinReserve (3, 2)%Z)
    by (unfold ExtentWithinReserve; cbn; lia).
  split; [exact H1 |]. split; [exact H2 |].
  exact (proj2 (Rebuild_root_covers_world_box EmptyTree (FVector2D.mk 64 64) 32
                  (3, 2)%Z H1 H2)).
Defined.


(** X23. When [ShouldRender()] answers yes, the first override material
    is set and the extent components are from 1 to 16384,
    [RebuildQuadtreeMesh] returns a locked tree within its reserve, a
    value of [int32], and on it the height query returns at every point,
    with the height of the surface as height whether or not the point
    was found. *)
Theorem Rebuild_with_material (MeshQuadTree : FMeshQuadTree)
    (GridPosition : FVector2D.t) (InTileSize : Q) (e : Z * Z)
    (Material0 : nat) (QuadtreeMeshHeight : Q) (OceanBounds : FBox.t)
    (p : FVector2D.t) :
  ExtentWithinReserve e ->
  exists t found,
    RebuildQuadtreeMesh MeshQuadTree GridPosition InTileSize e true
                        (Some Material0) QuadtreeMeshHeight OceanBounds = Ret t
    /\ bIsReadOnly t = true
    /\ (Z.of_nat (GetNodeCount t) <= NodesMax (NodeData t) < 2 ^ 31)%Z
    /\ QueryTileBaseHeightAtLocation t p = Ret (found, QuadtreeMeshHeight).
Proof.
  intros He.
  pose proof (ExtentWithinReserve_fits e He) as Hfit.
  set (t0 := InitTree MeshQuadTree (MeshWorldBox GridPosition InTileSize e)
                      InTileSize e).
  change (InitCapacity (RootDim e)) with (NodesMax (NodeData t0)) in Hfit.
  set (r := mkRenderData (Some Material0) QuadtreeMeshHeight 0).
  destruct (Built_init true MeshQuadTree (MeshWorldBox GridPosition InTileSize e)
              InTileSize e) as (d & HB0).
  fold t0 in HB0.
  pose proof (Built_AddRenderData true d t0 r HB0) as HB1.
  set (t1 := fst (AddQuadMeshRenderData t0 r)) in *.
  destruct (Built_AddRegion true d t1 OceanBounds 1 HB1 (fun _ => eq_refl))
    as (t2 & Hadd & HB2 & Hcap & Hrd).
  assert (Hreb : RebuildQuadtreeMesh MeshQuadTree GridPosition InTileSize e true
                   (Some Material0) QuadtreeMeshHeight OceanBounds
                 = Ret (Unlock t2 true)).
  { unfold RebuildQuadtreeMesh. cbn [negb]. cbv zeta.
    fold t0. fold r. fold t1.
    change (snd (AddQuadMeshRenderData t0 r)) with 1%nat.
    rewrite Hadd. reflexivity. }
  assert (Hstamp : AllStamped 1 (Nodes (NodeData t2))).
  { unfold AddQuadMeshTilesInsideBounds in Hadd.
    destruct (bIsReadOnly t1); [discriminate Hadd |].
    destruct (AddNodes _ _ _ _ _ _ _ _) as [nodes | |] eqn:E; try discriminate Hadd.
    injection Hadd as <-. cbn [NodeData Nodes setNodeData setNodes].
    apply (AddNodes_stamps _ _ _ _ _ _ _ _ _) in E; [exact E |].
    intros k Hk Hne. cbn in Hk. lia. }
  destruct (Built_prune_height d t2 p HB2) as ([found h] & Hq0 & Hq1).
  exists (Unlock t2 true), found.
  split; [exact Hreb |]. split; [reflexivity |]. split.
  { pose proof (Built_count _ _ _ HB2) as Hc.
    destruct (PruneNodes_length (Nodes (NodeData t2))) as [Hle _].
    change (NodesMax (NodeData t1)) with (NodesMax (NodeData t0)) in Hcap.
    unfold GetNodeCount, Unlock in *. cbn. lia. }
  rewrite Hq1. f_equal. f_equal.
  destruct HB2 as (Hd & _ & _ & paths & I & _).
  assert (Hn : (0 <? GetNodeCount t2)%nat = true).
  { apply Nat.ltb_lt. unfold GetNodeCount.
    pose proof (inv_root _ _ _ I) as H. apply lookup_lt_Some in H.
    rewrite (inv_len _ _ _ I) in H. exact H. }
  unfold QueryTileBaseHeightAtLocation in Hq0.
  change (GetNodeCount (Unlock t2 false)) with (GetNodeCount t2) in Hq0.
  rewrite Hn in Hq0. cbn [Unlock bIsReadOnly setReadOnly] in Hq0.
  destruct t2 as [[nodes cap rd] mats region leaf ext mlc depth ro].
  cbn [NodeData Nodes NodesMax QuadMeshRenderData setReadOnly setNodeData setNodes
       TreeDepth] in *.
  rewrite (QueryBaseHeight_stamped d nodes paths cap rd 1 p I Hstamp _ 0%nat []
             found h (inv_root _ _ _ I) Hq0).
  rewrite Hrd. reflexivity.
Qed.

Lemma Rebuild_with_material_witness :
  exists t found,
    RebuildQuadtreeMesh EmptyTree (FVector2D.mk 64 64) 32 (3, 2)%Z true
                        (Some 7%nat) 5 (Region 0 0 100 100) = Ret t
    /\ bIsReadOnly t = true
    /\ QueryTileBaseHeightAtLocation t (FVector2D.mk 10 10) = Ret (found, 5%Q).
Proof.
  assert (He : ExtentWithinReserve (3, 2)%Z).
  { unfold ExtentWithinReserve. cbn. lia. }
  destruct (Rebuild_with_material EmptyTree (FVector2D.mk 64 64) 32 (3, 2)%Z
              7%nat 5 (Region 0 0 100 100) (FVector2D.mk 10 10) He)
    as (t & found & Hr & Hro & _ & Hq).
  exists t, found. split; [exact Hr |]. split; [exact Hro | exact Hq].
Defined.

(** ** The arena a build leaves *)





Lemma AssignMaterialIndices_reindexed (g : FQuadMeshRenderData -> Z)
    (rd : list FQuadMeshRenderData) :
  forall st,
    AssignMaterialIndices st (map (fun r => setMaterialIndex (g r) r) rd)
    = AssignMaterialIndices st rd.
Proof.
  induction rd as [| Data rest IH]; intros st; [reflexivity |].
  cbn [map AssignMaterialIndices setMaterialIndex Material].
  rewrite IH. reflexivity.
Qed.

(** X26. Running [BuildMaterialIndices] a second time changes
    nothing: the indices depend on the materials alone. *)
Theorem BuildMaterialIndices_idempotent (this : FMeshQuadTree) :
  BuildMaterialIndices (BuildMaterialIndices this) = BuildMaterialIndices this.
Proof.
  destruct (BuildMaterialIndices_fields this) as (m & _ & Hrd & _ & _).
  unfold BuildMaterialIndices at 1. cbv zeta. rewrite Hrd.
  rewrite AssignMaterialIndices_reindexed.
  unfold BuildMaterialIndices. cbv zeta.
  destruct this as [[nodes cap rd] mats region leaf ext mlc depth ro].
  reflexivity.
Qed.


